(** * Loan profitability simulator: the numeric engine

    A shallow embedding of the calculation scripts of the simulator pages
    ([src/simulator/src/routes/+page.svelte] and the earlier revisions of the
    same page) together with the properties stated about them.

    Numbers.  A JavaScript [number] is modelled as an exact rational ([Q],
    compared with [==]): additions, products and quotients are the exact
    ones.  Division is only ever used where the divisor is non-zero (see
    [annuity_denominator_pos] and [full_inflation_factor_pos]), so the
    totality of [Qdiv] never matters.  The theorems on the scripts are
    stated so as not to rest on the exactness of the arithmetic: they are
    orderings and bounds, values that no rounding changes, and equalities
    between values that the scripts obtain by the same operations; where a
    strict ordering would otherwise hinge on exactness, the statement
    carries explicit lower bounds on the quantities involved.  Identities
    that hold in exact arithmetic only (the balance is exactly 0 after the
    last payment, the payments add up to the headline totals) are
    auxiliary lemmas.

    Whole numbers.  The inputs bound to [step="1"] fields (loan term,
    deferral months, analysis years) are integers ([Z]) in the modules
    [Basic], [Simple], [Deferral] and [Full]; the module [Fractional]
    embeds two of the scripts once more with these fields as plain
    numbers, for the statements that are true of whole years only.

    Reactive declarations.  Svelte runs the [$:] statements of a script in
    dependency order, so [monthlyRate] is available to
    [principalAfterDeferral] although it is declared further down; every
    declaration becomes a function of the (clamped) inputs. *)

From Stdlib Require Import String.
From Stdlib Require Import ZArith QArith Qminmax Qpower Qround.
From Stdlib Require Import List Sorted Bool Lia Lqa.
Import ListNotations.

Open Scope Q_scope.

(** ** JavaScript helpers *)

(** [a > b] and [a >= b] on numbers, read from the right: [Qltb b a] is
    [a > b], [Qleb b a] is [a >= b]. *)
Definition Qltb (x y : Q) : bool := negb (Qle_bool y x).
Definition Qleb (x y : Q) : bool := Qle_bool x y.

(** [Math.max], [Math.min] are [Qmax], [Qmin] ([Z.max], [Z.min] on the
    integer fields), [Math.pow b e] with an integer exponent is [b ^ e] and
    [Math.ceil] is [Qceiling]. *)

(** [for (let k = 0; k < n; k++) x = body(x)]. *)
Definition repeat_for {A : Type} (n : Z) (body : A -> A) (x : A) : A :=
  Nat.iter (Z.to_nat n) body x.

(** [Array.prototype.findIndex]: the first index whose element passes the
    test, [-1] when there is none. *)
Fixpoint findIndex_from {A : Type} (test : A -> bool) (l : list A) (i : Z) : Z :=
  match l with
  | [] => (-1)%Z
  | d :: rest => if test d then i else findIndex_from test rest (i + 1)%Z
  end.

Definition findIndex {A : Type} (test : A -> bool) (l : list A) : Z :=
  findIndex_from test l 0%Z.

(** [n || null] for a number [n]: zero is falsy. *)
Definition or_null (n : Z) : option Z :=
  if (n =? 0)%Z then None else Some n.

(** Truthiness of a [number | null], as tested by [{#if breakEvenYear}]. *)
Definition truthy (v : option Z) : bool :=
  match v with
  | None => false
  | Some n => negb (n =? 0)%Z
  end.

(** [a[a.length - 1]], [None] standing for the empty array. *)
Definition last_item {A : Type} (a : list A) : option A :=
  nth_error a (length a - 1).

(** [Math.max(...xs)] for an array of numbers; [None] stands for the
    [-Infinity] that JavaScript returns when the array is empty. *)
Definition spread_max (xs : list Q) : option Q :=
  match xs with
  | [] => None
  | x :: rest => Some (fold_left Qmax rest x)
  end.

(** [Math.min(...xs, last)]. *)
Definition spread_min (xs : list Q) (last : Q) : Q :=
  fold_right Qmin last xs.

Inductive DeferralType : Type :=
| complete
| partial.

(** The annuity expression shared by the [monthlyPayment] declaration of
    every script:
    [base > 0 && rate > 0 ? (base * (rate * pow(1 + rate, n))) / (pow(1 + rate, n) - 1) : 0]. *)
Definition annuity (base rate : Q) (n : Z) : Q :=
  if Qltb 0 base && Qltb 0 rate
  then (base * (rate * (1 + rate) ^ n)) / ((1 + rate) ^ n - 1)
  else 0.

(** ** The loan calculator (first revision: no clamping, no projection) *)

Module Basic.

Record Inputs : Type := {
  loanAmount : Q;
  interestRate : Q;
  loanTermYears : Z;
  downPayment : Q
}.

Definition principal (i : Inputs) : Q := loanAmount i - downPayment i.
Definition monthlyRate (i : Inputs) : Q := interestRate i / 100 / 12.
Definition numberOfPayments (i : Inputs) : Z := (loanTermYears i * 12)%Z.
Definition monthlyPayment (i : Inputs) : Q :=
  annuity (principal i) (monthlyRate i) (numberOfPayments i).
Definition totalPayment (i : Inputs) : Q :=
  monthlyPayment i * inject_Z (numberOfPayments i).
Definition totalInterest (i : Inputs) : Q := totalPayment i - principal i.
Definition totalCost (i : Inputs) : Q := totalPayment i + downPayment i.

End Basic.

(** ** The first projection: investment comparison without deferral
    (second revision of the page; its inputs are not clamped) *)

Module Simple.

Record Inputs : Type := {
  loanAmount : Q;
  interestRate : Q;
  loanTermYears : Z;
  downPayment : Q;
  investmentRate : Q;
  investmentVolatility : Q;
  analysisYears : Z
}.

Definition riskLevel (p : Inputs) : string :=
  if Qltb (investmentVolatility p) 10 then "Low"%string
  else if Qltb (investmentVolatility p) 20 then "Medium"
  else "High".
Definition riskColor (p : Inputs) : string :=
  if Qltb (investmentVolatility p) 10 then "text-green-600"%string
  else if Qltb (investmentVolatility p) 20 then "text-yellow-600"
  else "text-red-600".

Definition principal (p : Inputs) : Q := loanAmount p - downPayment p.
Definition monthlyRate (p : Inputs) : Q := interestRate p / 100 / 12.
Definition numberOfPayments (p : Inputs) : Z := (loanTermYears p * 12)%Z.
Definition monthlyPayment (p : Inputs) : Q :=
  annuity (principal p) (monthlyRate p) (numberOfPayments p).
Definition totalPayment (p : Inputs) : Q :=
  monthlyPayment p * inject_Z (numberOfPayments p).
Definition totalInterest (p : Inputs) : Q := totalPayment p - principal p.
Definition totalCost (p : Inputs) : Q := totalPayment p + downPayment p.

Record YearlyData : Type := {
  year : Z;
  investmentValue : Q;
  loanBalance : Q;
  totalPaid : Q;
  netPosition : Q;
  isLoanActive : bool
}.

Module Loop.
Record t : Type := {
  investmentValue : Q;
  loanBalance : Q;
  totalPaid : Q
}.
End Loop.

Definition monthlyInvestmentRate (p : Inputs) : Q := investmentRate p / 100 / 12.

Definition start (p : Inputs) : Loop.t := {|
  Loop.investmentValue := downPayment p;
  Loop.loanBalance := principal p;
  Loop.totalPaid := downPayment p
|}.

(** Body of the inner loop; [isLoanActive] is fixed for the year. *)
Definition monthStep (p : Inputs) (isLoanActive : bool) (s : Loop.t) : Loop.t :=
  let investmentValue := Loop.investmentValue s * (1 + monthlyInvestmentRate p) in
  if isLoanActive then
    let interestPayment := Loop.loanBalance s * monthlyRate p in
    let principalPayment := monthlyPayment p - interestPayment in
    {| Loop.investmentValue := investmentValue + monthlyPayment p;
       Loop.loanBalance := Qmax 0 (Loop.loanBalance s - principalPayment);
       Loop.totalPaid := Loop.totalPaid s + monthlyPayment p |}
  else
    {| Loop.investmentValue := investmentValue;
       Loop.loanBalance := Loop.loanBalance s;
       Loop.totalPaid := Loop.totalPaid s |}.

Fixpoint yearLoop (p : Inputs) (n : nat) (year : Z) (s : Loop.t) : list YearlyData :=
  match n with
  | O => []
  | S n' =>
      let isLoanActive := (year <=? loanTermYears p)%Z in
      let s' := Nat.iter 12 (monthStep p isLoanActive) s in
      {| year := year;
         investmentValue := Loop.investmentValue s';
         loanBalance := if isLoanActive then Loop.loanBalance s' else 0;
         totalPaid := Loop.totalPaid s';
         netPosition := Loop.investmentValue s' - Loop.totalPaid s';
         isLoanActive := isLoanActive |}
      :: yearLoop p n' (year + 1)%Z s'
  end.

Definition yearlyData (p : Inputs) : list YearlyData :=
  yearLoop p (Z.to_nat (analysisYears p)) 1%Z (start p).

Definition finalInvestmentValue (p : Inputs) : Q :=
  match last_item (yearlyData p) with
  | Some d => investmentValue d
  | None => 0
  end.
Definition finalNetPosition (p : Inputs) : Q :=
  match last_item (yearlyData p) with
  | Some d => netPosition d
  | None => 0
  end.
Definition isPositiveROI (p : Inputs) : bool := Qltb 0 (finalNetPosition p).

Definition profitable (p : Inputs) (d : YearlyData) : bool :=
  let investmentReturns := investmentValue d - totalPaid d in
  Qleb (totalInterest p) investmentReturns.

Definition breakEvenYear (p : Inputs) : option Z :=
  or_null (findIndex (profitable p) (yearlyData p) + 1)%Z.

Definition bestCaseReturn (p : Inputs) : Q := investmentRate p + investmentVolatility p.
Definition worstCaseReturn (p : Inputs) : Q :=
  Qmax 0 (investmentRate p - investmentVolatility p).

Fixpoint scenarioLoop (p : Inputs) (monthlyRate : Q) (n : nat) (year : Z) (value : Q) : Q :=
  match n with
  | O => value
  | S n' =>
      let month value :=
        let value := value * (1 + monthlyRate) in
        if (year <=? loanTermYears p)%Z then value + monthlyPayment p else value in
      scenarioLoop p monthlyRate n' (year + 1)%Z (Nat.iter 12 month value)
  end.

Definition scenarioCalculation (p : Inputs) (rate : Q) : Q :=
  let value := downPayment p in
  let monthlyRate := rate / 100 / 12 in
  scenarioLoop p monthlyRate (Z.to_nat (analysisYears p)) 1%Z value.

Definition bestCaseValue (p : Inputs) : Q := scenarioCalculation p (bestCaseReturn p).
Definition worstCaseValue (p : Inputs) : Q := scenarioCalculation p (worstCaseReturn p).

End Simple.

(** ** The simulator with a deferral period
    (first script of [+page.svelte]; the same engine as its predecessor,
    which hard-codes the defaults) *)

Module Deferral.

Record Inputs : Type := {
  loanAmount : Q;
  interestRate : Q;
  loanTermYears : Z;
  downPayment : Q;
  deferralMonths : Z;
  deferralType : DeferralType;
  investmentRate : Q;
  investmentVolatility : Q;
  analysisYears : Z
}.

Definition DEFAULTS : Inputs := {|
  loanAmount := 200000;
  interestRate := 4.5;
  loanTermYears := 30;
  downPayment := 40000;
  deferralMonths := 12;
  deferralType := complete;
  investmentRate := 7.0;
  investmentVolatility := 3;
  analysisYears := 40
|}.

(** "Clamp values to respect min/max constraints": the eight reactive
    assignments, the later ones reading the clamped [loanAmount] and
    [loanTermYears]. *)
Definition clamp (i : Inputs) : Inputs :=
  let loanAmount' := Qmax 0 (Qmin 10000000 (loanAmount i)) in
  let loanTermYears' := Z.max 1 (Z.min 40 (loanTermYears i)) in
  {| loanAmount := loanAmount';
     interestRate := Qmax 0 (Qmin 20 (interestRate i));
     loanTermYears := loanTermYears';
     downPayment := Qmax 0 (Qmin loanAmount' (downPayment i));
     deferralMonths := Z.max 0 (Z.min 60 (deferralMonths i));
     deferralType := deferralType i;
     investmentRate := Qmax 0 (Qmin 30 (investmentRate i));
     investmentVolatility := Qmax 0 (Qmin 100 (investmentVolatility i));
     analysisYears := Z.max loanTermYears' (Z.min 60 (analysisYears i)) |}.

Definition principal (p : Inputs) : Q := loanAmount p - downPayment p.
Definition monthlyRate (p : Inputs) : Q := interestRate p / 100 / 12.
Definition numberOfPayments (p : Inputs) : Z := (loanTermYears p * 12)%Z.

Definition principalAfterDeferral (p : Inputs) : Q :=
  let balance := loanAmount p - downPayment p in
  match deferralType p with
  | complete =>
      repeat_for (deferralMonths p) (fun balance => balance * (1 + monthlyRate p)) balance
  | partial => balance
  end.

Definition deferralInterestPaid (p : Inputs) : Q :=
  match deferralType p with
  | partial => (loanAmount p - downPayment p) * monthlyRate p * inject_Z (deferralMonths p)
  | complete => 0
  end.

Definition monthlyPayment (p : Inputs) : Q :=
  annuity (principalAfterDeferral p) (monthlyRate p) (numberOfPayments p).
Definition totalPayment (p : Inputs) : Q :=
  monthlyPayment p * inject_Z (numberOfPayments p).
Definition totalInterest (p : Inputs) : Q := totalPayment p - principal p.
Definition totalCost (p : Inputs) : Q := totalPayment p + downPayment p.

Record YearlyData : Type := {
  year : Z;
  investmentValue : Q;
  loanBalance : Q;
  totalPaid : Q;
  netPosition : Q;
  isLoanActive : bool;
  isDeferralPeriod : bool
}.

(** "Total loan duration including deferral period". *)
Definition totalLoanMonths (p : Inputs) : Z :=
  (deferralMonths p + numberOfPayments p)%Z.
Definition totalLoanYears (p : Inputs) : Z :=
  Qceiling (inject_Z (totalLoanMonths p) / 12).

(** The variables the projection loop updates. *)
Module Loop.
Record t : Type := {
  investmentValue : Q;
  loanBalance : Q;
  totalPaid : Q;
  totalMonthsElapsed : Z
}.
End Loop.

Definition monthlyInvestmentRate (p : Inputs) : Q := investmentRate p / 100 / 12.

Definition start (p : Inputs) : Loop.t := {|
  Loop.investmentValue := downPayment p;
  Loop.loanBalance := principal p;
  Loop.totalPaid := downPayment p;
  Loop.totalMonthsElapsed := 0
|}.

(** Body of the inner loop: one month. *)
Definition monthStep (p : Inputs) (s : Loop.t) : Loop.t :=
  let totalMonthsElapsed := (Loop.totalMonthsElapsed s + 1)%Z in
  let isDeferralMonth := (totalMonthsElapsed <=? deferralMonths p)%Z in
  let isRepaymentMonth :=
    (deferralMonths p <? totalMonthsElapsed)%Z
    && (totalMonthsElapsed <=? totalLoanMonths p)%Z in
  let investmentValue := Loop.investmentValue s * (1 + monthlyInvestmentRate p) in
  let loanBalance := Loop.loanBalance s in
  let totalPaid := Loop.totalPaid s in
  if isDeferralMonth then
    match deferralType p with
    | complete =>
        {| Loop.investmentValue := investmentValue;
           Loop.loanBalance := loanBalance * (1 + monthlyRate p);
           Loop.totalPaid := totalPaid;
           Loop.totalMonthsElapsed := totalMonthsElapsed |}
    | partial =>
        let interestOnly := loanBalance * monthlyRate p in
        {| Loop.investmentValue := investmentValue + interestOnly;
           Loop.loanBalance := loanBalance;
           Loop.totalPaid := totalPaid + interestOnly;
           Loop.totalMonthsElapsed := totalMonthsElapsed |}
    end
  else if isRepaymentMonth then
    let interestPayment := loanBalance * monthlyRate p in
    let principalPayment := monthlyPayment p - interestPayment in
    {| Loop.investmentValue := investmentValue + monthlyPayment p;
       Loop.loanBalance := Qmax 0 (loanBalance - principalPayment);
       Loop.totalPaid := totalPaid + monthlyPayment p;
       Loop.totalMonthsElapsed := totalMonthsElapsed |}
  else
    {| Loop.investmentValue := investmentValue;
       Loop.loanBalance := loanBalance;
       Loop.totalPaid := totalPaid;
       Loop.totalMonthsElapsed := totalMonthsElapsed |}.

(** The record pushed at the end of a year. *)
Definition snapshot (p : Inputs) (year : Z) (s : Loop.t) : YearlyData :=
  let isLoanActive := (Loop.totalMonthsElapsed s <=? totalLoanMonths p)%Z in
  let isDeferralPeriod := (Loop.totalMonthsElapsed s <=? deferralMonths p)%Z in
  {| year := year;
     investmentValue := Loop.investmentValue s;
     loanBalance := if isLoanActive then Loop.loanBalance s else 0;
     totalPaid := Loop.totalPaid s;
     netPosition := Loop.investmentValue s - Loop.totalPaid s;
     isLoanActive := isLoanActive;
     isDeferralPeriod := isDeferralPeriod |}.

(** [for (let year = ...; year <= analysisYears; year++)], with [n] the
    number of iterations left. *)
Fixpoint yearLoop (p : Inputs) (n : nat) (year : Z) (s : Loop.t) : list YearlyData :=
  match n with
  | O => []
  | S n' =>
      let s' := Nat.iter 12 (monthStep p) s in
      snapshot p year s' :: yearLoop p n' (year + 1)%Z s'
  end.

Definition yearlyData (p : Inputs) : list YearlyData :=
  yearLoop p (Z.to_nat (analysisYears p)) 1%Z (start p).

(** The month-by-month simulation on its own: the loop variables after
    [k] months. *)
Definition simulate (p : Inputs) (k : nat) : Loop.t :=
  Nat.iter k (monthStep p) (start p).

Definition finalInvestmentValue (p : Inputs) : Q :=
  match last_item (yearlyData p) with
  | Some d => investmentValue d
  | None => 0
  end.
Definition finalNetPosition (p : Inputs) : Q :=
  match last_item (yearlyData p) with
  | Some d => netPosition d
  | None => 0
  end.
Definition isPositiveROI (p : Inputs) : bool := Qltb 0 (finalNetPosition p).

(** "Break-even: year when investment returns compensate for total
    interest paid". *)
Definition profitable (p : Inputs) (d : YearlyData) : bool :=
  let investmentReturns := investmentValue d - totalPaid d in
  Qleb (totalInterest p) investmentReturns.

Definition breakEvenYear (p : Inputs) : option Z :=
  or_null (findIndex (profitable p) (yearlyData p) + 1)%Z.

Definition bestCaseReturn (p : Inputs) : Q := investmentRate p + investmentVolatility p.
Definition worstCaseReturn (p : Inputs) : Q :=
  Qmax 0 (investmentRate p - investmentVolatility p).

Fixpoint scenarioLoop (p : Inputs) (monthlyRate : Q) (n : nat) (year : Z) (value : Q) : Q :=
  match n with
  | O => value
  | S n' =>
      let month value :=
        let value := value * (1 + monthlyRate) in
        if (year <=? loanTermYears p)%Z then value + monthlyPayment p else value in
      scenarioLoop p monthlyRate n' (year + 1)%Z (Nat.iter 12 month value)
  end.

Definition scenarioCalculation (p : Inputs) (rate : Q) : Q :=
  let value := downPayment p in
  let monthlyRate := rate / 100 / 12 in
  scenarioLoop p monthlyRate (Z.to_nat (analysisYears p)) 1%Z value.

Definition bestCaseValue (p : Inputs) : Q := scenarioCalculation p (bestCaseReturn p).
Definition worstCaseValue (p : Inputs) : Q := scenarioCalculation p (worstCaseReturn p).

(** "Risk level classification". *)
Definition riskLevel (p : Inputs) : string :=
  if Qltb (investmentVolatility p) 10 then "Low"%string
  else if Qltb (investmentVolatility p) 20 then "Medium"
  else "High".
Definition riskColor (p : Inputs) : string :=
  if Qltb (investmentVolatility p) 10 then "text-green-600"%string
  else if Qltb (investmentVolatility p) 20 then "text-yellow-600"
  else "text-red-600".

(** "Reactive scenario data - yearly values for all three scenarios". *)
Module Scenario.
Record t : Type := {
  year : Z;
  worst : Q;
  expected : Q;
  best : Q
}.
End Scenario.

Module Values.
Record t : Type := {
  worstValue : Q;
  expectedValue : Q;
  bestValue : Q
}.
End Values.

Definition scenarioMonthStep (p : Inputs) (year : Z) (s : Values.t) : Values.t :=
  let worstMonthlyRate := worstCaseReturn p / 100 / 12 in
  let expectedMonthlyRate := investmentRate p / 100 / 12 in
  let bestMonthlyRate := bestCaseReturn p / 100 / 12 in
  let worstValue := Values.worstValue s * (1 + worstMonthlyRate) in
  let expectedValue := Values.expectedValue s * (1 + expectedMonthlyRate) in
  let bestValue := Values.bestValue s * (1 + bestMonthlyRate) in
  if (year <=? loanTermYears p)%Z then
    {| Values.worstValue := worstValue + monthlyPayment p;
       Values.expectedValue := expectedValue + monthlyPayment p;
       Values.bestValue := bestValue + monthlyPayment p |}
  else
    {| Values.worstValue := worstValue;
       Values.expectedValue := expectedValue;
       Values.bestValue := bestValue |}.

Fixpoint scenarioYearLoop (p : Inputs) (n : nat) (year : Z) (s : Values.t)
  : list Scenario.t :=
  match n with
  | O => []
  | S n' =>
      let s' := Nat.iter 12 (scenarioMonthStep p year) s in
      {| Scenario.year := year;
         Scenario.worst := Values.worstValue s';
         Scenario.expected := Values.expectedValue s';
         Scenario.best := Values.bestValue s' |}
      :: scenarioYearLoop p n' (year + 1)%Z s'
  end.

Definition scenarioYearlyData (p : Inputs) : list Scenario.t :=
  scenarioYearLoop p (Z.to_nat (analysisYears p)) 1%Z
    {| Values.worstValue := downPayment p;
       Values.expectedValue := downPayment p;
       Values.bestValue := downPayment p |}.

(** "Chart calculations" of the hand-drawn chart (the revision of this
    script that precedes the chart component). *)
Definition chartWidth : Q := 100.
Definition chartHeight : Q := 60.

Definition chartMaxValue (p : Inputs) : option Q :=
  spread_max (map (fun d => Qmax (investmentValue d) (totalPaid d)) (yearlyData p)).
Definition chartMinValue (p : Inputs) : Q :=
  spread_min (map (fun d => netPosition d) (yearlyData p)) 0.
Definition chartValueRange (p : Inputs) : option Q :=
  option_map (fun chartMaxValue => chartMaxValue - chartMinValue p) (chartMaxValue p).

Definition scaleY (p : Inputs) (value : Q) : option Q :=
  option_map
    (fun chartValueRange =>
       chartHeight - ((value - chartMinValue p) / chartValueRange) * chartHeight)
    (chartValueRange p).
Definition scaleX (p : Inputs) (year : Z) : Q :=
  (inject_Z year / inject_Z (analysisYears p)) * chartWidth.

End Deferral.

(** ** The full simulator: insurance, inflation, deferral inside the term
    (second script of [+page.svelte]) *)

Module Full.

Record Inputs : Type := {
  loanAmount : Q;
  interestRate : Q;
  loanTermYears : Z;
  downPayment : Q;
  deferralMonths : Z;
  deferralType : DeferralType;
  insuranceCost : Q;
  investmentRate : Q;
  investmentVolatility : Q;
  additionalYears : Z;
  inflationRate : Q
}.

Definition DEFAULTS : Inputs := {|
  loanAmount := 200000;
  interestRate := 4.5;
  loanTermYears := 30;
  downPayment := 40000;
  deferralMonths := 12;
  deferralType := complete;
  insuranceCost := 30;
  investmentRate := 7.0;
  investmentVolatility := 3;
  additionalYears := 10;
  inflationRate := 2.5
|}.

(** "Deferral cannot exceed loan term minus 1 month (need at least 1
    payment)". *)
Definition clamp (i : Inputs) : Inputs :=
  let loanAmount' := Qmax 0 (Qmin 10000000 (loanAmount i)) in
  let loanTermYears' := Z.max 1 (Z.min 40 (loanTermYears i)) in
  {| loanAmount := loanAmount';
     interestRate := Qmax 0 (Qmin 20 (interestRate i));
     loanTermYears := loanTermYears';
     downPayment := Qmax 0 (Qmin loanAmount' (downPayment i));
     deferralMonths := Z.max 0 (Z.min (loanTermYears' * 12 - 1) (deferralMonths i));
     deferralType := deferralType i;
     insuranceCost := Qmax 0 (Qmin 10000 (insuranceCost i));
     investmentRate := Qmax 0 (Qmin 30 (investmentRate i));
     investmentVolatility := Qmax 0 (Qmin 100 (investmentVolatility i));
     additionalYears := Z.max 0 (Z.min 30 (additionalYears i));
     inflationRate := Qmax 0 (Qmin 20 (inflationRate i)) |}.

Definition realInvestmentRate (p : Inputs) : Q := investmentRate p - inflationRate p.

(** "Total analysis period = loan term + additional years". *)
Definition analysisYears (p : Inputs) : Z := (loanTermYears p + additionalYears p)%Z.

Definition principal (p : Inputs) : Q := loanAmount p - downPayment p.
Definition monthlyRate (p : Inputs) : Q := interestRate p / 100 / 12.

Definition principalAfterDeferral (p : Inputs) : Q :=
  let balance := loanAmount p - downPayment p in
  match deferralType p with
  | complete =>
      repeat_for (deferralMonths p) (fun balance => balance * (1 + monthlyRate p)) balance
  | partial => balance
  end.

Definition deferralInterestPaid (p : Inputs) : Q :=
  match deferralType p with
  | partial => (loanAmount p - downPayment p) * monthlyRate p * inject_Z (deferralMonths p)
  | complete => 0
  end.

(** "Deferral is part of the loan term, so repayment period = loan term -
    deferral". *)
Definition totalLoanMonths (p : Inputs) : Z := (loanTermYears p * 12)%Z.
Definition numberOfPayments (p : Inputs) : Z :=
  Z.max 1 (totalLoanMonths p - deferralMonths p).

Definition monthlyPayment (p : Inputs) : Q :=
  annuity (principalAfterDeferral p) (monthlyRate p) (numberOfPayments p).
Definition totalPayment (p : Inputs) : Q :=
  monthlyPayment p * inject_Z (numberOfPayments p).
Definition totalInsuranceCost (p : Inputs) : Q :=
  insuranceCost p * inject_Z (totalLoanMonths p).
Definition totalInterest (p : Inputs) : Q :=
  totalPayment p - principal p + deferralInterestPaid p.
Definition totalCost (p : Inputs) : Q :=
  totalPayment p + downPayment p + deferralInterestPaid p + totalInsuranceCost p.

Record YearlyData : Type := {
  year : Z;
  investmentValue : Q;
  investmentValueReal : Q;
  interestEarned : Q;
  interestEarnedReal : Q;
  loanBalance : Q;
  totalPaid : Q;
  totalPaidReal : Q;
  totalBorrowingCost : Q;
  totalBorrowingCostReal : Q;
  netPosition : Q;
  netPositionReal : Q;
  isLoanActive : bool;
  isDeferralPeriod : bool
}.

Definition totalLoanYears (p : Inputs) : Z :=
  Qceiling (inject_Z (totalLoanMonths p) / 12).

Module Loop.
Record t : Type := {
  investmentValue : Q;
  loanBalance : Q;
  totalPaid : Q;
  totalBorrowingCost : Q;
  totalMonthsElapsed : Z;
  cumulativeInflationFactor : Q
}.
End Loop.

Definition monthlyInvestmentRate (p : Inputs) : Q := investmentRate p / 100 / 12.
Definition monthlyInflationRate (p : Inputs) : Q := inflationRate p / 100 / 12.

(** "Strategy: Take a loan, invest the principal immediately, pay off the
    loan over time". *)
Definition start (p : Inputs) : Loop.t := {|
  Loop.investmentValue := principal p;
  Loop.loanBalance := principal p;
  Loop.totalPaid := 0;
  Loop.totalBorrowingCost := 0;
  Loop.totalMonthsElapsed := 0;
  Loop.cumulativeInflationFactor := 1
|}.

(** "Year 0: Initial state - loan taken, principal invested, no payments
    yet". *)
Definition yearZero (p : Inputs) : YearlyData := {|
  year := 0;
  investmentValue := principal p;
  investmentValueReal := principal p;
  interestEarned := 0;
  interestEarnedReal := 0;
  loanBalance := principal p;
  totalPaid := 0;
  totalPaidReal := 0;
  totalBorrowingCost := 0;
  totalBorrowingCostReal := 0;
  netPosition := principal p;
  netPositionReal := principal p;
  isLoanActive := true;
  isDeferralPeriod := (0 <? deferralMonths p)%Z
|}.

Definition monthStep (p : Inputs) (s : Loop.t) : Loop.t :=
  let totalMonthsElapsed := (Loop.totalMonthsElapsed s + 1)%Z in
  let isDeferralMonth := (totalMonthsElapsed <=? deferralMonths p)%Z in
  let isRepaymentMonth :=
    (deferralMonths p <? totalMonthsElapsed)%Z
    && (totalMonthsElapsed <=? totalLoanMonths p)%Z in
  let isLoanActiveMonth := (totalMonthsElapsed <=? totalLoanMonths p)%Z in
  let cumulativeInflationFactor :=
    Loop.cumulativeInflationFactor s * (1 + monthlyInflationRate p) in
  let investmentValue := Loop.investmentValue s * (1 + monthlyInvestmentRate p) in
  let loanBalance := Loop.loanBalance s in
  (* insurance, every month of the loan term *)
  let totalPaid :=
    if isLoanActiveMonth then Loop.totalPaid s + insuranceCost p
    else Loop.totalPaid s in
  let totalBorrowingCost :=
    if isLoanActiveMonth then Loop.totalBorrowingCost s + insuranceCost p
    else Loop.totalBorrowingCost s in
  if isDeferralMonth then
    match deferralType p with
    | complete =>
        {| Loop.investmentValue := investmentValue;
           Loop.loanBalance := loanBalance * (1 + monthlyRate p);
           Loop.totalPaid := totalPaid;
           Loop.totalBorrowingCost := totalBorrowingCost;
           Loop.totalMonthsElapsed := totalMonthsElapsed;
           Loop.cumulativeInflationFactor := cumulativeInflationFactor |}
    | partial =>
        let interestOnly := loanBalance * monthlyRate p in
        {| Loop.investmentValue := investmentValue;
           Loop.loanBalance := loanBalance;
           Loop.totalPaid := totalPaid + interestOnly;
           Loop.totalBorrowingCost := totalBorrowingCost + interestOnly;
           Loop.totalMonthsElapsed := totalMonthsElapsed;
           Loop.cumulativeInflationFactor := cumulativeInflationFactor |}
    end
  else if isRepaymentMonth then
    let interestPayment := loanBalance * monthlyRate p in
    let principalPayment := monthlyPayment p - interestPayment in
    {| Loop.investmentValue := investmentValue;
       Loop.loanBalance := Qmax 0 (loanBalance - principalPayment);
       Loop.totalPaid := totalPaid + monthlyPayment p;
       Loop.totalBorrowingCost := totalBorrowingCost + interestPayment;
       Loop.totalMonthsElapsed := totalMonthsElapsed;
       Loop.cumulativeInflationFactor := cumulativeInflationFactor |}
  else
    {| Loop.investmentValue := investmentValue;
       Loop.loanBalance := loanBalance;
       Loop.totalPaid := totalPaid;
       Loop.totalBorrowingCost := totalBorrowingCost;
       Loop.totalMonthsElapsed := totalMonthsElapsed;
       Loop.cumulativeInflationFactor := cumulativeInflationFactor |}.

Definition snapshot (p : Inputs) (year : Z) (s : Loop.t) : YearlyData :=
  let isLoanActive := (Loop.totalMonthsElapsed s <=? totalLoanMonths p)%Z in
  let isDeferralPeriod := (Loop.totalMonthsElapsed s <=? deferralMonths p)%Z in
  let interestEarned := Loop.investmentValue s - principal p in
  let investmentValueReal := Loop.investmentValue s / Loop.cumulativeInflationFactor s in
  let totalPaidReal := Loop.totalPaid s / Loop.cumulativeInflationFactor s in
  let totalBorrowingCostReal :=
    Loop.totalBorrowingCost s / Loop.cumulativeInflationFactor s in
  let interestEarnedReal := investmentValueReal - principal p in
  {| year := year;
     investmentValue := Loop.investmentValue s;
     investmentValueReal := investmentValueReal;
     interestEarned := interestEarned;
     interestEarnedReal := interestEarnedReal;
     loanBalance := if isLoanActive then Loop.loanBalance s else 0;
     totalPaid := Loop.totalPaid s;
     totalPaidReal := totalPaidReal;
     totalBorrowingCost := Loop.totalBorrowingCost s;
     totalBorrowingCostReal := totalBorrowingCostReal;
     netPosition := Loop.investmentValue s - Loop.totalPaid s;
     netPositionReal := investmentValueReal - totalPaidReal;
     isLoanActive := isLoanActive;
     isDeferralPeriod := isDeferralPeriod |}.

Fixpoint yearLoop (p : Inputs) (n : nat) (year : Z) (s : Loop.t) : list YearlyData :=
  match n with
  | O => []
  | S n' =>
      let s' := Nat.iter 12 (monthStep p) s in
      snapshot p year s' :: yearLoop p n' (year + 1)%Z s'
  end.

Definition yearlyData (p : Inputs) : list YearlyData :=
  yearZero p :: yearLoop p (Z.to_nat (analysisYears p)) 1%Z (start p).

Definition simulate (p : Inputs) (k : nat) : Loop.t :=
  Nat.iter k (monthStep p) (start p).

Definition finalInvestmentValue (p : Inputs) : Q :=
  match last_item (yearlyData p) with
  | Some d => investmentValue d
  | None => 0
  end.
Definition finalInterestEarned (p : Inputs) : Q :=
  match last_item (yearlyData p) with
  | Some d => interestEarned d
  | None => 0
  end.
Definition finalBorrowingCost (p : Inputs) : Q :=
  match last_item (yearlyData p) with
  | Some d => totalBorrowingCost d
  | None => 0
  end.
Definition finalNetPosition (p : Inputs) : Q :=
  match last_item (yearlyData p) with
  | Some d => netPosition d
  | None => 0
  end.

(** "Total borrowing cost at loan end (interest + insurance for the
    entire loan)". *)
Definition totalLoanBorrowingCost (p : Inputs) : Q :=
  totalInterest p + totalInsuranceCost p.
Definition totalLoanBorrowingCostReal (p : Inputs) : Q :=
  match last_item (yearlyData p) with
  | Some d => totalBorrowingCostReal d
  | None => 0
  end.

Definition isPositiveROI (p : Inputs) : bool :=
  Qltb (totalLoanBorrowingCost p) (finalInterestEarned p).

(** "Break-even: year when investment interest earned exceeds the FINAL
    total borrowing cost". *)
Definition profitable (p : Inputs) (d : YearlyData) : bool :=
  Qleb (totalLoanBorrowingCost p) (interestEarned d).

Definition breakEvenYear (p : Inputs) : option Z :=
  let found := find (profitable p) (yearlyData p) in
  match found with
  | Some d => Some (year d)
  | None => None
  end.

Definition profitableReal (p : Inputs) (d : YearlyData) : bool :=
  Qleb (totalLoanBorrowingCostReal p) (interestEarnedReal d).

Definition breakEvenYearReal (p : Inputs) : option Z :=
  let found := find (profitableReal p) (yearlyData p) in
  match found with
  | Some d => Some (year d)
  | None => None
  end.

Definition bestCaseReturn (p : Inputs) : Q := investmentRate p + investmentVolatility p.
Definition worstCaseReturn (p : Inputs) : Q := investmentRate p - investmentVolatility p.

(** "Same logic: borrow principal, invest it, let it grow". *)
Definition scenarioCalculation (p : Inputs) (rate : Q) : Q :=
  let value := principal p in
  let monthlyRate := rate / 100 / 12 in
  repeat_for (analysisYears p)
    (fun value => Nat.iter 12 (fun value => value * (1 + monthlyRate)) value)
    value.

Definition bestCaseValue (p : Inputs) : Q := scenarioCalculation p (bestCaseReturn p).
Definition worstCaseValue (p : Inputs) : Q := scenarioCalculation p (worstCaseReturn p).

(** "Key metrics (real / inflation-adjusted)". *)
Definition finalInvestmentValueReal (p : Inputs) : Q :=
  match last_item (yearlyData p) with
  | Some d => investmentValueReal d
  | None => 0
  end.
Definition finalInterestEarnedReal (p : Inputs) : Q :=
  match last_item (yearlyData p) with
  | Some d => interestEarnedReal d
  | None => 0
  end.
Definition finalNetPositionReal (p : Inputs) : Q :=
  match last_item (yearlyData p) with
  | Some d => netPositionReal d
  | None => 0
  end.
Definition isPositiveROIReal (p : Inputs) : bool :=
  Qltb (totalLoanBorrowingCostReal p) (finalInterestEarnedReal p).

(** "Risk level classification". *)
Definition riskLevel (p : Inputs) : string :=
  if Qltb (investmentVolatility p) 10 then "Low"%string
  else if Qltb (investmentVolatility p) 20 then "Medium"
  else "High".
Definition riskColor (p : Inputs) : string :=
  if Qltb (investmentVolatility p) 10 then "text-green-600"%string
  else if Qltb (investmentVolatility p) 20 then "text-yellow-600"
  else "text-red-600".

(** "Investment presets". *)
Record InvestmentPreset : Type := {
  id : string;
  name : string;
  returnRate : Q;
  volatility : Q;
  description : string
}.

Definition investmentPresets : list InvestmentPreset := [
  {| id := "custom"; name := "Custom"; returnRate := 7; volatility := 3;
     description := "Set your own values" |};
  {| id := "savings"; name := "Savings Account"; returnRate := 2; volatility := 0.5;
     description := "Low risk, guaranteed returns" |};
  {| id := "bonds"; name := "Government Bonds"; returnRate := 4; volatility := 5;
     description := "Low-medium risk, stable income" |};
  {| id := "corporate-bonds"; name := "Corporate Bonds"; returnRate := 5.5; volatility := 8;
     description := "Medium risk, higher yield" |};
  {| id := "balanced"; name := "Balanced Fund (60/40)"; returnRate := 6.5; volatility := 10;
     description := "Mixed stocks and bonds" |};
  {| id := "sp500"; name := "S&P 500 Index"; returnRate := 10; volatility := 15;
     description := "US large-cap stocks" |};
  {| id := "world-stocks"; name := "World Stocks (MSCI)"; returnRate := 8; volatility := 17;
     description := "Global diversified equities" |};
  {| id := "real-estate"; name := "Real Estate Crowdfunding"; returnRate := 8; volatility := 12;
     description := "Property investments, illiquid" |};
  {| id := "reit"; name := "REITs"; returnRate := 9; volatility := 20;
     description := "Real estate investment trusts" |};
  {| id := "emerging"; name := "Emerging Markets"; returnRate := 11; volatility := 25;
     description := "Higher growth, higher risk" |};
  {| id := "crypto"; name := "Crypto (BTC/ETH)"; returnRate := 30; volatility := 80;
     description := "Extremely volatile, speculative" |}
].

(** [applyPreset]: the two assignments it makes to the inputs. *)
Definition applyPreset (presetId : string) (i : Inputs) : Inputs :=
  let preset := find (fun p => String.eqb (id p) presetId) investmentPresets in
  match preset with
  | Some preset =>
      if negb (String.eqb presetId "custom") then
        {| loanAmount := loanAmount i;
           interestRate := interestRate i;
           loanTermYears := loanTermYears i;
           downPayment := downPayment i;
           deferralMonths := deferralMonths i;
           deferralType := deferralType i;
           insuranceCost := insuranceCost i;
           investmentRate := returnRate preset;
           investmentVolatility := volatility preset;
           additionalYears := additionalYears i;
           inflationRate := inflationRate i |}
      else i
  | None => i
  end.

(** "Reactive scenario data - yearly values for all three scenarios". *)
Module Scenario.
Record t : Type := {
  year : Z;
  worst : Q;
  expected : Q;
  best : Q
}.
End Scenario.

Module Values.
Record t : Type := {
  worstValue : Q;
  expectedValue : Q;
  bestValue : Q
}.
End Values.

Definition scenarioMonthStep (p : Inputs) (s : Values.t) : Values.t :=
  let worstMonthlyRate := worstCaseReturn p / 100 / 12 in
  let expectedMonthlyRate := investmentRate p / 100 / 12 in
  let bestMonthlyRate := bestCaseReturn p / 100 / 12 in
  {| Values.worstValue := Values.worstValue s * (1 + worstMonthlyRate);
     Values.expectedValue := Values.expectedValue s * (1 + expectedMonthlyRate);
     Values.bestValue := Values.bestValue s * (1 + bestMonthlyRate) |}.

Fixpoint scenarioYearLoop (p : Inputs) (n : nat) (year : Z) (s : Values.t)
  : list Scenario.t :=
  match n with
  | O => []
  | S n' =>
      let s' := Nat.iter 12 (scenarioMonthStep p) s in
      {| Scenario.year := year;
         Scenario.worst := Values.worstValue s';
         Scenario.expected := Values.expectedValue s';
         Scenario.best := Values.bestValue s' |}
      :: scenarioYearLoop p n' (year + 1)%Z s'
  end.

Definition scenarioYearlyData (p : Inputs) : list Scenario.t :=
  {| Scenario.year := 0;
     Scenario.worst := principal p;
     Scenario.expected := principal p;
     Scenario.best := principal p |}
  :: scenarioYearLoop p (Z.to_nat (analysisYears p)) 1%Z
       {| Values.worstValue := principal p;
          Values.expectedValue := principal p;
          Values.bestValue := principal p |}.

End Full.

(** ** Parameter sets used in the examples below *)

(** The worked example of the specification: 200000 borrowed, 40000 down,
    4.5 % over 30 years, no deferral. *)
Definition exampleLoan : Basic.Inputs := {|
  Basic.loanAmount := 200000;
  Basic.interestRate := 4.5;
  Basic.loanTermYears := 30;
  Basic.downPayment := 40000
|}.

Definition exampleDeferral : Deferral.Inputs := {|
  Deferral.loanAmount := 200000;
  Deferral.interestRate := 4.5;
  Deferral.loanTermYears := 30;
  Deferral.downPayment := 40000;
  Deferral.deferralMonths := 0;
  Deferral.deferralType := complete;
  Deferral.investmentRate := 7.0;
  Deferral.investmentVolatility := 3;
  Deferral.analysisYears := 40
|}.

Definition exampleFull : Full.Inputs := {|
  Full.loanAmount := 200000;
  Full.interestRate := 4.5;
  Full.loanTermYears := 30;
  Full.downPayment := 40000;
  Full.deferralMonths := 0;
  Full.deferralType := complete;
  Full.insuranceCost := 30;
  Full.investmentRate := 7.0;
  Full.investmentVolatility := 3;
  Full.additionalYears := 10;
  Full.inflationRate := 2.5
|}.

(** The same loans at a zero interest rate. *)
Definition interestFreeLoan : Basic.Inputs := {|
  Basic.loanAmount := 200000;
  Basic.interestRate := 0;
  Basic.loanTermYears := 30;
  Basic.downPayment := 40000
|}.

Definition interestFreeDeferral (months : Z) : Deferral.Inputs := {|
  Deferral.loanAmount := 200000;
  Deferral.interestRate := 0;
  Deferral.loanTermYears := 30;
  Deferral.downPayment := 40000;
  Deferral.deferralMonths := months;
  Deferral.deferralType := complete;
  Deferral.investmentRate := 7.0;
  Deferral.investmentVolatility := 3;
  Deferral.analysisYears := 40
|}.

Definition interestFreeFull (months : Z) (insurance : Q) : Full.Inputs := {|
  Full.loanAmount := 200000;
  Full.interestRate := 0;
  Full.loanTermYears := 30;
  Full.downPayment := 40000;
  Full.deferralMonths := months;
  Full.deferralType := complete;
  Full.insuranceCost := insurance;
  Full.investmentRate := 7.0;
  Full.investmentVolatility := 3;
  Full.additionalYears := 10;
  Full.inflationRate := 2.5
|}.


(** ** What clamping guarantees *)

Record DeferralRanges (p : Deferral.Inputs) : Prop := {
  deferral_principal_nonneg : 0 <= Deferral.principal p;
  deferral_downPayment_nonneg : 0 <= Deferral.downPayment p;
  deferral_rate_nonneg : 0 <= Deferral.monthlyRate p;
  deferral_investment_nonneg : 0 <= Deferral.monthlyInvestmentRate p;
  deferral_term_pos : (1 <= Deferral.loanTermYears p)%Z;
  deferral_months_nonneg : (0 <= Deferral.deferralMonths p)%Z
}.

Record FullRanges (p : Full.Inputs) : Prop := {
  full_principal_nonneg : 0 <= Full.principal p;
  full_rate_nonneg : 0 <= Full.monthlyRate p;
  full_investment_nonneg : 0 <= Full.monthlyInvestmentRate p;
  full_inflation_nonneg : 0 <= Full.monthlyInflationRate p;
  full_insurance_nonneg : 0 <= Full.insuranceCost p;
  full_term_pos : (1 <= Full.loanTermYears p)%Z;
  full_months_range : (0 <= Full.deferralMonths p < Full.totalLoanMonths p)%Z;
  full_additional_nonneg : (0 <= Full.additionalYears p)%Z
}.

(** "The same parameters with zero deferral". *)
Definition deferralWithout (i : Deferral.Inputs) : Deferral.Inputs := {|
  Deferral.loanAmount := Deferral.loanAmount i;
  Deferral.interestRate := Deferral.interestRate i;
  Deferral.loanTermYears := Deferral.loanTermYears i;
  Deferral.downPayment := Deferral.downPayment i;
  Deferral.deferralMonths := 0;
  Deferral.deferralType := Deferral.deferralType i;
  Deferral.investmentRate := Deferral.investmentRate i;
  Deferral.investmentVolatility := Deferral.investmentVolatility i;
  Deferral.analysisYears := Deferral.analysisYears i
|}.

Definition fullWithout (i : Full.Inputs) : Full.Inputs := {|
  Full.loanAmount := Full.loanAmount i;
  Full.interestRate := Full.interestRate i;
  Full.loanTermYears := Full.loanTermYears i;
  Full.downPayment := Full.downPayment i;
  Full.deferralMonths := 0;
  Full.deferralType := Full.deferralType i;
  Full.insuranceCost := Full.insuranceCost i;
  Full.investmentRate := Full.investmentRate i;
  Full.investmentVolatility := Full.investmentVolatility i;
  Full.additionalYears := Full.additionalYears i;
  Full.inflationRate := Full.inflationRate i
|}.

(** A loan with nothing left to borrow: the down payment covers it. *)
Definition paidInFullDeferral : Deferral.Inputs := {|
  Deferral.loanAmount := 200000;
  Deferral.interestRate := 4.5;
  Deferral.loanTermYears := 30;
  Deferral.downPayment := 200000;
  Deferral.deferralMonths := 12;
  Deferral.deferralType := complete;
  Deferral.investmentRate := 7.0;
  Deferral.investmentVolatility := 3;
  Deferral.analysisYears := 40
|}.

Definition paidInFullFull : Full.Inputs := {|
  Full.loanAmount := 200000;
  Full.interestRate := 4.5;
  Full.loanTermYears := 30;
  Full.downPayment := 200000;
  Full.deferralMonths := 12;
  Full.deferralType := complete;
  Full.insuranceCost := 30;
  Full.investmentRate := 7.0;
  Full.investmentVolatility := 3;
  Full.additionalYears := 10;
  Full.inflationRate := 2.5
|}.

(** The values the earlier script starts with. *)
Definition exampleSimple : Simple.Inputs := {|
  Simple.loanAmount := 20000;
  Simple.interestRate := 4.5;
  Simple.loanTermYears := 30;
  Simple.downPayment := 1000;
  Simple.investmentRate := 7.0;
  Simple.investmentVolatility := 15;
  Simple.analysisYears := 40
|}.

(** The worked example without inflation. *)
Definition exampleFullNoInflation : Full.Inputs := {|
  Full.loanAmount := 200000;
  Full.interestRate := 4.5;
  Full.loanTermYears := 30;
  Full.downPayment := 40000;
  Full.deferralMonths := 0;
  Full.deferralType := complete;
  Full.insuranceCost := 30;
  Full.investmentRate := 7.0;
  Full.investmentVolatility := 3;
  Full.additionalYears := 10;
  Full.inflationRate := 0
|}.

(** ** The two projection scripts on arbitrary numbers

    The loan term, the deferral months and the analysis years are bound to
    [step="1"] fields, but they are plain numbers all the same: a field
    accepts 1.5, and the clamps do not round.  This module embeds the
    earlier projection script and the script with a deferral period once
    more with every numeric field a number ([Q]), for the statements that
    depend on the term being a whole number of years.  [Math.pow], whose
    value at a fractional exponent is not a rational number, is a
    parameter of the engine. *)

Module Fractional.

(** [Number.isInteger]. *)
Definition whole (x : Q) : Prop := inject_Z (Qfloor x) == x.

(** The number of iterations of [for (let k = 0; k < n; k++)] and of
    [for (let k = 1; k <= n; k++)] for a number [n]. *)
Definition count_below (n : Q) : nat := Z.to_nat (Qceiling n).
Definition count_upto (n : Q) : nat := Z.to_nat (Qfloor n).

(** *** The earlier projection script *)

Module Simple.

Record Inputs : Type := {
  loanAmount : Q;
  interestRate : Q;
  loanTermYears : Q;
  downPayment : Q;
  investmentRate : Q;
  investmentVolatility : Q;
  analysisYears : Q
}.

Record YearlyData : Type := {
  year : Z;
  investmentValue : Q;
  loanBalance : Q;
  totalPaid : Q;
  netPosition : Q;
  isLoanActive : bool
}.

Module Loop.
Record t : Type := {
  investmentValue : Q;
  loanBalance : Q;
  totalPaid : Q
}.
End Loop.

Section Engine.

Variable pow : Q -> Q -> Q.

Definition principal (p : Inputs) : Q := loanAmount p - downPayment p.
Definition monthlyRate (p : Inputs) : Q := interestRate p / 100 / 12.
Definition numberOfPayments (p : Inputs) : Q := loanTermYears p * 12.
Definition monthlyPayment (p : Inputs) : Q :=
  if Qltb 0 (principal p) && Qltb 0 (monthlyRate p)
  then (principal p
        * (monthlyRate p * pow (1 + monthlyRate p) (numberOfPayments p)))
       / (pow (1 + monthlyRate p) (numberOfPayments p) - 1)
  else 0.
Definition totalPayment (p : Inputs) : Q := monthlyPayment p * numberOfPayments p.
Definition totalInterest (p : Inputs) : Q := totalPayment p - principal p.

Definition monthlyInvestmentRate (p : Inputs) : Q := investmentRate p / 100 / 12.

Definition start (p : Inputs) : Loop.t := {|
  Loop.investmentValue := downPayment p;
  Loop.loanBalance := principal p;
  Loop.totalPaid := downPayment p
|}.

(** Body of the inner loop; [isLoanActive] is fixed for the year. *)
Definition monthStep (p : Inputs) (isLoanActive : bool) (s : Loop.t) : Loop.t :=
  let investmentValue := Loop.investmentValue s * (1 + monthlyInvestmentRate p) in
  if isLoanActive then
    let interestPayment := Loop.loanBalance s * monthlyRate p in
    let principalPayment := monthlyPayment p - interestPayment in
    {| Loop.investmentValue := investmentValue + monthlyPayment p;
       Loop.loanBalance := Qmax 0 (Loop.loanBalance s - principalPayment);
       Loop.totalPaid := Loop.totalPaid s + monthlyPayment p |}
  else
    {| Loop.investmentValue := investmentValue;
       Loop.loanBalance := Loop.loanBalance s;
       Loop.totalPaid := Loop.totalPaid s |}.

Fixpoint yearLoop (p : Inputs) (n : nat) (year : Z) (s : Loop.t) : list YearlyData :=
  match n with
  | O => []
  | S n' =>
      let isLoanActive := Qleb (inject_Z year) (loanTermYears p) in
      let s' := Nat.iter 12 (monthStep p isLoanActive) s in
      {| year := year;
         investmentValue := Loop.investmentValue s';
         loanBalance := if isLoanActive then Loop.loanBalance s' else 0;
         totalPaid := Loop.totalPaid s';
         netPosition := Loop.investmentValue s' - Loop.totalPaid s';
         isLoanActive := isLoanActive |}
      :: yearLoop p n' (year + 1)%Z s'
  end.

Definition yearlyData (p : Inputs) : list YearlyData :=
  yearLoop p (count_upto (analysisYears p)) 1%Z (start p).

Definition profitable (p : Inputs) (d : YearlyData) : bool :=
  let investmentReturns := investmentValue d - totalPaid d in
  Qleb (totalInterest p) investmentReturns.

Definition breakEvenYear (p : Inputs) : option Z :=
  or_null (findIndex (profitable p) (yearlyData p) + 1)%Z.

End Engine.

End Simple.

(** *** The script with a deferral period *)

Module Deferral.

Record Inputs : Type := {
  loanAmount : Q;
  interestRate : Q;
  loanTermYears : Q;
  downPayment : Q;
  deferralMonths : Q;
  deferralType : DeferralType;
  investmentRate : Q;
  investmentVolatility : Q;
  analysisYears : Q
}.

Definition DEFAULTS : Inputs := {|
  loanAmount := 200000;
  interestRate := 4.5;
  loanTermYears := 30;
  downPayment := 40000;
  deferralMonths := 12;
  deferralType := complete;
  investmentRate := 7.0;
  investmentVolatility := 3;
  analysisYears := 40
|}.

(** "Clamp values to respect min/max constraints". *)
Definition clamp (i : Inputs) : Inputs :=
  let loanAmount' := Qmax 0 (Qmin 10000000 (loanAmount i)) in
  let loanTermYears' := Qmax 1 (Qmin 40 (loanTermYears i)) in
  {| loanAmount := loanAmount';
     interestRate := Qmax 0 (Qmin 20 (interestRate i));
     loanTermYears := loanTermYears';
     downPayment := Qmax 0 (Qmin loanAmount' (downPayment i));
     deferralMonths := Qmax 0 (Qmin 60 (deferralMonths i));
     deferralType := deferralType i;
     investmentRate := Qmax 0 (Qmin 30 (investmentRate i));
     investmentVolatility := Qmax 0 (Qmin 100 (investmentVolatility i));
     analysisYears := Qmax loanTermYears' (Qmin 60 (analysisYears i)) |}.

Record YearlyData : Type := {
  year : Z;
  investmentValue : Q;
  loanBalance : Q;
  totalPaid : Q;
  netPosition : Q;
  isLoanActive : bool;
  isDeferralPeriod : bool
}.

Module Loop.
Record t : Type := {
  investmentValue : Q;
  loanBalance : Q;
  totalPaid : Q;
  totalMonthsElapsed : Z
}.
End Loop.

Module Scenario.
Record t : Type := {
  year : Z;
  worst : Q;
  expected : Q;
  best : Q
}.
End Scenario.

Module Values.
Record t : Type := {
  worstValue : Q;
  expectedValue : Q;
  bestValue : Q
}.
End Values.

Section Engine.

Variable pow : Q -> Q -> Q.

Definition principal (p : Inputs) : Q := loanAmount p - downPayment p.
Definition monthlyRate (p : Inputs) : Q := interestRate p / 100 / 12.
Definition numberOfPayments (p : Inputs) : Q := loanTermYears p * 12.

Definition principalAfterDeferral (p : Inputs) : Q :=
  let balance := loanAmount p - downPayment p in
  match deferralType p with
  | complete =>
      Nat.iter (count_below (deferralMonths p))
        (fun balance => balance * (1 + monthlyRate p)) balance
  | partial => balance
  end.

Definition monthlyPayment (p : Inputs) : Q :=
  if Qltb 0 (principalAfterDeferral p) && Qltb 0 (monthlyRate p)
  then (principalAfterDeferral p
        * (monthlyRate p * pow (1 + monthlyRate p) (numberOfPayments p)))
       / (pow (1 + monthlyRate p) (numberOfPayments p) - 1)
  else 0.
Definition totalPayment (p : Inputs) : Q := monthlyPayment p * numberOfPayments p.
Definition totalInterest (p : Inputs) : Q := totalPayment p - principal p.

(** "Total loan duration including deferral period". *)
Definition totalLoanMonths (p : Inputs) : Q := deferralMonths p + numberOfPayments p.

Definition monthlyInvestmentRate (p : Inputs) : Q := investmentRate p / 100 / 12.

Definition start (p : Inputs) : Loop.t := {|
  Loop.investmentValue := downPayment p;
  Loop.loanBalance := principal p;
  Loop.totalPaid := downPayment p;
  Loop.totalMonthsElapsed := 0
|}.

(** Body of the inner loop: one month. *)
Definition monthStep (p : Inputs) (s : Loop.t) : Loop.t :=
  let totalMonthsElapsed := (Loop.totalMonthsElapsed s + 1)%Z in
  let isDeferralMonth := Qleb (inject_Z totalMonthsElapsed) (deferralMonths p) in
  let isRepaymentMonth :=
    Qltb (deferralMonths p) (inject_Z totalMonthsElapsed)
    && Qleb (inject_Z totalMonthsElapsed) (totalLoanMonths p) in
  let investmentValue := Loop.investmentValue s * (1 + monthlyInvestmentRate p) in
  let loanBalance := Loop.loanBalance s in
  let totalPaid := Loop.totalPaid s in
  if isDeferralMonth then
    match deferralType p with
    | complete =>
        {| Loop.investmentValue := investmentValue;
           Loop.loanBalance := loanBalance * (1 + monthlyRate p);
           Loop.totalPaid := totalPaid;
           Loop.totalMonthsElapsed := totalMonthsElapsed |}
    | partial =>
        let interestOnly := loanBalance * monthlyRate p in
        {| Loop.investmentValue := investmentValue + interestOnly;
           Loop.loanBalance := loanBalance;
           Loop.totalPaid := totalPaid + interestOnly;
           Loop.totalMonthsElapsed := totalMonthsElapsed |}
    end
  else if isRepaymentMonth then
    let interestPayment := loanBalance * monthlyRate p in
    let principalPayment := monthlyPayment p - interestPayment in
    {| Loop.investmentValue := investmentValue + monthlyPayment p;
       Loop.loanBalance := Qmax 0 (loanBalance - principalPayment);
       Loop.totalPaid := totalPaid + monthlyPayment p;
       Loop.totalMonthsElapsed := totalMonthsElapsed |}
  else
    {| Loop.investmentValue := investmentValue;
       Loop.loanBalance := loanBalance;
       Loop.totalPaid := totalPaid;
       Loop.totalMonthsElapsed := totalMonthsElapsed |}.

(** The record pushed at the end of a year. *)
Definition snapshot (p : Inputs) (year : Z) (s : Loop.t) : YearlyData :=
  let isLoanActive :=
    Qleb (inject_Z (Loop.totalMonthsElapsed s)) (totalLoanMonths p) in
  let isDeferralPeriod :=
    Qleb (inject_Z (Loop.totalMonthsElapsed s)) (deferralMonths p) in
  {| year := year;
     investmentValue := Loop.investmentValue s;
     loanBalance := if isLoanActive then Loop.loanBalance s else 0;
     totalPaid := Loop.totalPaid s;
     netPosition := Loop.investmentValue s - Loop.totalPaid s;
     isLoanActive := isLoanActive;
     isDeferralPeriod := isDeferralPeriod |}.

Fixpoint yearLoop (p : Inputs) (n : nat) (year : Z) (s : Loop.t) : list YearlyData :=
  match n with
  | O => []
  | S n' =>
      let s' := Nat.iter 12 (monthStep p) s in
      snapshot p year s' :: yearLoop p n' (year + 1)%Z s'
  end.

Definition yearlyData (p : Inputs) : list YearlyData :=
  yearLoop p (count_upto (analysisYears p)) 1%Z (start p).

Definition profitable (p : Inputs) (d : YearlyData) : bool :=
  let investmentReturns := investmentValue d - totalPaid d in
  Qleb (totalInterest p) investmentReturns.

Definition breakEvenYear (p : Inputs) : option Z :=
  or_null (findIndex (profitable p) (yearlyData p) + 1)%Z.

Definition bestCaseReturn (p : Inputs) : Q := investmentRate p + investmentVolatility p.
Definition worstCaseReturn (p : Inputs) : Q :=
  Qmax 0 (investmentRate p - investmentVolatility p).

Definition scenarioMonthStep (p : Inputs) (year : Z) (s : Values.t) : Values.t :=
  let worstMonthlyRate := worstCaseReturn p / 100 / 12 in
  let expectedMonthlyRate := investmentRate p / 100 / 12 in
  let bestMonthlyRate := bestCaseReturn p / 100 / 12 in
  let worstValue := Values.worstValue s * (1 + worstMonthlyRate) in
  let expectedValue := Values.expectedValue s * (1 + expectedMonthlyRate) in
  let bestValue := Values.bestValue s * (1 + bestMonthlyRate) in
  if Qleb (inject_Z year) (loanTermYears p) then
    {| Values.worstValue := worstValue + monthlyPayment p;
       Values.expectedValue := expectedValue + monthlyPayment p;
       Values.bestValue := bestValue + monthlyPayment p |}
  else
    {| Values.worstValue := worstValue;
       Values.expectedValue := expectedValue;
       Values.bestValue := bestValue |}.

Fixpoint scenarioYearLoop (p : Inputs) (n : nat) (year : Z) (s : Values.t)
  : list Scenario.t :=
  match n with
  | O => []
  | S n' =>
      let s' := Nat.iter 12 (scenarioMonthStep p year) s in
      {| Scenario.year := year;
         Scenario.worst := Values.worstValue s';
         Scenario.expected := Values.expectedValue s';
         Scenario.best := Values.bestValue s' |}
      :: scenarioYearLoop p n' (year + 1)%Z s'
  end.

Definition scenarioYearlyData (p : Inputs) : list Scenario.t :=
  scenarioYearLoop p (count_upto (analysisYears p)) 1%Z
    {| Values.worstValue := downPayment p;
       Values.expectedValue := downPayment p;
       Values.bestValue := downPayment p |}.

End Engine.

End Deferral.

(** Reading an input set, a loop state or a record of the script with a
    deferral period as one of the earlier script, which has no deferral
    fields. *)
Definition withoutDeferralFields (p : Deferral.Inputs) : Simple.Inputs := {|
  Simple.loanAmount := Deferral.loanAmount p;
  Simple.interestRate := Deferral.interestRate p;
  Simple.loanTermYears := Deferral.loanTermYears p;
  Simple.downPayment := Deferral.downPayment p;
  Simple.investmentRate := Deferral.investmentRate p;
  Simple.investmentVolatility := Deferral.investmentVolatility p;
  Simple.analysisYears := Deferral.analysisYears p
|}.

Definition withoutDeferralFlag (d : Deferral.YearlyData) : Simple.YearlyData := {|
  Simple.year := Deferral.year d;
  Simple.investmentValue := Deferral.investmentValue d;
  Simple.loanBalance := Deferral.loanBalance d;
  Simple.totalPaid := Deferral.totalPaid d;
  Simple.netPosition := Deferral.netPosition d;
  Simple.isLoanActive := Deferral.isLoanActive d
|}.

Definition withoutElapsedMonths (s : Deferral.Loop.t) : Simple.Loop.t := {|
  Simple.Loop.investmentValue := Deferral.Loop.investmentValue s;
  Simple.Loop.loanBalance := Deferral.Loop.loanBalance s;
  Simple.Loop.totalPaid := Deferral.Loop.totalPaid s
|}.

(** The script's initial values without the deferral. *)
Definition exampleWholeYears : Deferral.Inputs := {|
  Deferral.loanAmount := 200000;
  Deferral.interestRate := 4.5;
  Deferral.loanTermYears := 30;
  Deferral.downPayment := 40000;
  Deferral.deferralMonths := 0;
  Deferral.deferralType := complete;
  Deferral.investmentRate := 7.0;
  Deferral.investmentVolatility := 3;
  Deferral.analysisYears := 40
|}.

End Fractional.

(** * Properties *)

(** ** Comparisons, [Math.max] and the annuity expression *)

Lemma Qltb_lt (x y : Q) : Qltb x y = true <-> x < y.
Proof.
  unfold Qltb. rewrite negb_true_iff.
  split; intro H.
  - apply Qnot_le_lt. intro L. apply Qle_bool_iff in L. congruence.
  - destruct (Qle_bool y x) eqn:E; [|reflexivity].
    apply Qle_bool_iff in E. lra.
Qed.

Lemma Qltb_ge (x y : Q) : Qltb x y = false <-> y <= x.
Proof.
  unfold Qltb. rewrite negb_false_iff. apply Qle_bool_iff.
Qed.

Lemma Qleb_le (x y : Q) : Qleb x y = true <-> x <= y.
Proof. apply Qle_bool_iff. Qed.

Lemma Qmax_0_nonneg (x : Q) : 0 <= Qmax 0 x.
Proof. apply Q.le_max_l. Qed.

Lemma Qmax_0_of_nonneg (x : Q) : 0 <= x -> Qmax 0 x == x.
Proof. intro H. apply Q.max_r. exact H. Qed.

Lemma Qmax_0_of_nonpos (x : Q) : x <= 0 -> Qmax 0 x == 0.
Proof. intro H. apply Q.max_l. exact H. Qed.

Lemma clamped_between (lo hi x : Q) :
  lo <= hi -> lo <= Qmax lo (Qmin hi x) <= hi.
Proof.
  intro H. split.
  - apply Q.le_max_l.
  - apply Q.max_lub; [exact H | apply Q.le_min_l].
Qed.

(** The guard of the annuity expression: a zero (or negative) rate, or a
    zero (or negative) base, gives the literal [0]. *)
Lemma annuity_no_rate (base rate : Q) (n : Z) : rate <= 0 -> annuity base rate n = 0.
Proof.
  intro H. unfold annuity.
  apply Qltb_ge in H. rewrite H, andb_false_r. reflexivity.
Qed.

Lemma annuity_no_base (base rate : Q) (n : Z) : base <= 0 -> annuity base rate n = 0.
Proof.
  intro H. unfold annuity.
  apply Qltb_ge in H. rewrite H. reflexivity.
Qed.

Lemma annuity_formula (base rate : Q) (n : Z) :
  0 < base -> 0 < rate ->
  annuity base rate n = (base * (rate * (1 + rate) ^ n)) / ((1 + rate) ^ n - 1).
Proof.
  intros Hb Hr. unfold annuity.
  apply Qltb_lt in Hb. apply Qltb_lt in Hr. rewrite Hb, Hr. reflexivity.
Qed.

(** The divisor of the annuity expression is positive whenever the guard
    lets the division happen and there is at least one payment. *)
Lemma annuity_denominator_pos (rate : Q) (n : Z) :
  0 < rate -> (1 <= n)%Z -> 0 < (1 + rate) ^ n - 1.
Proof.
  intros Hr Hn.
  assert (1 < (1 + rate) ^ n) by (apply Qpower_1_lt; [lra | lia]).
  lra.
Qed.

Lemma Qdiv_pos (a b : Q) : 0 <= a -> 0 < b -> 0 <= a / b.
Proof.
  intros Ha Hb. apply Qle_shift_div_l; [exact Hb | lra].
Qed.

Lemma annuity_nonneg (base rate : Q) (n : Z) :
  (1 <= n)%Z -> 0 <= annuity base rate n.
Proof.
  intro Hn.
  destruct (Qlt_le_dec 0 base) as [Hb|Hb]; [|rewrite annuity_no_base; [lra|exact Hb]].
  destruct (Qlt_le_dec 0 rate) as [Hr|Hr]; [|rewrite annuity_no_rate; [lra|exact Hr]].
  rewrite annuity_formula by assumption.
  pose proof (annuity_denominator_pos rate n Hr Hn) as Hd.
  apply Qdiv_pos; [|exact Hd].
  assert (0 < (1 + rate) ^ n) by lra.
  assert (0 <= rate * (1 + rate) ^ n) by nra.
  nra.
Qed.

(** The payment is at least the first month's interest. *)
Lemma annuity_covers_interest (base rate : Q) (n : Z) :
  (1 <= n)%Z -> 0 <= base -> 0 <= rate -> base * rate <= annuity base rate n.
Proof.
  intros Hn Hb0 Hr0.
  destruct (Qlt_le_dec 0 base) as [Hb|Hb];
    [|rewrite annuity_no_base by exact Hb; nra].
  destruct (Qlt_le_dec 0 rate) as [Hr|Hr];
    [|rewrite annuity_no_rate by exact Hr; nra].
  rewrite annuity_formula by assumption.
  pose proof (annuity_denominator_pos rate n Hr Hn) as Hd.
  apply Qle_shift_div_l; [exact Hd|].
  set (q := (1 + rate) ^ n) in *.
  assert (0 < base * rate) by nra.
  nra.
Qed.

(** ** Amortizing a balance

    Both projection loops update the balance in a repayment month by
    [loanBalance = Math.max(0, loanBalance - (monthlyPayment - loanBalance * monthlyRate))].
    The facts about this update do not depend on the surrounding loop. *)

Section Amortization.

Variables (base rate : Q) (n : Z).
Hypothesis n_pos : (1 <= n)%Z.
Hypothesis base_nonneg : 0 <= base.
Hypothesis rate_nonneg : 0 <= rate.

Let payment : Q := annuity base rate n.
Let repay (b : Q) : Q := Qmax 0 (b - (payment - b * rate)).

Lemma repay_bounds (b : Q) : 0 <= b <= base -> 0 <= repay b <= b.
Proof.
  intros [Hb0 Hb]. split; [apply Qmax_0_nonneg|].
  pose proof (annuity_covers_interest base rate n n_pos base_nonneg rate_nonneg) as Hc.
  fold payment in Hc.
  apply Q.max_lub; [exact Hb0|].
  assert (b * rate <= base * rate) by nra.
  lra.
Qed.

Lemma repay_iter_bounds (j : nat) :
  0 <= Nat.iter j repay base <= base.
Proof.
  induction j as [|j IH].
  - cbn. lra.
  - rewrite Nat.iter_succ. pose proof (repay_bounds _ IH). lra.
Qed.

Lemma repay_iter_decreasing (j : nat) :
  Nat.iter (S j) repay base <= Nat.iter j repay base.
Proof.
  rewrite Nat.iter_succ. apply repay_bounds, repay_iter_bounds.
Qed.


Lemma repay_iter_no_base (j : nat) :
  base == 0 -> Nat.iter j repay base == 0.
Proof.
  intro Hb. pose proof (repay_iter_bounds j). lra.
Qed.

Lemma Qpower_succ_nat (q : Q) (j : nat) :
  q ^ Z.of_nat (S j) == q ^ Z.of_nat j * q.
Proof.
  rewrite Nat2Z.inj_succ. unfold Z.succ.
  rewrite Qpower_plus' by lia. reflexivity.
Qed.

(** With interest, the balance after [j <= n] payments is
    [base * (q^n - q^j) / (q^n - 1)] for [q = 1 + rate]. *)
Lemma repay_iter_closed_form (j : nat) :
  0 < rate -> 0 < base -> (Z.of_nat j <= n)%Z ->
  Nat.iter j repay base * ((1 + rate) ^ n - 1)
  == base * ((1 + rate) ^ n - (1 + rate) ^ Z.of_nat j).
Proof.
  intros Hr Hb.
  pose proof (annuity_denominator_pos rate n Hr n_pos) as HD.
  assert (HM : payment * ((1 + rate) ^ n - 1) == base * (rate * (1 + rate) ^ n)).
  { unfold payment. rewrite annuity_formula by assumption. field. lra. }
  induction j as [|j IH]; intro Hj.
  - change (Nat.iter 0 repay base) with base.
    change (Z.of_nat 0) with 0%Z. rewrite Qpower_0_r. ring.
  - specialize (IH ltac:(lia)).
    rewrite Nat.iter_succ. set (b := Nat.iter j repay base) in *.
    assert (Hq : (1 + rate) ^ Z.of_nat (S j) <= (1 + rate) ^ n)
      by (apply Qpower_le_compat_l; [lia | lra]).
    rewrite Qpower_succ_nat in *.
    set (A := (1 + rate) ^ n) in *.
    set (C := (1 + rate) ^ Z.of_nat j) in *.
    assert (Hx : (b - (payment - b * rate)) * (A - 1) == base * (A - C * (1 + rate))).
    { transitivity (b * (A - 1) * (1 + rate) - payment * (A - 1)); [ring|].
      rewrite IH, HM. ring. }
    assert (0 <= b - (payment - b * rate)).
    { assert (0 <= (b - (payment - b * rate)) * (A - 1)) by (rewrite Hx; nra).
      nra. }
    unfold repay at 1. rewrite Qmax_0_of_nonneg by assumption. exact Hx.
Qed.

(** The last of the [n] payments retires the loan. *)
Lemma repay_iter_retires :
  0 < rate -> Nat.iter (Z.to_nat n) repay base == 0.
Proof.
  intro Hr.
  destruct (Qlt_le_dec 0 base) as [Hb|Hb];
    [|apply repay_iter_no_base; lra].
  pose proof (annuity_denominator_pos rate n Hr n_pos) as HD.
  pose proof (repay_iter_closed_form (Z.to_nat n) Hr Hb ltac:(lia)) as H.
  rewrite Z2Nat.id in H by lia.
  assert (E : Nat.iter (Z.to_nat n) repay base * ((1 + rate) ^ n - 1) == 0)
    by (rewrite H; ring).
  apply Qmult_integral in E. destruct E as [E|E]; [exact E | lra].
Qed.

End Amortization.

(** Capitalizing interest month after month. *)
Lemma grow_iter_nonneg (rate x : Q) (k : nat) :
  0 <= rate -> 0 <= x -> 0 <= Nat.iter k (fun b => b * (1 + rate)) x.
Proof.
  intros Hr Hx. induction k as [|k IH]; [exact Hx|].
  rewrite Nat.iter_succ. nra.
Qed.

Lemma grow_iter_no_rate (rate x : Q) (k : nat) :
  rate == 0 -> Nat.iter k (fun b => b * (1 + rate)) x == x.
Proof.
  intro Hr. induction k as [|k IH]; [reflexivity|].
  rewrite Nat.iter_succ. nra.
Qed.

Lemma grow_iter_increasing (rate x : Q) (k : nat) :
  0 < rate -> 0 < x -> x < Nat.iter (S k) (fun b => b * (1 + rate)) x.
Proof.
  intros Hr Hx. induction k as [|k IH].
  - cbn. nra.
  - rewrite Nat.iter_succ. nra.
Qed.

Lemma monthly_rate_scaled (x : Q) : x / 100 / 12 == x * (1 # 1200).
Proof. field. Qed.

Lemma monthly_rate_nonneg (x : Q) : 0 <= x -> 0 <= x / 100 / 12.
Proof. intro H. rewrite monthly_rate_scaled. lra. Qed.

Lemma monthly_rate_zero (x : Q) : x / 100 / 12 == 0 <-> x == 0.
Proof. rewrite monthly_rate_scaled. split; intro H; lra. Qed.

Lemma monthly_rate_pos (x : Q) : 0 < x / 100 / 12 <-> 0 < x.
Proof. rewrite monthly_rate_scaled. split; intro H; lra. Qed.

(** ** Arrays built by a counting loop, and searching them *)

Lemma Sorted_map_seq {A : Type} (R : A -> A -> Prop) (f : nat -> A) (a n : nat) :
  (forall i, R (f i) (f (S i))) -> Sorted R (map f (seq a n)).
Proof.
  intro step. revert a.
  induction n as [|n IH]; intro a; cbn [seq map]; constructor.
  - apply IH.
  - destruct n; cbn [seq map]; constructor. apply step.
Qed.

Lemma nth_error_map_seq {A : Type} (f : nat -> A) (n i : nat) :
  nth_error (map f (seq 0 n)) i = if (i <? n)%nat then Some (f i) else None.
Proof.
  destruct (Nat.ltb_spec i n) as [H|H].
  - rewrite nth_error_map, nth_error_seq.
    replace (i <? n)%nat with true by (symmetry; apply Nat.ltb_lt; exact H).
    reflexivity.
  - apply nth_error_None. rewrite length_map, length_seq. exact H.
Qed.

Lemma last_item_map_seq {A : Type} (f : nat -> A) (n : nat) :
  last_item (map f (seq 0 (S n))) = Some (f n).
Proof.
  unfold last_item. rewrite length_map, length_seq, nth_error_map_seq.
  replace (S n - 1)%nat with n by lia.
  replace (n <? S n)%nat with true by (symmetry; apply Nat.ltb_lt; lia).
  reflexivity.
Qed.

Lemma last_item_cons {A : Type} (x y : A) (l : list A) :
  last_item (x :: y :: l) = last_item (y :: l).
Proof.
  unfold last_item. cbn [length]. rewrite !Nat.sub_succ, !Nat.sub_0_r. reflexivity.
Qed.

(** What [find] and [findIndex] return: nothing when no element passes the
    test, otherwise the first element that passes and its position. *)
Lemma first_match {A : Type} (test : A -> bool) (l : list A) :
  (find test l = None
   /\ findIndex test l = (-1)%Z
   /\ forall d, In d l -> test d = false)
  \/ (exists k d,
         nth_error l k = Some d
         /\ test d = true
         /\ find test l = Some d
         /\ findIndex test l = Z.of_nat k
         /\ forall j d', (j < k)%nat -> nth_error l j = Some d' -> test d' = false).
Proof.
  unfold findIndex.
  assert (G : forall i : Z,
    (find test l = None
     /\ findIndex_from test l i = (-1)%Z
     /\ forall d, In d l -> test d = false)
    \/ (exists k d,
          nth_error l k = Some d
          /\ test d = true
          /\ find test l = Some d
          /\ findIndex_from test l i = (i + Z.of_nat k)%Z
          /\ forall j d', (j < k)%nat -> nth_error l j = Some d' -> test d' = false)).
  { induction l as [|x l IH]; intro i.
    - left. repeat split. intros d [].
    - cbn [find findIndex_from]. destruct (test x) eqn:Ex.
      + right. exists 0%nat, x.
        repeat split; try reflexivity; try assumption; lia.
      + destruct (IH (i + 1)%Z) as [(Hf & Hi & Hall) | (k & d & Hn & Ht & Hf & Hi & Hmin)].
        * left. repeat split; try assumption.
          intros d [<- | Hd]; [exact Ex | apply Hall, Hd].
        * right. exists (S k), d. repeat split; try assumption.
          -- rewrite Hi. lia.
          -- intros [|j] d' Hj Hd'; cbn in Hd'.
             ++ congruence.
             ++ apply (Hmin j); [lia | exact Hd']. }
  destruct (G 0%Z) as [H | (k & d & H)]; [left; exact H|].
  right. exists k, d. exact H.
Qed.

(** Twelve months a year for [n] years are [12 * n] months. *)
Lemma iter_years_months {A : Type} (f : A -> A) (n : nat) (x : A) :
  Nat.iter n (fun v => Nat.iter 12 f v) x = Nat.iter (12 * n) f x.
Proof.
  induction n as [|n IH]; [reflexivity|].
  rewrite Nat.iter_succ, IH, <- Nat.iter_add. f_equal. lia.
Qed.

(** A larger base repaid in no more instalments costs strictly more a
    month. *)
Lemma annuity_increasing (b0 b rate : Q) (n n' : Z) :
  (1 <= n' <= n)%Z -> 0 < rate -> 0 < b0 -> b0 < b ->
  annuity b0 rate n < annuity b rate n'.
Proof.
  intros Hn Hr Hb0 Hb.
  rewrite !annuity_formula by lra.
  pose proof (annuity_denominator_pos rate n Hr ltac:(lia)) as HA.
  pose proof (annuity_denominator_pos rate n' Hr ltac:(lia)) as HA'.
  assert (HAA : (1 + rate) ^ n' <= (1 + rate) ^ n)
    by (apply Qpower_le_compat_l; [lia | lra]).
  set (A := (1 + rate) ^ n) in *.
  set (A' := (1 + rate) ^ n') in *.
  set (M0 := b0 * (rate * A) / (A - 1)).
  set (M := b * (rate * A') / (A' - 1)).
  assert (E : (M - M0) * ((A - 1) * (A' - 1))
              == rate * ((b - b0) * A' * (A - 1) + b0 * (A - A'))).
  { unfold M, M0. field. split; lra. }
  assert (P1 : 0 < (A - 1) * (A' - 1)) by nra.
  assert (P2 : 0 < (b - b0) * A' * (A - 1)).
  { assert (0 < (b - b0) * A') by nra. nra. }
  assert (P3 : 0 <= b0 * (A - A')) by nra.
  assert (P4 : 0 < (M - M0) * ((A - 1) * (A' - 1))) by (rewrite E; nra).
  nra.
Qed.

Lemma grow_iter_no_base (rate x : Q) (k : nat) :
  x == 0 -> Nat.iter k (fun b => b * (1 + rate)) x == 0.
Proof.
  intro Hx. induction k as [|k IH]; [exact Hx|].
  rewrite Nat.iter_succ, IH. ring.
Qed.

Lemma repay_nothing_owed (payment rate b : Q) :
  payment = 0 -> b == 0 -> Qmax 0 (b - (payment - b * rate)) == 0.
Proof.
  intros -> Hb.
  assert (E : b - (0 - b * rate) == 0) by (rewrite Hb; ring).
  rewrite Qmax_0_of_nonneg; [exact E | rewrite E; apply Qle_refl].
Qed.

(** ** Thirty years at 4.5 %

    The growth factor [1.00375 ^ 360] of the worked example, enclosed by
    repeated squaring with twelve-digit bounds. *)

Lemma Qpower_square_between (q : Q) (n : Z) (a b a' b' : Q) :
  (0 < n)%Z -> 0 <= a -> a <= q ^ n <= b -> a' <= a * a -> b * b <= b' ->
  a' <= q ^ (n + n) <= b'.
Proof.
  intros Hn Ha [H1 H2] Ha' Hb'. rewrite Qpower_plus' by lia. split; nra.
Qed.

Lemma Qpower_product_between (q : Q) (n m : Z) (a b c d lo hi : Q) :
  (0 < n)%Z -> (0 < m)%Z -> 0 <= a -> 0 <= c ->
  a <= q ^ n <= b -> c <= q ^ m <= d -> lo <= a * c -> b * d <= hi ->
  lo <= q ^ (n + m) <= hi.
Proof.
  intros Hn Hm Ha Hc [H1 H2] [H3 H4] Hlo Hhi. rewrite Qpower_plus' by lia.
  split; nra.
Qed.

Ltac closed_comparison := vm_compute; discriminate.

Lemma growth_over_360_months (q : Q) :
  q == 1.00375 -> 3.84769804961 <= q ^ 360 <= 3.847698050329.
Proof.
  intro Hq. rewrite Hq. clear q Hq. set (q := 1.00375).
  assert (H1 : 1.00375 <= q ^ 1 <= 1.00375)
    by (split; closed_comparison).
  assert (H2 : 1.0075140625 <= q ^ 2 <= 1.0075140625)
    by (apply (Qpower_square_between q 1 1.00375 1.00375);
        [reflexivity | closed_comparison | exact H1 | closed_comparison ..]).
  assert (H4 : 1.015084586135 <= q ^ 4 <= 1.015084586136)
    by (apply (Qpower_square_between q 2 1.0075140625 1.0075140625);
        [reflexivity | closed_comparison | exact H2 | closed_comparison ..]).
  assert (H8 : 1.030396717008 <= q ^ 8 <= 1.030396717011)
    by (apply (Qpower_square_between q 4 1.015084586135 1.015084586136);
        [reflexivity | closed_comparison | exact H4 | closed_comparison ..]).
  assert (H16 : 1.06171739442 <= q ^ 16 <= 1.061717394428)
    by (apply (Qpower_square_between q 8 1.030396717008 1.030396717011);
        [reflexivity | closed_comparison | exact H8 | closed_comparison ..]).
  assert (H32 : 1.127243825613 <= q ^ 32 <= 1.127243825631)
    by (apply (Qpower_square_between q 16 1.06171739442 1.061717394428);
        [reflexivity | closed_comparison | exact H16 | closed_comparison ..]).
  assert (H64 : 1.270678642382 <= q ^ 64 <= 1.270678642424)
    by (apply (Qpower_square_between q 32 1.127243825613 1.127243825631);
        [reflexivity | closed_comparison | exact H32 | closed_comparison ..]).
  assert (H128 : 1.614624212205 <= q ^ 128 <= 1.614624212313)
    by (apply (Qpower_square_between q 64 1.270678642382 1.270678642424);
        [reflexivity | closed_comparison | exact H64 | closed_comparison ..]).
  assert (H256 : 2.607011346638 <= q ^ 256 <= 2.607011346988)
    by (apply (Qpower_square_between q 128 1.614624212205 1.614624212313);
        [reflexivity | closed_comparison | exact H128 | closed_comparison ..]).
  assert (H320 : 3.31267363862 <= q ^ 320 <= 3.312673639175)
    by (apply (Qpower_product_between q 256 64 2.607011346638 2.607011346988 1.270678642382 1.270678642424);
        [reflexivity | reflexivity | closed_comparison | closed_comparison
        | exact H256 | exact H64 | closed_comparison ..]).
  assert (H352 : 3.734190905405 <= q ^ 352 <= 3.734190906091)
    by (apply (Qpower_product_between q 320 32 3.31267363862 3.312673639175 1.127243825613 1.127243825631);
        [reflexivity | reflexivity | closed_comparison | closed_comparison
        | exact H320 | exact H32 | closed_comparison ..]).
  apply (Qpower_product_between q 352 8 3.734190905405 3.734190906091 1.030396717008 1.030396717011);
        [reflexivity | reflexivity | closed_comparison | closed_comparison
        | exact H352 | exact H8 | closed_comparison ..].
Qed.

(** The payment on 160000 at 0.375 % a month over 360 months. *)
Lemma payment_of_worked_example (base rate : Q) :
  base == 160000 -> rate == 0.00375 ->
  810.695 <= annuity base rate 360 < 810.705.
Proof.
  intros Hb Hr.
  rewrite annuity_formula by lra.
  assert (Hq : 1 + rate == 1.00375) by (rewrite Hr; reflexivity).
  pose proof (growth_over_360_months (1 + rate) Hq) as [Hlo Hhi].
  set (X := (1 + rate) ^ 360) in *.
  assert (E : base * (rate * X) == 600 * X) by (rewrite Hb, Hr; ring).
  rewrite E.
  split.
  - apply Qle_shift_div_l; lra.
  - apply Qlt_shift_div_r; lra.
Qed.

(** ** The script with a deferral period *)

Lemma deferral_clamp_ranges (raw : Deferral.Inputs) :
  DeferralRanges (Deferral.clamp raw).
Proof.
  assert (HA := clamped_between 0 10000000 (Deferral.loanAmount raw) ltac:(lra)).
  set (la := Qmax 0 (Qmin 10000000 (Deferral.loanAmount raw))) in *.
  assert (HD := clamped_between 0 la (Deferral.downPayment raw) ltac:(lra)).
  constructor;
    unfold Deferral.principal, Deferral.monthlyRate, Deferral.monthlyInvestmentRate;
    cbn [Deferral.clamp Deferral.loanAmount Deferral.downPayment Deferral.interestRate
         Deferral.investmentRate Deferral.loanTermYears Deferral.deferralMonths];
    fold la; try lra; try lia.
  - apply monthly_rate_nonneg, Q.le_max_l.
  - apply monthly_rate_nonneg, Q.le_max_l.
Qed.

Lemma deferral_payments_pos (p : Deferral.Inputs) :
  DeferralRanges p -> (1 <= Deferral.numberOfPayments p)%Z.
Proof. intros [_ _ _ _ Ht _]. unfold Deferral.numberOfPayments. lia. Qed.

Lemma deferral_base_nonneg (p : Deferral.Inputs) :
  DeferralRanges p -> 0 <= Deferral.principalAfterDeferral p.
Proof.
  intros [HP _ Hr _ _ _]. unfold Deferral.principalAfterDeferral, repeat_for.
  destruct (Deferral.deferralType p); [|exact HP].
  apply grow_iter_nonneg; assumption.
Qed.

Lemma deferral_payment_nonneg (p : Deferral.Inputs) :
  DeferralRanges p -> 0 <= Deferral.monthlyPayment p.
Proof.
  intro R. apply annuity_nonneg, deferral_payments_pos, R.
Qed.

(** *** One month of the loop, variable by variable *)

Lemma deferral_step_elapsed (p : Deferral.Inputs) (s : Deferral.Loop.t) :
  Deferral.Loop.totalMonthsElapsed (Deferral.monthStep p s)
  = (Deferral.Loop.totalMonthsElapsed s + 1)%Z.
Proof.
  unfold Deferral.monthStep; cbv zeta.
  destruct (_ <=? _)%Z; [destruct (Deferral.deferralType p) | destruct (_ && _)];
    reflexivity.
Qed.

Lemma deferral_step_balance (p : Deferral.Inputs) (s : Deferral.Loop.t) :
  Deferral.Loop.loanBalance (Deferral.monthStep p s)
  = let m := (Deferral.Loop.totalMonthsElapsed s + 1)%Z in
    let b := Deferral.Loop.loanBalance s in
    if (m <=? Deferral.deferralMonths p)%Z then
      match Deferral.deferralType p with
      | complete => b * (1 + Deferral.monthlyRate p)
      | partial => b
      end
    else if (Deferral.deferralMonths p <? m)%Z && (m <=? Deferral.totalLoanMonths p)%Z
    then Qmax 0 (b - (Deferral.monthlyPayment p - b * Deferral.monthlyRate p))
    else b.
Proof.
  unfold Deferral.monthStep; cbv zeta.
  destruct (_ <=? _)%Z; [destruct (Deferral.deferralType p) | destruct (_ && _)];
    reflexivity.
Qed.

Lemma deferral_simulate_succ (p : Deferral.Inputs) (k : nat) :
  Deferral.simulate p (S k) = Deferral.monthStep p (Deferral.simulate p k).
Proof. reflexivity. Qed.

Lemma deferral_elapsed (p : Deferral.Inputs) (k : nat) :
  Deferral.Loop.totalMonthsElapsed (Deferral.simulate p k) = Z.of_nat k.
Proof.
  induction k as [|k IH]; [reflexivity|].
  rewrite deferral_simulate_succ, deferral_step_elapsed, IH. lia.
Qed.

(** *** The balance, phase by phase *)

Lemma deferral_balance_deferred (p : Deferral.Inputs) (k : nat) :
  (Z.of_nat k <= Deferral.deferralMonths p)%Z ->
  Deferral.Loop.loanBalance (Deferral.simulate p k)
  = match Deferral.deferralType p with
    | complete => Nat.iter k (fun b => b * (1 + Deferral.monthlyRate p)) (Deferral.principal p)
    | partial => Deferral.principal p
    end.
Proof.
  induction k as [|k IH]; intro Hk.
  - destruct (Deferral.deferralType p); reflexivity.
  - rewrite deferral_simulate_succ, deferral_step_balance, deferral_elapsed; cbv zeta.
    replace (Z.of_nat k + 1 <=? Deferral.deferralMonths p)%Z with true
      by (symmetry; apply Z.leb_le; lia).
    rewrite IH by lia.
    destruct (Deferral.deferralType p); reflexivity.
Qed.

Lemma deferral_balance_at_repayment (p : Deferral.Inputs) :
  (0 <= Deferral.deferralMonths p)%Z ->
  Deferral.Loop.loanBalance (Deferral.simulate p (Z.to_nat (Deferral.deferralMonths p)))
  = Deferral.principalAfterDeferral p.
Proof.
  intro Hd. rewrite deferral_balance_deferred by lia. reflexivity.
Qed.

Lemma deferral_balance_repaying (p : Deferral.Inputs) (j : nat) :
  (0 <= Deferral.deferralMonths p)%Z ->
  (Z.of_nat j <= Deferral.numberOfPayments p)%Z ->
  Deferral.Loop.loanBalance
    (Deferral.simulate p (Z.to_nat (Deferral.deferralMonths p) + j))
  = Nat.iter j
      (fun b => Qmax 0 (b - (Deferral.monthlyPayment p - b * Deferral.monthlyRate p)))
      (Deferral.principalAfterDeferral p).
Proof.
  intro Hd. induction j as [|j IH]; intro Hj.
  - rewrite Nat.add_0_r. apply deferral_balance_at_repayment, Hd.
  - rewrite Nat.add_succ_r, deferral_simulate_succ, deferral_step_balance,
      deferral_elapsed; cbv zeta.
    unfold Deferral.totalLoanMonths.
    replace (_ <=? Deferral.deferralMonths p)%Z with false
      by (symmetry; apply Z.leb_gt; lia).
    replace (_ && _) with true
      by (symmetry; apply andb_true_iff; split; [apply Z.ltb_lt | apply Z.leb_le]; lia).
    rewrite IH by lia. reflexivity.
Qed.

Lemma deferral_balance_retired (p : Deferral.Inputs) (k : nat) :
  (0 <= Deferral.deferralMonths p)%Z ->
  (0 <= Deferral.numberOfPayments p)%Z ->
  Deferral.Loop.loanBalance
    (Deferral.simulate p (Z.to_nat (Deferral.totalLoanMonths p) + k))
  = Deferral.Loop.loanBalance
      (Deferral.simulate p (Z.to_nat (Deferral.totalLoanMonths p))).
Proof.
  intros Hd Hn. induction k as [|k IH].
  - rewrite Nat.add_0_r. reflexivity.
  - rewrite Nat.add_succ_r, deferral_simulate_succ, deferral_step_balance,
      deferral_elapsed; cbv zeta.
    replace (_ <=? Deferral.deferralMonths p)%Z with false
      by (symmetry; apply Z.leb_gt; unfold Deferral.totalLoanMonths; lia).
    replace (_ && _) with false
      by (symmetry; apply andb_false_iff; right; apply Z.leb_gt; lia).
    exact IH.
Qed.

Lemma deferral_total_months (p : Deferral.Inputs) :
  DeferralRanges p ->
  Z.to_nat (Deferral.totalLoanMonths p)
  = (Z.to_nat (Deferral.deferralMonths p) + Z.to_nat (Deferral.numberOfPayments p))%nat.
Proof.
  intro R. pose proof (deferral_payments_pos p R). destruct R.
  unfold Deferral.totalLoanMonths. lia.
Qed.


Lemma deferral_balance_nonneg (p : Deferral.Inputs) (k : nat) :
  DeferralRanges p ->
  0 <= Deferral.Loop.loanBalance (Deferral.simulate p k).
Proof.
  intro R.
  pose proof (deferral_payments_pos p R) as Hn.
  pose proof (deferral_base_nonneg p R) as Hb.
  pose proof (deferral_total_months p R) as Ht.
  pose proof (deferral_months_nonneg p R) as Hd.
  pose proof (deferral_rate_nonneg p R) as Hr.
  pose proof (deferral_principal_nonneg p R) as HP.
  set (d := Z.to_nat (Deferral.deferralMonths p)) in *.
  set (t := Z.to_nat (Deferral.totalLoanMonths p)) in *.
  assert (Hrep : forall j, (Z.of_nat j <= Deferral.numberOfPayments p)%Z ->
                 0 <= Deferral.Loop.loanBalance (Deferral.simulate p (d + j))).
  { intros j Hj. subst d. rewrite deferral_balance_repaying by lia.
    apply (repay_iter_bounds _ _ _ Hn Hb Hr). }
  destruct (le_lt_dec k d) as [H1|H1].
  - rewrite deferral_balance_deferred by lia.
    destruct (Deferral.deferralType p); [apply grow_iter_nonneg|]; assumption.
  - destruct (le_lt_dec k t) as [H2|H2].
    + replace k with (d + (k - d))%nat by lia. apply Hrep. lia.
    + replace k with (t + (k - t))%nat by lia.
      subst t. rewrite deferral_balance_retired by lia.
      rewrite Ht. apply Hrep. lia.
Qed.

(** With interest, the last repayment month leaves exactly nothing. *)
Lemma deferral_balance_final (p : Deferral.Inputs) :
  DeferralRanges p ->
  0 < Deferral.monthlyRate p ->
  Deferral.Loop.loanBalance
    (Deferral.simulate p (Z.to_nat (Deferral.totalLoanMonths p))) == 0.
Proof.
  intros R Hr.
  rewrite (deferral_total_months p R).
  rewrite deferral_balance_repaying;
    [| apply R | pose proof (deferral_payments_pos p R); lia].
  apply (repay_iter_retires _ _ _ (deferral_payments_pos p R)
           (deferral_base_nonneg p R) (deferral_rate_nonneg p R) Hr).
Qed.


(** *** Payments and investment, month after month *)

Lemma deferral_step_monotone (p : Deferral.Inputs) (s : Deferral.Loop.t) :
  DeferralRanges p ->
  0 <= Deferral.Loop.loanBalance s ->
  0 <= Deferral.Loop.investmentValue s ->
  Deferral.Loop.totalPaid s <= Deferral.Loop.totalPaid (Deferral.monthStep p s)
  /\ Deferral.Loop.investmentValue s
     <= Deferral.Loop.investmentValue (Deferral.monthStep p s).
Proof.
  intros R Hb Hv.
  pose proof (deferral_payment_nonneg p R) as HM.
  pose proof (deferral_rate_nonneg p R) as Hr.
  pose proof (deferral_investment_nonneg p R) as Hi.
  unfold Deferral.monthStep; cbv zeta.
  destruct (_ <=? _)%Z; [destruct (Deferral.deferralType p) | destruct (_ && _)];
    cbn [Deferral.Loop.totalPaid Deferral.Loop.investmentValue];
    split; nra.
Qed.

Lemma deferral_investment_nonneg_at (p : Deferral.Inputs) (k : nat) :
  DeferralRanges p -> 0 <= Deferral.Loop.investmentValue (Deferral.simulate p k).
Proof.
  intro R. induction k as [|k IH]; [apply R|].
  rewrite deferral_simulate_succ.
  pose proof (deferral_step_monotone p _ R (deferral_balance_nonneg p k R) IH).
  lra.
Qed.

Lemma deferral_year_monotone (p : Deferral.Inputs) (k j : nat) :
  DeferralRanges p ->
  Deferral.Loop.totalPaid (Deferral.simulate p k)
  <= Deferral.Loop.totalPaid (Deferral.simulate p (j + k))
  /\ Deferral.Loop.investmentValue (Deferral.simulate p k)
     <= Deferral.Loop.investmentValue (Deferral.simulate p (j + k)).
Proof.
  intro R. induction j as [|j IH]; [split; apply Qle_refl|].
  change (S j + k)%nat with (S (j + k)). rewrite deferral_simulate_succ.
  pose proof (deferral_step_monotone p _ R
                (deferral_balance_nonneg p (j + k) R)
                (deferral_investment_nonneg_at p (j + k) R)).
  lra.
Qed.

(** *** The yearly records are year-end snapshots of the simulation *)

Lemma deferral_yearLoop_spec (p : Deferral.Inputs) (n : nat) (y : Z) (k : nat) :
  Deferral.yearLoop p n y (Deferral.simulate p k)
  = map (fun i => Deferral.snapshot p (y + Z.of_nat i)
                    (Deferral.simulate p (12 * S i + k)))
      (seq 0 n).
Proof.
  revert y k. induction n as [|n IH]; intros y k; [reflexivity|].
  cbn [Deferral.yearLoop seq map]; cbv zeta.
  assert (E : Nat.iter 12 (Deferral.monthStep p) (Deferral.simulate p k)
              = Deferral.simulate p (12 + k)).
  { unfold Deferral.simulate. symmetry. apply Nat.iter_add. }
  rewrite E, IH, <- seq_shift, map_map.
  f_equal.
  - f_equal; first [lia | f_equal; lia].
  - apply map_ext. intro i. f_equal; first [lia | f_equal; lia].
Qed.

Lemma deferral_yearlyData_spec (p : Deferral.Inputs) :
  Deferral.yearlyData p
  = map (fun i => Deferral.snapshot p (Z.of_nat (S i)) (Deferral.simulate p (12 * S i)))
      (seq 0 (Z.to_nat (Deferral.analysisYears p))).
Proof.
  unfold Deferral.yearlyData.
  change (Deferral.start p) with (Deferral.simulate p 0).
  rewrite deferral_yearLoop_spec. apply map_ext. intro i.
  f_equal; first [lia | f_equal; lia].
Qed.

Lemma deferral_year_of_record (p : Deferral.Inputs) (k : nat) (d : Deferral.YearlyData) :
  nth_error (Deferral.yearlyData p) k = Some d -> Deferral.year d = Z.of_nat (S k).
Proof.
  rewrite deferral_yearlyData_spec, nth_error_map_seq.
  destruct (k <? _)%nat; [|discriminate].
  intro E. injection E as <-. reflexivity.
Qed.

(** *** Nothing borrowed *)

Lemma deferral_no_principal_payment (p : Deferral.Inputs) :
  Deferral.principal p == 0 -> Deferral.monthlyPayment p = 0.
Proof.
  intro HP. apply annuity_no_base.
  unfold Deferral.principalAfterDeferral, repeat_for.
  destruct (Deferral.deferralType p).
  - rewrite grow_iter_no_base; [apply Qle_refl | exact HP].
  - fold (Deferral.principal p). rewrite HP. apply Qle_refl.
Qed.

Lemma deferral_no_principal_balance (p : Deferral.Inputs) (k : nat) :
  Deferral.principal p == 0 ->
  Deferral.Loop.loanBalance (Deferral.simulate p k) == 0.
Proof.
  intro HP. pose proof (deferral_no_principal_payment p HP) as HM.
  induction k as [|k IH]; [exact HP|].
  rewrite deferral_simulate_succ, deferral_step_balance; cbv zeta.
  destruct (_ <=? _)%Z; [destruct (Deferral.deferralType p) | destruct (_ && _)].
  - rewrite IH. ring.
  - exact IH.
  - apply repay_nothing_owed; assumption.
  - exact IH.
Qed.

(** ** The full script *)

Lemma full_clamp_ranges (raw : Full.Inputs) : FullRanges (Full.clamp raw).
Proof.
  assert (HA := clamped_between 0 10000000 (Full.loanAmount raw) ltac:(lra)).
  set (la := Qmax 0 (Qmin 10000000 (Full.loanAmount raw))) in *.
  assert (HD := clamped_between 0 la (Full.downPayment raw) ltac:(lra)).
  constructor;
    unfold Full.principal, Full.monthlyRate, Full.monthlyInvestmentRate,
      Full.monthlyInflationRate, Full.totalLoanMonths;
    cbn [Full.clamp Full.loanAmount Full.downPayment Full.interestRate
         Full.investmentRate Full.inflationRate Full.insuranceCost
         Full.loanTermYears Full.deferralMonths Full.additionalYears];
    fold la; try lra; try lia.
  - apply monthly_rate_nonneg, Q.le_max_l.
  - apply monthly_rate_nonneg, Q.le_max_l.
  - apply monthly_rate_nonneg, Q.le_max_l.
  - apply Q.le_max_l.
Qed.

Lemma full_payments_pos (p : Full.Inputs) : (1 <= Full.numberOfPayments p)%Z.
Proof. unfold Full.numberOfPayments. lia. Qed.

Lemma full_payments_count (p : Full.Inputs) :
  FullRanges p ->
  Full.numberOfPayments p = (Full.totalLoanMonths p - Full.deferralMonths p)%Z.
Proof.
  intro R. pose proof (full_months_range p R). unfold Full.numberOfPayments. lia.
Qed.

Lemma full_base_nonneg (p : Full.Inputs) :
  FullRanges p -> 0 <= Full.principalAfterDeferral p.
Proof.
  intro R. unfold Full.principalAfterDeferral, repeat_for.
  destruct (Full.deferralType p); [|apply R].
  apply grow_iter_nonneg; apply R.
Qed.

Lemma full_payment_nonneg (p : Full.Inputs) : 0 <= Full.monthlyPayment p.
Proof. apply annuity_nonneg, full_payments_pos. Qed.

(** *** One month of the loop, variable by variable *)

Lemma full_step_elapsed (p : Full.Inputs) (s : Full.Loop.t) :
  Full.Loop.totalMonthsElapsed (Full.monthStep p s)
  = (Full.Loop.totalMonthsElapsed s + 1)%Z.
Proof.
  unfold Full.monthStep; cbv zeta.
  destruct (_ <=? Full.deferralMonths p)%Z;
    [destruct (Full.deferralType p) | destruct (_ && _)]; reflexivity.
Qed.

Lemma full_step_balance (p : Full.Inputs) (s : Full.Loop.t) :
  Full.Loop.loanBalance (Full.monthStep p s)
  = let m := (Full.Loop.totalMonthsElapsed s + 1)%Z in
    let b := Full.Loop.loanBalance s in
    if (m <=? Full.deferralMonths p)%Z then
      match Full.deferralType p with
      | complete => b * (1 + Full.monthlyRate p)
      | partial => b
      end
    else if (Full.deferralMonths p <? m)%Z && (m <=? Full.totalLoanMonths p)%Z
    then Qmax 0 (b - (Full.monthlyPayment p - b * Full.monthlyRate p))
    else b.
Proof.
  unfold Full.monthStep; cbv zeta.
  destruct (_ <=? Full.deferralMonths p)%Z;
    [destruct (Full.deferralType p) | destruct (_ && _)]; reflexivity.
Qed.

(** The investment only compounds: no payment is ever added to it. *)
Lemma full_step_investment (p : Full.Inputs) (s : Full.Loop.t) :
  Full.Loop.investmentValue (Full.monthStep p s)
  = Full.Loop.investmentValue s * (1 + Full.investmentRate p / 100 / 12).
Proof.
  unfold Full.monthStep; cbv zeta.
  destruct (_ <=? Full.deferralMonths p)%Z;
    [destruct (Full.deferralType p) | destruct (_ && _)]; reflexivity.
Qed.

Lemma full_step_inflation (p : Full.Inputs) (s : Full.Loop.t) :
  Full.Loop.cumulativeInflationFactor (Full.monthStep p s)
  = Full.Loop.cumulativeInflationFactor s * (1 + Full.monthlyInflationRate p).
Proof.
  unfold Full.monthStep; cbv zeta.
  destruct (_ <=? Full.deferralMonths p)%Z;
    [destruct (Full.deferralType p) | destruct (_ && _)]; reflexivity.
Qed.

Lemma full_simulate_succ (p : Full.Inputs) (k : nat) :
  Full.simulate p (S k) = Full.monthStep p (Full.simulate p k).
Proof. reflexivity. Qed.

Lemma full_elapsed (p : Full.Inputs) (k : nat) :
  Full.Loop.totalMonthsElapsed (Full.simulate p k) = Z.of_nat k.
Proof.
  induction k as [|k IH]; [reflexivity|].
  rewrite full_simulate_succ, full_step_elapsed, IH. lia.
Qed.

(** The divisor of the inflation-adjusted figures is never zero. *)
Lemma full_inflation_factor_pos (p : Full.Inputs) (k : nat) :
  FullRanges p -> 0 < Full.Loop.cumulativeInflationFactor (Full.simulate p k).
Proof.
  intro R. pose proof (full_inflation_nonneg p R).
  induction k as [|k IH]; [reflexivity|].
  rewrite full_simulate_succ, full_step_inflation. nra.
Qed.

(** *** The balance, phase by phase *)

Lemma full_balance_deferred (p : Full.Inputs) (k : nat) :
  (Z.of_nat k <= Full.deferralMonths p)%Z ->
  Full.Loop.loanBalance (Full.simulate p k)
  = match Full.deferralType p with
    | complete => Nat.iter k (fun b => b * (1 + Full.monthlyRate p)) (Full.principal p)
    | partial => Full.principal p
    end.
Proof.
  induction k as [|k IH]; intro Hk.
  - destruct (Full.deferralType p); reflexivity.
  - rewrite full_simulate_succ, full_step_balance, full_elapsed; cbv zeta.
    replace (Z.of_nat k + 1 <=? Full.deferralMonths p)%Z with true
      by (symmetry; apply Z.leb_le; lia).
    rewrite IH by lia.
    destruct (Full.deferralType p); reflexivity.
Qed.

Lemma full_balance_at_repayment (p : Full.Inputs) :
  (0 <= Full.deferralMonths p)%Z ->
  Full.Loop.loanBalance (Full.simulate p (Z.to_nat (Full.deferralMonths p)))
  = Full.principalAfterDeferral p.
Proof.
  intro Hd. rewrite full_balance_deferred by lia. reflexivity.
Qed.

Lemma full_balance_repaying (p : Full.Inputs) (j : nat) :
  FullRanges p ->
  (Z.of_nat j <= Full.numberOfPayments p)%Z ->
  Full.Loop.loanBalance (Full.simulate p (Z.to_nat (Full.deferralMonths p) + j))
  = Nat.iter j
      (fun b => Qmax 0 (b - (Full.monthlyPayment p - b * Full.monthlyRate p)))
      (Full.principalAfterDeferral p).
Proof.
  intro R. pose proof (full_months_range p R) as Hd.
  rewrite (full_payments_count p R).
  induction j as [|j IH]; intro Hj.
  - rewrite Nat.add_0_r. apply full_balance_at_repayment. lia.
  - rewrite Nat.add_succ_r, full_simulate_succ, full_step_balance, full_elapsed;
      cbv zeta.
    replace (_ <=? Full.deferralMonths p)%Z with false
      by (symmetry; apply Z.leb_gt; lia).
    replace (_ && _) with true
      by (symmetry; apply andb_true_iff; split; [apply Z.ltb_lt | apply Z.leb_le]; lia).
    rewrite IH by lia. reflexivity.
Qed.

Lemma full_balance_retired (p : Full.Inputs) (k : nat) :
  FullRanges p ->
  Full.Loop.loanBalance (Full.simulate p (Z.to_nat (Full.totalLoanMonths p) + k))
  = Full.Loop.loanBalance (Full.simulate p (Z.to_nat (Full.totalLoanMonths p))).
Proof.
  intro R. pose proof (full_months_range p R) as Hd.
  induction k as [|k IH].
  - rewrite Nat.add_0_r. reflexivity.
  - rewrite Nat.add_succ_r, full_simulate_succ, full_step_balance, full_elapsed;
      cbv zeta.
    replace (_ <=? Full.deferralMonths p)%Z with false
      by (symmetry; apply Z.leb_gt; lia).
    replace (_ && _) with false
      by (symmetry; apply andb_false_iff; right; apply Z.leb_gt; lia).
    exact IH.
Qed.

Lemma full_total_months (p : Full.Inputs) :
  FullRanges p ->
  Z.to_nat (Full.totalLoanMonths p)
  = (Z.to_nat (Full.deferralMonths p) + Z.to_nat (Full.numberOfPayments p))%nat.
Proof.
  intro R. pose proof (full_months_range p R).
  rewrite (full_payments_count p R). lia.
Qed.

Lemma full_balance_nonincreasing (p : Full.Inputs) (k : nat) :
  FullRanges p ->
  (Z.to_nat (Full.deferralMonths p) <= k)%nat ->
  Full.Loop.loanBalance (Full.simulate p (S k))
  <= Full.Loop.loanBalance (Full.simulate p k).
Proof.
  intros R Hk.
  pose proof (full_payments_pos p) as Hn.
  pose proof (full_base_nonneg p R) as Hb.
  pose proof (full_total_months p R) as Ht.
  pose proof (full_rate_nonneg p R) as Hr.
  set (d := Z.to_nat (Full.deferralMonths p)) in *.
  destruct (Z_lt_le_dec (Z.of_nat (k - d)) (Full.numberOfPayments p)) as [Hj|Hj].
  - replace (S k) with (d + S (k - d))%nat by lia.
    replace k with (d + (k - d))%nat at 2 by lia.
    subst d. rewrite !full_balance_repaying by (assumption || lia).
    apply (repay_iter_decreasing _ _ _ Hn Hb Hr).
  - set (t := Z.to_nat (Full.totalLoanMonths p)) in *.
    replace (S k) with (t + S (k - t))%nat by lia.
    replace k with (t + (k - t))%nat at 2 by lia.
    subst t. rewrite !full_balance_retired by assumption. lra.
Qed.

Lemma full_balance_nonneg (p : Full.Inputs) (k : nat) :
  FullRanges p ->
  0 <= Full.Loop.loanBalance (Full.simulate p k).
Proof.
  intro R.
  pose proof (full_payments_pos p) as Hn.
  pose proof (full_base_nonneg p R) as Hb.
  pose proof (full_total_months p R) as Ht.
  pose proof (full_months_range p R) as Hd.
  pose proof (full_rate_nonneg p R) as Hr.
  pose proof (full_principal_nonneg p R) as HP.
  set (d := Z.to_nat (Full.deferralMonths p)) in *.
  set (t := Z.to_nat (Full.totalLoanMonths p)) in *.
  assert (Hrep : forall j, (Z.of_nat j <= Full.numberOfPayments p)%Z ->
                 0 <= Full.Loop.loanBalance (Full.simulate p (d + j))).
  { intros j Hj. subst d. rewrite full_balance_repaying by (assumption || lia).
    apply (repay_iter_bounds _ _ _ Hn Hb Hr). }
  destruct (le_lt_dec k d) as [H1|H1].
  - rewrite full_balance_deferred by lia.
    destruct (Full.deferralType p); [apply grow_iter_nonneg|]; assumption.
  - destruct (le_lt_dec k t) as [H2|H2].
    + replace k with (d + (k - d))%nat by lia. apply Hrep. lia.
    + replace k with (t + (k - t))%nat by lia.
      subst t. rewrite full_balance_retired by assumption.
      rewrite Ht. apply Hrep. lia.
Qed.

Lemma full_balance_final (p : Full.Inputs) :
  FullRanges p ->
  0 < Full.monthlyRate p ->
  Full.Loop.loanBalance (Full.simulate p (Z.to_nat (Full.totalLoanMonths p))) == 0.
Proof.
  intros R Hr.
  rewrite (full_total_months p R).
  rewrite full_balance_repaying;
    [| exact R | pose proof (full_payments_pos p); lia].
  apply (repay_iter_retires _ _ _ (full_payments_pos p)
           (full_base_nonneg p R) (full_rate_nonneg p R) Hr).
Qed.


(** *** Payments and investment, month after month *)

Lemma full_step_monotone (p : Full.Inputs) (s : Full.Loop.t) :
  FullRanges p ->
  0 <= Full.Loop.loanBalance s ->
  0 <= Full.Loop.investmentValue s ->
  Full.Loop.totalPaid s <= Full.Loop.totalPaid (Full.monthStep p s)
  /\ Full.Loop.investmentValue s <= Full.Loop.investmentValue (Full.monthStep p s).
Proof.
  intros R Hb Hv.
  pose proof (full_payment_nonneg p) as HM.
  pose proof (full_rate_nonneg p R) as Hr.
  pose proof (full_investment_nonneg p R) as Hi.
  pose proof (full_insurance_nonneg p R) as Hins.
  unfold Full.monthStep; cbv zeta.
  destruct (_ <=? Full.totalLoanMonths p)%Z;
    (destruct (_ <=? Full.deferralMonths p)%Z;
       [destruct (Full.deferralType p) | destruct (_ && _)]);
    cbn [Full.Loop.totalPaid Full.Loop.investmentValue];
    split; nra.
Qed.

Lemma full_investment_at (p : Full.Inputs) (k : nat) :
  Full.Loop.investmentValue (Full.simulate p k)
  = Nat.iter k (fun value => value * (1 + Full.investmentRate p / 100 / 12))
      (Full.principal p).
Proof.
  induction k as [|k IH]; [reflexivity|].
  rewrite full_simulate_succ, full_step_investment, IH. reflexivity.
Qed.

Lemma full_investment_nonneg_at (p : Full.Inputs) (k : nat) :
  FullRanges p -> 0 <= Full.Loop.investmentValue (Full.simulate p k).
Proof.
  intro R. rewrite full_investment_at.
  apply (grow_iter_nonneg (Full.investmentRate p / 100 / 12)); apply R.
Qed.

Lemma full_year_monotone (p : Full.Inputs) (k j : nat) :
  FullRanges p ->
  Full.Loop.totalPaid (Full.simulate p k)
  <= Full.Loop.totalPaid (Full.simulate p (j + k))
  /\ Full.Loop.investmentValue (Full.simulate p k)
     <= Full.Loop.investmentValue (Full.simulate p (j + k)).
Proof.
  intro R. induction j as [|j IH]; [split; apply Qle_refl|].
  change (S j + k)%nat with (S (j + k)). rewrite full_simulate_succ.
  pose proof (full_step_monotone p _ R
                (full_balance_nonneg p (j + k) R)
                (full_investment_nonneg_at p (j + k) R)).
  lra.
Qed.

(** *** The yearly records are year-end snapshots of the simulation *)

Lemma full_yearLoop_spec (p : Full.Inputs) (n : nat) (y : Z) (k : nat) :
  Full.yearLoop p n y (Full.simulate p k)
  = map (fun i => Full.snapshot p (y + Z.of_nat i) (Full.simulate p (12 * S i + k)))
      (seq 0 n).
Proof.
  revert y k. induction n as [|n IH]; intros y k; [reflexivity|].
  cbn [Full.yearLoop seq map]; cbv zeta.
  assert (E : Nat.iter 12 (Full.monthStep p) (Full.simulate p k)
              = Full.simulate p (12 + k)).
  { unfold Full.simulate. symmetry. apply Nat.iter_add. }
  rewrite E, IH, <- seq_shift, map_map.
  f_equal.
  - f_equal; first [lia | f_equal; lia].
  - apply map_ext. intro i. f_equal; first [lia | f_equal; lia].
Qed.

Lemma full_yearlyData_spec (p : Full.Inputs) :
  Full.yearlyData p
  = Full.yearZero p
    :: map (fun i => Full.snapshot p (Z.of_nat (S i)) (Full.simulate p (12 * S i)))
         (seq 0 (Z.to_nat (Full.analysisYears p))).
Proof.
  unfold Full.yearlyData. f_equal.
  change (Full.start p) with (Full.simulate p 0).
  rewrite full_yearLoop_spec. apply map_ext. intro i.
  f_equal; first [lia | f_equal; lia].
Qed.

Lemma full_year_of_record (p : Full.Inputs) (k : nat) (d : Full.YearlyData) :
  nth_error (Full.yearlyData p) k = Some d -> Full.year d = Z.of_nat k.
Proof.
  rewrite full_yearlyData_spec. destruct k as [|k]; cbn [nth_error].
  - intro E. injection E as <-. reflexivity.
  - rewrite nth_error_map_seq.
    destruct (k <? _)%nat; [|discriminate].
    intro E. injection E as <-. reflexivity.
Qed.

(** *** Nothing borrowed *)

Lemma full_no_principal_payment (p : Full.Inputs) :
  Full.principal p == 0 -> Full.monthlyPayment p = 0.
Proof.
  intro HP. apply annuity_no_base.
  unfold Full.principalAfterDeferral, repeat_for.
  destruct (Full.deferralType p).
  - rewrite grow_iter_no_base; [apply Qle_refl | exact HP].
  - fold (Full.principal p). rewrite HP. apply Qle_refl.
Qed.

Lemma full_no_principal_balance (p : Full.Inputs) (k : nat) :
  Full.principal p == 0 ->
  Full.Loop.loanBalance (Full.simulate p k) == 0.
Proof.
  intro HP. pose proof (full_no_principal_payment p HP) as HM.
  induction k as [|k IH]; [exact HP|].
  rewrite full_simulate_succ, full_step_balance; cbv zeta.
  destruct (_ <=? _)%Z; [destruct (Full.deferralType p) | destruct (_ && _)].
  - rewrite IH. ring.
  - exact IH.
  - apply repay_nothing_owed; assumption.
  - exact IH.
Qed.

(** *** The total borrowing cost of an interest-free, uninsured loan *)

Lemma full_no_rate_borrowing_cost (p : Full.Inputs) :
  Full.monthlyRate p == 0 -> Full.insuranceCost p == 0 ->
  Full.totalLoanBorrowingCost p == - Full.principal p.
Proof.
  intros Hr Hi.
  unfold Full.totalLoanBorrowingCost, Full.totalInterest, Full.totalPayment,
    Full.totalInsuranceCost, Full.monthlyPayment, Full.deferralInterestPaid.
  rewrite annuity_no_rate by (rewrite Hr; apply Qle_refl).
  rewrite Hi.
  destruct (Full.deferralType p); [ring|].
  rewrite Hr. ring.
Qed.

(** ** Clamping *)

Ltac compare_facts :=
  repeat match goal with
    | H : (_ ?= _) = Eq |- _ => apply Qeq_alt in H
    | H : (_ ?= _) = Lt |- _ => apply Qlt_alt in H
    | H : (_ ?= _) = Gt |- _ => apply Qgt_alt in H
    end.

(** [Math.max(lo, Math.min(hi, x))] returns one of its three arguments;
    applied twice it returns the same one. *)
Lemma clamp_number_idempotent (lo hi x : Q) :
  lo <= hi ->
  Qmax lo (Qmin hi (Qmax lo (Qmin hi x))) = Qmax lo (Qmin hi x).
Proof.
  intro H.
  unfold Qmax, Qmin, GenericMinMax.gmax, GenericMinMax.gmin.
  destruct (hi ?= x) eqn:E1; cbv iota;
    destruct (lo ?= hi) eqn:E2; cbv iota;
    try destruct (lo ?= x) eqn:E3; cbv iota;
    destruct (hi ?= lo) eqn:E4; cbv iota;
    rewrite ?E1, ?E2, ?E3, ?E4; cbv iota;
    destruct (hi ?= hi) eqn:E5; cbv iota;
    destruct (lo ?= lo) eqn:E6; cbv iota;
    rewrite ?E1, ?E2, ?E3, ?E4; cbv iota;
    try reflexivity; exfalso; compare_facts; lra.
Qed.

(** ** Compounding at two rates *)

Lemma grow_iter_monotone (r r' x x' : Q) (k : nat) :
  0 <= 1 + r -> r <= r' -> 0 <= x -> x <= x' ->
  0 <= Nat.iter k (fun v => v * (1 + r)) x
  /\ Nat.iter k (fun v => v * (1 + r)) x <= Nat.iter k (fun v => v * (1 + r')) x'.
Proof.
  intros Hr Hrr Hx Hxx. induction k as [|k [IH0 IH]].
  - cbn. split; assumption.
  - rewrite !Nat.iter_succ.
    set (a := Nat.iter k (fun v => v * (1 + r)) x) in *.
    set (a' := Nat.iter k (fun v => v * (1 + r')) x') in *.
    assert (0 <= a * (1 + r)) by (apply Qmult_le_0_compat; assumption).
    assert (a * (1 + r) <= a' * (1 + r)) by (apply Qmult_le_compat_r; assumption).
    assert (a' * (1 + r) <= a' * (1 + r')) by nra.
    split; lra.
Qed.

(** ** The scenario series of the full script *)

Lemma full_scenario_iter (p : Full.Inputs) (k : nat) (s : Full.Values.t) :
  Nat.iter k (Full.scenarioMonthStep p) s
  = {| Full.Values.worstValue :=
         Nat.iter k (fun value => value * (1 + Full.worstCaseReturn p / 100 / 12))
           (Full.Values.worstValue s);
       Full.Values.expectedValue :=
         Nat.iter k (fun value => value * (1 + Full.investmentRate p / 100 / 12))
           (Full.Values.expectedValue s);
       Full.Values.bestValue :=
         Nat.iter k (fun value => value * (1 + Full.bestCaseReturn p / 100 / 12))
           (Full.Values.bestValue s) |}.
Proof.
  induction k as [|k IH]; [destruct s; reflexivity|].
  rewrite !Nat.iter_succ, IH. reflexivity.
Qed.

Lemma full_scenarioYearLoop_spec (p : Full.Inputs) (n : nat) (y : Z) (k : nat)
      (s : Full.Values.t) :
  Full.scenarioYearLoop p n y (Nat.iter k (Full.scenarioMonthStep p) s)
  = map (fun i =>
           let s' := Nat.iter (12 * S i + k) (Full.scenarioMonthStep p) s in
           {| Full.Scenario.year := y + Z.of_nat i;
              Full.Scenario.worst := Full.Values.worstValue s';
              Full.Scenario.expected := Full.Values.expectedValue s';
              Full.Scenario.best := Full.Values.bestValue s' |})
      (seq 0 n).
Proof.
  revert y k. induction n as [|n IH]; intros y k; [reflexivity|].
  cbn [Full.scenarioYearLoop seq map]; cbv zeta.
  rewrite <- Nat.iter_add, IH, <- seq_shift, map_map.
  f_equal.
  - cbv zeta. replace (12 * 1 + k)%nat with (12 + k)%nat by lia.
    f_equal. lia.
  - apply map_ext. intro i. cbv zeta.
    replace (12 * S i + (12 + k))%nat with (12 * S (S i) + k)%nat by lia.
    f_equal. lia.
Qed.

Lemma full_scenarioYearlyData_spec (p : Full.Inputs) :
  Full.scenarioYearlyData p
  = map (fun i =>
           {| Full.Scenario.year := Z.of_nat i;
              Full.Scenario.worst :=
                Nat.iter (12 * i)
                  (fun value => value * (1 + Full.worstCaseReturn p / 100 / 12))
                  (Full.principal p);
              Full.Scenario.expected :=
                Nat.iter (12 * i)
                  (fun value => value * (1 + Full.investmentRate p / 100 / 12))
                  (Full.principal p);
              Full.Scenario.best :=
                Nat.iter (12 * i)
                  (fun value => value * (1 + Full.bestCaseReturn p / 100 / 12))
                  (Full.principal p) |})
      (seq 0 (S (Z.to_nat (Full.analysisYears p)))).
Proof.
  unfold Full.scenarioYearlyData. cbn [seq map]. f_equal.
  set (s := {| Full.Values.worstValue := Full.principal p;
               Full.Values.expectedValue := Full.principal p;
               Full.Values.bestValue := Full.principal p |}).
  change s with (Nat.iter 0 (Full.scenarioMonthStep p) s) at 1.
  rewrite full_scenarioYearLoop_spec, <- seq_shift, map_map.
  apply map_ext. intro i. cbv zeta.
  rewrite full_scenario_iter. cbn [Full.Values.worstValue Full.Values.expectedValue
                                     Full.Values.bestValue s].
  replace (12 * S i + 0)%nat with (12 * S i)%nat by lia.
  f_equal. lia.
Qed.

Lemma full_clamp_return_range (raw : Full.Inputs) :
  0 <= Full.investmentRate (Full.clamp raw) <= 30
  /\ 0 <= Full.investmentVolatility (Full.clamp raw) <= 100.
Proof.
  cbn [Full.clamp Full.investmentRate Full.investmentVolatility].
  split; apply clamped_between; lra.
Qed.

Lemma deferral_clamp_return_range (raw : Deferral.Inputs) :
  0 <= Deferral.investmentRate (Deferral.clamp raw) <= 30
  /\ 0 <= Deferral.investmentVolatility (Deferral.clamp raw) <= 100.
Proof.
  cbn [Deferral.clamp Deferral.investmentRate Deferral.investmentVolatility].
  split; apply clamped_between; lra.
Qed.

(** ** The scenario series of the script with a deferral period *)

Lemma deferral_scenario_iter (p : Deferral.Inputs) (y : Z) (k : nat)
      (s : Deferral.Values.t) :
  let month monthlyRate value :=
    let value := value * (1 + monthlyRate) in
    if (y <=? Deferral.loanTermYears p)%Z
    then value + Deferral.monthlyPayment p else value in
  Nat.iter k (Deferral.scenarioMonthStep p y) s
  = {| Deferral.Values.worstValue :=
         Nat.iter k (month (Deferral.worstCaseReturn p / 100 / 12))
           (Deferral.Values.worstValue s);
       Deferral.Values.expectedValue :=
         Nat.iter k (month (Deferral.investmentRate p / 100 / 12))
           (Deferral.Values.expectedValue s);
       Deferral.Values.bestValue :=
         Nat.iter k (month (Deferral.bestCaseReturn p / 100 / 12))
           (Deferral.Values.bestValue s) |}.
Proof.
  intro month. induction k as [|k IH]; [destruct s; reflexivity|].
  rewrite !Nat.iter_succ, IH.
  unfold Deferral.scenarioMonthStep, month; cbv zeta.
  cbn [Deferral.Values.worstValue Deferral.Values.expectedValue
       Deferral.Values.bestValue].
  destruct (y <=? Deferral.loanTermYears p)%Z; reflexivity.
Qed.

Lemma deferral_scenarioLoop_succ (p : Deferral.Inputs) (r : Q) (n : nat) (y : Z)
      (v : Q) :
  Deferral.scenarioLoop p r (S n) y v
  = Deferral.scenarioLoop p r n (y + 1)
      (Nat.iter 12
         (fun value =>
            let value := value * (1 + r) in
            if (y <=? Deferral.loanTermYears p)%Z
            then value + Deferral.monthlyPayment p else value) v).
Proof. reflexivity. Qed.

Lemma deferral_scenarioYearLoop_spec (p : Deferral.Inputs) (n : nat) (y : Z)
      (s : Deferral.Values.t) :
  Deferral.scenarioYearLoop p n y s
  = map (fun i =>
           {| Deferral.Scenario.year := y + Z.of_nat i;
              Deferral.Scenario.worst :=
                Deferral.scenarioLoop p (Deferral.worstCaseReturn p / 100 / 12)
                  (S i) y (Deferral.Values.worstValue s);
              Deferral.Scenario.expected :=
                Deferral.scenarioLoop p (Deferral.investmentRate p / 100 / 12)
                  (S i) y (Deferral.Values.expectedValue s);
              Deferral.Scenario.best :=
                Deferral.scenarioLoop p (Deferral.bestCaseReturn p / 100 / 12)
                  (S i) y (Deferral.Values.bestValue s) |})
      (seq 0 n).
Proof.
  revert y s. induction n as [|n IH]; intros y s; [reflexivity|].
  change (Deferral.scenarioYearLoop p (S n) y s)
    with (let s' := Nat.iter 12 (Deferral.scenarioMonthStep p y) s in
          {| Deferral.Scenario.year := y;
             Deferral.Scenario.worst := Deferral.Values.worstValue s';
             Deferral.Scenario.expected := Deferral.Values.expectedValue s';
             Deferral.Scenario.best := Deferral.Values.bestValue s' |}
          :: Deferral.scenarioYearLoop p n (y + 1) s').
  cbv zeta. rewrite IH.
  rewrite (deferral_scenario_iter p y 12 s); cbv zeta.
  cbn [Deferral.Values.worstValue Deferral.Values.expectedValue
       Deferral.Values.bestValue].
  change (seq 0 (S n)) with (0%nat :: seq 1 n).
  rewrite <- seq_shift, map_cons, map_map.
  f_equal.
  - rewrite !deferral_scenarioLoop_succ. f_equal. lia.
  - apply map_ext. intro i.
    rewrite !(deferral_scenarioLoop_succ p _ (S i)). f_equal. lia.
Qed.

Lemma deferral_scenarioYearlyData_spec (p : Deferral.Inputs) :
  Deferral.scenarioYearlyData p
  = map (fun i =>
           {| Deferral.Scenario.year := Z.of_nat (S i);
              Deferral.Scenario.worst :=
                Deferral.scenarioLoop p (Deferral.worstCaseReturn p / 100 / 12)
                  (S i) 1 (Deferral.downPayment p);
              Deferral.Scenario.expected :=
                Deferral.scenarioLoop p (Deferral.investmentRate p / 100 / 12)
                  (S i) 1 (Deferral.downPayment p);
              Deferral.Scenario.best :=
                Deferral.scenarioLoop p (Deferral.bestCaseReturn p / 100 / 12)
                  (S i) 1 (Deferral.downPayment p) |})
      (seq 0 (Z.to_nat (Deferral.analysisYears p))).
Proof.
  unfold Deferral.scenarioYearlyData. rewrite deferral_scenarioYearLoop_spec.
  apply map_ext. intro i.
  cbn [Deferral.Values.worstValue Deferral.Values.expectedValue
       Deferral.Values.bestValue].
  f_equal. lia.
Qed.

Lemma deferral_scenarioLoop_monotone (p : Deferral.Inputs) (r r' : Q) (n : nat)
      (y : Z) (v v' : Q) :
  0 <= Deferral.monthlyPayment p ->
  0 <= 1 + r -> r <= r' -> 0 <= v -> v <= v' ->
  0 <= Deferral.scenarioLoop p r n y v
  /\ Deferral.scenarioLoop p r n y v <= Deferral.scenarioLoop p r' n y v'.
Proof.
  intros HM Hr Hrr. revert y v v'.
  induction n as [|n IH]; intros y v v' Hv Hvv; [split; assumption|].
  cbn [Deferral.scenarioLoop]; cbv zeta.
  apply IH.
  - clear IH Hvv v'. generalize 12%nat. intro k.
    induction k as [|k IHk]; [exact Hv|].
    rewrite Nat.iter_succ; cbv beta zeta.
    destruct (y <=? Deferral.loanTermYears p)%Z; nra.
  - clear IH.
    assert (H0 : forall k,
               0 <= Nat.iter k
                      (fun value : Q =>
                         let value := value * (1 + r) in
                         if (y <=? Deferral.loanTermYears p)%Z
                         then value + Deferral.monthlyPayment p else value) v).
    { induction k as [|k IHk]; [exact Hv|].
      rewrite Nat.iter_succ; cbv beta zeta in *.
      destruct (y <=? Deferral.loanTermYears p)%Z; nra. }
    generalize 12%nat. intro k.
    induction k as [|k IHk]; [exact Hvv|].
    specialize (H0 k).
    rewrite !Nat.iter_succ; cbv beta zeta in *.
    match goal with
    | H : 0 <= ?x, H' : ?x <= ?x' |- _ => set (a := x) in *; set (a' := x') in *
    end.
    assert (a * (1 + r) <= a' * (1 + r)) by (apply Qmult_le_compat_r; assumption).
    assert (a' * (1 + r) <= a' * (1 + r')) by nra.
    destruct (y <=? Deferral.loanTermYears p)%Z; lra.
Qed.

(** ** The earlier script *)

Lemma simple_yearLoop_succ (q : Simple.Inputs) (n : nat) (y : Z) (s : Simple.Loop.t) :
  Simple.yearLoop q (S n) y s
  = let isLoanActive := (y <=? Simple.loanTermYears q)%Z in
    let s' := Nat.iter 12 (Simple.monthStep q isLoanActive) s in
    {| Simple.year := y;
       Simple.investmentValue := Simple.Loop.investmentValue s';
       Simple.loanBalance := if isLoanActive then Simple.Loop.loanBalance s' else 0;
       Simple.totalPaid := Simple.Loop.totalPaid s';
       Simple.netPosition := Simple.Loop.investmentValue s' - Simple.Loop.totalPaid s';
       Simple.isLoanActive := isLoanActive |}
    :: Simple.yearLoop q n (y + 1) s'.
Proof. reflexivity. Qed.

Lemma simple_scenarioLoop_succ (q : Simple.Inputs) (r : Q) (n : nat) (y : Z) (v : Q) :
  Simple.scenarioLoop q r (S n) y v
  = Simple.scenarioLoop q r n (y + 1)
      (Nat.iter 12
         (fun value =>
            let value := value * (1 + r) in
            if (y <=? Simple.loanTermYears q)%Z
            then value + Simple.monthlyPayment q else value) v).
Proof. reflexivity. Qed.

Lemma simple_investment_within_year (q : Simple.Inputs) (c : bool) (j : nat)
      (s : Simple.Loop.t) :
  Simple.Loop.investmentValue (Nat.iter j (Simple.monthStep q c) s)
  = Nat.iter j
      (fun value =>
         let value := value * (1 + Simple.investmentRate q / 100 / 12) in
         if c then value + Simple.monthlyPayment q else value)
      (Simple.Loop.investmentValue s).
Proof.
  induction j as [|j IH]; [reflexivity|].
  rewrite !Nat.iter_succ, <- IH.
  unfold Simple.monthStep; cbv zeta. destruct c; reflexivity.
Qed.

Lemma simple_investment_is_scenario (q : Simple.Inputs) (n : nat) (y : Z)
      (s : Simple.Loop.t) :
  map Simple.investmentValue (Simple.yearLoop q n y s)
  = map (fun i =>
           Simple.scenarioLoop q (Simple.investmentRate q / 100 / 12) (S i) y
             (Simple.Loop.investmentValue s))
      (seq 0 n).
Proof.
  revert y s. induction n as [|n IH]; intros y s; [reflexivity|].
  rewrite simple_yearLoop_succ; cbv zeta.
  change (seq 0 (S n)) with (0%nat :: seq 1 n).
  rewrite <- seq_shift, !map_cons, map_map, IH.
  cbn [Simple.investmentValue].
  rewrite simple_investment_within_year.
  apply (f_equal2 cons).
  - rewrite simple_scenarioLoop_succ. reflexivity.
  - apply map_ext. intro i.
    rewrite (simple_scenarioLoop_succ q _ (S i)). reflexivity.
Qed.

Lemma last_item_map {A B : Type} (f : A -> B) (l : list A) :
  last_item (map f l) = option_map f (last_item l).
Proof.
  unfold last_item. rewrite length_map, nth_error_map. reflexivity.
Qed.

Lemma findIndex_map {A B : Type} (g : A -> B) (test : B -> bool) (l : list A) :
  findIndex test (map g l) = findIndex (fun d => test (g d)) l.
Proof.
  unfold findIndex. generalize 0%Z.
  induction l as [|x l IH]; intro i; [reflexivity|].
  cbn [map findIndex_from]. rewrite IH. reflexivity.
Qed.

Lemma findIndex_ext {A : Type} (f g : A -> bool) (l : list A) :
  (forall d, f d = g d) -> findIndex f l = findIndex g l.
Proof.
  intro H. unfold findIndex. generalize 0%Z.
  induction l as [|x l IH]; intro i; [reflexivity|].
  cbn [findIndex_from]. rewrite H, IH. reflexivity.
Qed.

(** ** In exact arithmetic the clamp of the balance never applies *)

Lemma repay_iter_unclamped (base rate : Q) (n : Z) (j : nat) :
  (1 <= n)%Z -> 0 <= base -> 0 <= rate -> (Z.of_nat j < n)%Z ->
  Nat.iter (S j) (fun b => Qmax 0 (b - (annuity base rate n - b * rate))) base
  == Nat.iter j (fun b => Qmax 0 (b - (annuity base rate n - b * rate))) base
     - (annuity base rate n
        - Nat.iter j (fun b => Qmax 0 (b - (annuity base rate n - b * rate))) base
          * rate).
Proof.
  intros Hn Hb Hr Hj.
  pose proof (repay_iter_bounds base rate n Hn Hb Hr j) as [Hb0 Hb1].
  rewrite Nat.iter_succ.
  set (b := Nat.iter j _ base) in *.
  apply Qmax_0_of_nonneg.
  destruct (Qlt_le_dec 0 rate) as [Hr'|Hr'];
    [|rewrite annuity_no_rate by exact Hr'; nra].
  destruct (Qlt_le_dec 0 base) as [Hb'|Hb'];
    [|rewrite annuity_no_base by exact Hb'; nra].
  pose proof (annuity_denominator_pos rate n Hr' Hn) as HD.
  pose proof (repay_iter_closed_form base rate n Hn Hr j Hr' Hb' ltac:(lia)) as HC.
  fold b in HC.
  assert (HM : annuity base rate n * ((1 + rate) ^ n - 1)
               == base * (rate * (1 + rate) ^ n)).
  { rewrite annuity_formula by assumption. field. lra. }
  assert (Hq : (1 + rate) ^ Z.of_nat (S j) <= (1 + rate) ^ n)
    by (apply Qpower_le_compat_l; [lia | lra]).
  rewrite Qpower_succ_nat in Hq.
  set (A := (1 + rate) ^ n) in *.
  set (C := (1 + rate) ^ Z.of_nat j) in *.
  set (M := annuity base rate n) in *.
  assert (Hx : (b - (M - b * rate)) * (A - 1) == base * (A - C * (1 + rate))).
  { transitivity (b * (A - 1) * (1 + rate) - M * (A - 1)); [ring|].
    rewrite HC, HM. ring. }
  assert (0 <= (b - (M - b * rate)) * (A - 1)) by (rewrite Hx; nra).
  nra.
Qed.

(** ** What has been paid, month by month (full script) *)

Lemma full_step_paid (p : Full.Inputs) (s : Full.Loop.t) :
  Full.Loop.totalPaid (Full.monthStep p s)
  = let m := (Full.Loop.totalMonthsElapsed s + 1)%Z in
    let paid :=
      if (m <=? Full.totalLoanMonths p)%Z
      then Full.Loop.totalPaid s + Full.insuranceCost p
      else Full.Loop.totalPaid s in
    if (m <=? Full.deferralMonths p)%Z then
      match Full.deferralType p with
      | complete => paid
      | partial => paid + Full.Loop.loanBalance s * Full.monthlyRate p
      end
    else if (Full.deferralMonths p <? m)%Z && (m <=? Full.totalLoanMonths p)%Z
    then paid + Full.monthlyPayment p
    else paid.
Proof.
  unfold Full.monthStep; cbv zeta.
  destruct (_ <=? Full.deferralMonths p)%Z;
    [destruct (Full.deferralType p) | destruct (_ && _)]; reflexivity.
Qed.

Lemma full_step_cost (p : Full.Inputs) (s : Full.Loop.t) :
  Full.Loop.totalBorrowingCost (Full.monthStep p s)
  = let m := (Full.Loop.totalMonthsElapsed s + 1)%Z in
    let cost :=
      if (m <=? Full.totalLoanMonths p)%Z
      then Full.Loop.totalBorrowingCost s + Full.insuranceCost p
      else Full.Loop.totalBorrowingCost s in
    if (m <=? Full.deferralMonths p)%Z then
      match Full.deferralType p with
      | complete => cost
      | partial => cost + Full.Loop.loanBalance s * Full.monthlyRate p
      end
    else if (Full.deferralMonths p <? m)%Z && (m <=? Full.totalLoanMonths p)%Z
    then cost + Full.Loop.loanBalance s * Full.monthlyRate p
    else cost.
Proof.
  unfold Full.monthStep; cbv zeta.
  destruct (_ <=? Full.deferralMonths p)%Z;
    [destruct (Full.deferralType p) | destruct (_ && _)]; reflexivity.
Qed.

(** During the deferral everything paid is a cost of borrowing: insurance
    and, for an interest-only deferral, the monthly interest. *)
Lemma full_paid_deferred (p : Full.Inputs) (k : nat) :
  FullRanges p ->
  (Z.of_nat k <= Full.deferralMonths p)%Z ->
  let paid :=
    inject_Z (Z.of_nat k) * Full.insuranceCost p
    + match Full.deferralType p with
      | partial => Full.principal p * Full.monthlyRate p * inject_Z (Z.of_nat k)
      | complete => 0
      end in
  Full.Loop.totalPaid (Full.simulate p k) == paid
  /\ Full.Loop.totalBorrowingCost (Full.simulate p k) == paid.
Proof.
  intros R. pose proof (full_months_range p R) as Hd.
  induction k as [|k IH]; intros Hk paid; subst paid.
  - cbn [Full.simulate Nat.iter nat_rect Full.start Full.Loop.totalPaid
         Full.Loop.totalBorrowingCost].
    change (Z.of_nat 0) with 0%Z.
    destruct (Full.deferralType p); split; ring.
  - destruct (IH ltac:(lia)) as [IH1 IH2]. clear IH.
    rewrite full_simulate_succ, full_step_paid, full_step_cost, full_elapsed.
    cbv zeta.
    replace (Z.of_nat k + 1 <=? Full.totalLoanMonths p)%Z with true
      by (symmetry; apply Z.leb_le; lia).
    replace (Z.of_nat k + 1 <=? Full.deferralMonths p)%Z with true
      by (symmetry; apply Z.leb_le; lia).
    rewrite full_balance_deferred by lia.
    rewrite Nat2Z.inj_succ. unfold Z.succ. rewrite inject_Z_plus.
    destruct (Full.deferralType p); rewrite IH1, IH2; split; ring.
Qed.

(** From the first repayment month to the last. *)
Lemma full_paid_repaying (p : Full.Inputs) (j : nat) :
  FullRanges p ->
  (Z.of_nat j <= Full.numberOfPayments p)%Z ->
  let k := (Z.to_nat (Full.deferralMonths p) + j)%nat in
  Full.Loop.totalPaid (Full.simulate p k)
  == inject_Z (Z.of_nat k) * Full.insuranceCost p
     + Full.deferralInterestPaid p
     + inject_Z (Z.of_nat j) * Full.monthlyPayment p
  /\ Full.Loop.totalPaid (Full.simulate p k)
     - Full.Loop.totalBorrowingCost (Full.simulate p k)
     == Full.principalAfterDeferral p - Full.Loop.loanBalance (Full.simulate p k).
Proof.
  intros R. pose proof (full_months_range p R) as Hd.
  pose proof (full_payments_count p R) as Hn.
  induction j as [|j IH]; intros Hj k; subst k.
  - rewrite Nat.add_0_r.
    destruct (full_paid_deferred p (Z.to_nat (Full.deferralMonths p)) R ltac:(lia))
      as [H1 H2].
    rewrite full_balance_at_repayment by lia.
    rewrite H1, H2. unfold Full.deferralInterestPaid, Full.principal.
    rewrite Z2Nat.id by lia. change (Z.of_nat 0) with 0%Z.
    destruct (Full.deferralType p); split; ring.
  - destruct (IH ltac:(lia)) as [IH1 IH2]. clear IH.
    set (d := Z.to_nat (Full.deferralMonths p)) in *.
    assert (Hu := repay_iter_unclamped (Full.principalAfterDeferral p)
                    (Full.monthlyRate p) (Full.numberOfPayments p) j
                    (full_payments_pos p) (full_base_nonneg p R)
                    (full_rate_nonneg p R) ltac:(lia)).
    fold (Full.monthlyPayment p) in Hu.
    rewrite <- !full_balance_repaying in Hu by (assumption || lia).
    fold d in Hu.
    replace (d + S j)%nat with (S (d + j)) in * by lia.
    rewrite Hu.
    rewrite full_simulate_succ, full_step_paid, full_step_cost, full_elapsed.
    cbv zeta.
    replace (Z.of_nat (d + j) + 1 <=? Full.totalLoanMonths p)%Z with true
      by (symmetry; apply Z.leb_le; lia).
    replace (Z.of_nat (d + j) + 1 <=? Full.deferralMonths p)%Z with false
      by (symmetry; apply Z.leb_gt; lia).
    replace (Full.deferralMonths p <? Z.of_nat (d + j) + 1)%Z with true
      by (symmetry; apply Z.ltb_lt; lia).
    cbn [andb].
    rewrite !Nat2Z.inj_succ. unfold Z.succ. rewrite !inject_Z_plus.
    split.
    + rewrite IH1. ring.
    + set (tp := Full.Loop.totalPaid (Full.simulate p (d + j))) in *.
      set (tc := Full.Loop.totalBorrowingCost (Full.simulate p (d + j))) in *.
      set (lb := Full.Loop.loanBalance (Full.simulate p (d + j))) in *.
      lra.
Qed.

(** Once the term is over nothing more is paid. *)
Lemma full_paid_retired (p : Full.Inputs) (k : nat) :
  FullRanges p ->
  let t := Z.to_nat (Full.totalLoanMonths p) in
  Full.Loop.totalPaid (Full.simulate p (t + k)) = Full.Loop.totalPaid (Full.simulate p t)
  /\ Full.Loop.totalBorrowingCost (Full.simulate p (t + k))
     = Full.Loop.totalBorrowingCost (Full.simulate p t).
Proof.
  intros R t. pose proof (full_months_range p R) as Hd. subst t.
  induction k as [|k [IH1 IH2]].
  - rewrite Nat.add_0_r. split; reflexivity.
  - rewrite Nat.add_succ_r, full_simulate_succ, full_step_paid, full_step_cost,
      full_elapsed; cbv zeta.
    replace (_ <=? Full.deferralMonths p)%Z with false
      by (symmetry; apply Z.leb_gt; lia).
    replace (_ <=? Full.totalLoanMonths p)%Z with false
      by (symmetry; apply Z.leb_gt; lia).
    rewrite andb_false_r. split; assumption.
Qed.

Lemma full_paid_at_term (p : Full.Inputs) (k : nat) :
  FullRanges p ->
  (Z.to_nat (Full.totalLoanMonths p) <= k)%nat ->
  Full.Loop.totalPaid (Full.simulate p k)
  == Full.totalPayment p + Full.deferralInterestPaid p + Full.totalInsuranceCost p
  /\ Full.Loop.totalPaid (Full.simulate p k)
     - Full.Loop.totalBorrowingCost (Full.simulate p k)
     == Full.principalAfterDeferral p - Full.Loop.loanBalance (Full.simulate p k).
Proof.
  intros R Hk.
  pose proof (full_months_range p R) as Hd.
  pose proof (full_payments_count p R) as Hn.
  pose proof (full_total_months p R) as Ht.
  destruct (full_paid_repaying p (Z.to_nat (Full.numberOfPayments p)) R ltac:(lia))
    as [H1 H2].
  cbv zeta in H1, H2. rewrite <- Ht in H1, H2.
  destruct (full_paid_retired p (k - Z.to_nat (Full.totalLoanMonths p)) R) as [E1 E2].
  cbv zeta in E1, E2.
  pose proof (full_balance_retired p (k - Z.to_nat (Full.totalLoanMonths p)) R) as E3.
  replace (Z.to_nat (Full.totalLoanMonths p)
           + (k - Z.to_nat (Full.totalLoanMonths p)))%nat with k in E1, E2, E3 by lia.
  rewrite E1, E2, E3. split; [|exact H2].
  rewrite H1. unfold Full.totalPayment, Full.totalInsuranceCost.
  rewrite !Z2Nat.id by lia. ring.
Qed.

(** ** Gains, costs and deflated figures in the full script *)

Lemma full_step_cost_monotone (p : Full.Inputs) (s : Full.Loop.t) :
  FullRanges p ->
  0 <= Full.Loop.loanBalance s ->
  Full.Loop.totalBorrowingCost s <= Full.Loop.totalBorrowingCost (Full.monthStep p s).
Proof.
  intros R Hb.
  pose proof (full_rate_nonneg p R) as Hr.
  pose proof (full_insurance_nonneg p R) as Hins.
  rewrite full_step_cost; cbv zeta.
  destruct (_ <=? Full.totalLoanMonths p)%Z;
    (destruct (_ <=? Full.deferralMonths p)%Z;
       [destruct (Full.deferralType p) | destruct (_ && _)]);
    nra.
Qed.

Lemma full_cost_nonneg_at (p : Full.Inputs) (k : nat) :
  FullRanges p -> 0 <= Full.Loop.totalBorrowingCost (Full.simulate p k).
Proof.
  intro R. induction k as [|k IH]; [apply Qle_refl|].
  rewrite full_simulate_succ.
  pose proof (full_step_cost_monotone p _ R (full_balance_nonneg p k R)). lra.
Qed.

Lemma full_paid_nonneg_at (p : Full.Inputs) (k : nat) :
  FullRanges p -> 0 <= Full.Loop.totalPaid (Full.simulate p k).
Proof.
  intro R. destruct (full_year_monotone p 0 k R) as [H _].
  rewrite Nat.add_0_r in H. exact H.
Qed.

Lemma full_inflation_factor_ge_1 (p : Full.Inputs) (k : nat) :
  FullRanges p -> 1 <= Full.Loop.cumulativeInflationFactor (Full.simulate p k).
Proof.
  intro R. pose proof (full_inflation_nonneg p R).
  induction k as [|k IH]; [apply Qle_refl|].
  rewrite full_simulate_succ, full_step_inflation. nra.
Qed.

Lemma full_inflation_factor_no_inflation (p : Full.Inputs) (k : nat) :
  Full.monthlyInflationRate p == 0 ->
  Full.Loop.cumulativeInflationFactor (Full.simulate p k) == 1.
Proof.
  intro H. induction k as [|k IH]; [reflexivity|].
  rewrite full_simulate_succ, full_step_inflation, IH, H. ring.
Qed.

Lemma Qdiv_le_self (x f : Q) : 0 <= x -> 1 <= f -> x / f <= x.
Proof.
  intros Hx Hf. apply Qle_shift_div_r; [lra | nra].
Qed.

Lemma Qdiv_by_1 (x f : Q) : f == 1 -> x / f == x.
Proof. intros ->. field. Qed.

(** The gains of the [i]-th record (year [i]) are the simulated value
    after [12 * i] months less the principal, also for year 0. *)
Lemma full_interestEarned_at (p : Full.Inputs) (i : nat) (d : Full.YearlyData) :
  nth_error (Full.yearlyData p) i = Some d ->
  Full.interestEarned d
  == Full.Loop.investmentValue (Full.simulate p (12 * i)) - Full.principal p.
Proof.
  rewrite full_yearlyData_spec. destruct i as [|i]; cbn [nth_error].
  - intro E. injection E as <-.
    cbn [Full.yearZero Full.interestEarned].
    change (Full.simulate p (12 * 0)) with (Full.start p).
    cbn [Full.start Full.Loop.investmentValue]. ring.
  - rewrite nth_error_map_seq. destruct (i <? _)%nat; [|discriminate].
    intro E. injection E as <-. reflexivity.
Qed.

Lemma full_interestEarned_monotone (p : Full.Inputs) (i j : nat)
      (d d' : Full.YearlyData) :
  FullRanges p ->
  (i <= j)%nat ->
  nth_error (Full.yearlyData p) i = Some d ->
  nth_error (Full.yearlyData p) j = Some d' ->
  Full.interestEarned d <= Full.interestEarned d'.
Proof.
  intros R Hij Hi Hj.
  rewrite (full_interestEarned_at p i d Hi), (full_interestEarned_at p j d' Hj).
  destruct (full_year_monotone p (12 * i) (12 * j - 12 * i) R) as [_ H].
  replace (12 * j - 12 * i + 12 * i)%nat with (12 * j)%nat in H by lia.
  lra.
Qed.

Lemma full_yearlyData_length (p : Full.Inputs) :
  length (Full.yearlyData p) = S (Z.to_nat (Full.analysisYears p)).
Proof.
  rewrite full_yearlyData_spec. cbn [length]. rewrite length_map, length_seq.
  reflexivity.
Qed.

Lemma deferral_yearlyData_length (p : Deferral.Inputs) :
  length (Deferral.yearlyData p) = Z.to_nat (Deferral.analysisYears p).
Proof.
  rewrite deferral_yearlyData_spec, length_map, length_seq. reflexivity.
Qed.

(** ** What a loan costs *)

Lemma growth_below_linear_bound (rate : Q) (m : nat) :
  0 < rate ->
  (1 + rate) ^ Z.of_nat (S m) - 1
  < inject_Z (Z.of_nat (S m)) * rate * (1 + rate) ^ Z.of_nat (S m).
Proof.
  intro Hr. induction m as [|m IH].
  - change (Z.of_nat 1) with 1%Z. rewrite Qpower_1_r.
    change (inject_Z 1) with 1. nra.
  - assert (Hq : 1 < (1 + rate) ^ Z.of_nat (S m))
      by (apply Qpower_1_lt; [lra | lia]).
    rewrite (Qpower_succ_nat (1 + rate) (S m)).
    rewrite (Nat2Z.inj_succ (S m)). unfold Z.succ. rewrite inject_Z_plus.
    change (inject_Z 1) with 1.
    set (A := (1 + rate) ^ Z.of_nat (S m)) in *.
    set (c := inject_Z (Z.of_nat (S m))) in *.
    assert (Hc : 0 <= c) by (unfold c; change 0 with (inject_Z 0);
                             rewrite <- Zle_Qle; lia).
    assert (H1 : (A - 1) * (1 + rate) < c * rate * A * (1 + rate)) by nra.
    assert (H2 : 0 < rate * A) by nra.
    assert (H3 : rate < rate * A * (1 + rate)) by nra.
    nra.
Qed.

(** Repaying with interest costs strictly more than the amount borrowed. *)
Lemma annuity_total_exceeds_base (base rate : Q) (n : Z) :
  0 < base -> 0 < rate -> (1 <= n)%Z ->
  base < annuity base rate n * inject_Z n.
Proof.
  intros Hb Hr Hn.
  rewrite annuity_formula by assumption.
  pose proof (annuity_denominator_pos rate n Hr Hn) as HD.
  pose proof (growth_below_linear_bound rate (Z.to_nat n - 1) Hr) as HG.
  replace (Z.of_nat (S (Z.to_nat n - 1))) with n in HG by lia.
  set (A := (1 + rate) ^ n) in *.
  assert (E : base * (rate * A) / (A - 1) * inject_Z n
              == base * (inject_Z n * rate * A) / (A - 1)) by (field; lra).
  rewrite E. apply Qlt_shift_div_l; [exact HD|].
  nra.
Qed.

(** ** [Math.max(...)] and [Math.min(...)] over an array *)

Lemma fold_left_Qmax_ge (l : list Q) (acc : Q) :
  acc <= fold_left Qmax l acc
  /\ forall x, In x l -> x <= fold_left Qmax l acc.
Proof.
  revert acc. induction l as [|y l IH]; intro acc; cbn [fold_left].
  - split; [apply Qle_refl | intros x []].
  - destruct (IH (Qmax acc y)) as [H1 H2]. split.
    + eapply Qle_trans; [apply Q.le_max_l | exact H1].
    + intros x [<- | Hx]; [|apply H2, Hx].
      eapply Qle_trans; [apply Q.le_max_r | exact H1].
Qed.

Lemma spread_max_ge (xs : list Q) (M : Q) :
  spread_max xs = Some M -> forall x, In x xs -> x <= M.
Proof.
  destruct xs as [|x0 rest]; [discriminate|].
  cbn [spread_max]. intro E. injection E as <-.
  destruct (fold_left_Qmax_ge rest x0) as [H1 H2].
  intros x [<- | Hx]; [exact H1 | apply H2, Hx].
Qed.

Lemma spread_min_le (xs : list Q) (last : Q) :
  spread_min xs last <= last
  /\ forall x, In x xs -> spread_min xs last <= x.
Proof.
  unfold spread_min. induction xs as [|y xs [IH1 IH2]]; cbn [fold_right].
  - split; [apply Qle_refl | intros x []].
  - split.
    + eapply Qle_trans; [apply Q.le_min_r | exact IH1].
    + intros x [<- | Hx]; [apply Q.le_min_l|].
      eapply Qle_trans; [apply Q.le_min_r | apply IH2, Hx].
Qed.

Lemma deferral_paid_nonneg_at (p : Deferral.Inputs) (k : nat) :
  DeferralRanges p -> 0 <= Deferral.Loop.totalPaid (Deferral.simulate p k).
Proof.
  intro R. destruct (deferral_year_monotone p 0 k R) as [H _].
  rewrite Nat.add_0_r in H.
  pose proof (deferral_downPayment_nonneg p R) as HD.
  change (Deferral.Loop.totalPaid (Deferral.simulate p 0))
    with (Deferral.downPayment p) in H.
  lra.
Qed.

(** A value between the chart's minimum and maximum is drawn inside the
    chart's height. *)
Lemma scaled_inside (height lo hi v : Q) :
  0 <= height -> lo <= v -> v <= hi -> 0 < hi - lo ->
  0 <= height - (v - lo) / (hi - lo) * height <= height.
Proof.
  intros Hh Hlo Hhi Hr.
  assert (H0 : 0 <= (v - lo) / (hi - lo)) by (apply Qdiv_pos; lra).
  assert (H1 : (v - lo) / (hi - lo) <= 1) by (apply Qle_shift_div_r; lra).
  split; nra.
Qed.

(** ** Comparisons that do not depend on how results are rounded *)

Lemma grow_iter_ge (rate x : Q) (k : nat) :
  0 <= rate -> 0 <= x -> x <= Nat.iter k (fun b => b * (1 + rate)) x.
Proof.
  intros Hr Hx. induction k as [|k IH]; [apply Qle_refl|].
  rewrite Nat.iter_succ.
  pose proof (grow_iter_nonneg rate x k Hr Hx). nra.
Qed.

(** A larger base, or fewer payments, never lowers the payment. *)
Lemma annuity_monotone (b0 b rate : Q) (n n' : Z) :
  (1 <= n' <= n)%Z -> b0 <= b -> annuity b0 rate n <= annuity b rate n'.
Proof.
  intros Hn Hb.
  destruct (Qlt_le_dec 0 rate) as [Hr|Hr].
  2: { rewrite !annuity_no_rate by exact Hr. apply Qle_refl. }
  destruct (Qlt_le_dec 0 b0) as [Hb0|Hb0].
  2: { rewrite (annuity_no_base b0) by exact Hb0. apply annuity_nonneg. lia. }
  rewrite !annuity_formula by lra.
  pose proof (annuity_denominator_pos rate n Hr ltac:(lia)) as HA.
  pose proof (annuity_denominator_pos rate n' Hr ltac:(lia)) as HA'.
  assert (HAA : (1 + rate) ^ n' <= (1 + rate) ^ n)
    by (apply Qpower_le_compat_l; [lia | lra]).
  set (A := (1 + rate) ^ n) in *.
  set (A' := (1 + rate) ^ n') in *.
  set (M0 := b0 * (rate * A) / (A - 1)).
  set (M := b * (rate * A') / (A' - 1)).
  assert (E : (M - M0) * ((A - 1) * (A' - 1))
              == rate * ((b - b0) * A' * (A - 1) + b0 * (A - A'))).
  { unfold M, M0. field. split; lra. }
  assert (P1 : 0 < (A - 1) * (A' - 1)) by nra.
  assert (P2 : 0 <= (b - b0) * A' * (A - 1)).
  { assert (0 <= (b - b0) * A') by nra. nra. }
  assert (P3 : 0 <= b0 * (A - A')) by nra.
  assert (P4 : 0 <= (M - M0) * ((A - 1) * (A' - 1))) by (rewrite E; nra).
  destruct (Qlt_le_dec M M0) as [Hlt|Hle]; [|exact Hle].
  exfalso. assert (0 < (M0 - M) * ((A - 1) * (A' - 1))) by nra. lra.
Qed.



(** ** Borrowing cost against payments and against the headline figure *)

Lemma full_balance_below_base (p : Full.Inputs) (j : nat) :
  FullRanges p ->
  Full.Loop.loanBalance (Full.simulate p (Z.to_nat (Full.deferralMonths p) + j))
  <= Full.principalAfterDeferral p.
Proof.
  intro R. pose proof (full_months_range p R) as Hd.
  induction j as [|j IH].
  - rewrite Nat.add_0_r, full_balance_at_repayment by lia. apply Qle_refl.
  - rewrite Nat.add_succ_r.
    pose proof (full_balance_nonincreasing p
                  (Z.to_nat (Full.deferralMonths p) + j) R ltac:(lia)).
    lra.
Qed.

Lemma full_cost_within_paid (p : Full.Inputs) (k : nat) :
  FullRanges p ->
  Full.Loop.totalBorrowingCost (Full.simulate p k)
  <= Full.Loop.totalPaid (Full.simulate p k).
Proof.
  intro R. pose proof (full_months_range p R) as Hd.
  destruct (Z_le_gt_dec (Z.of_nat k) (Full.deferralMonths p)) as [Hk|Hk].
  - destruct (full_paid_deferred p k R Hk) as [H1 H2]. cbv zeta in H1, H2.
    rewrite H1, H2. apply Qle_refl.
  - assert (E : k = (Z.to_nat (Full.deferralMonths p)
                     + (k - Z.to_nat (Full.deferralMonths p)))%nat) by lia.
    pose proof (full_balance_below_base p (k - Z.to_nat (Full.deferralMonths p)) R)
      as Hb.
    rewrite <- E in Hb.
    assert (H : Full.Loop.totalPaid (Full.simulate p k)
                - Full.Loop.totalBorrowingCost (Full.simulate p k)
                == Full.principalAfterDeferral p
                   - Full.Loop.loanBalance (Full.simulate p k)).
    { destruct (le_lt_dec (Z.to_nat (Full.totalLoanMonths p)) k) as [Ht|Ht].
      - apply (full_paid_at_term p k R Ht).
      - pose proof (full_payments_count p R) as Hn.
        destruct (full_paid_repaying p (k - Z.to_nat (Full.deferralMonths p)) R
                    ltac:(lia)) as [_ H].
        cbv zeta in H. rewrite <- E in H. exact H. }
    lra.
Qed.

Lemma full_cost_monotone (p : Full.Inputs) (k j : nat) :
  FullRanges p ->
  Full.Loop.totalBorrowingCost (Full.simulate p k)
  <= Full.Loop.totalBorrowingCost (Full.simulate p (j + k)).
Proof.
  intro R. induction j as [|j IH]; [apply Qle_refl|].
  change (S j + k)%nat with (S (j + k)). rewrite full_simulate_succ.
  pose proof (full_step_cost_monotone p _ R (full_balance_nonneg p (j + k) R)).
  lra.
Qed.

(** With interest, the cost accumulated by the projection never exceeds
    the headline borrowing cost less the interest capitalized during the
    deferral. *)
Lemma full_cost_below_headline (p : Full.Inputs) (k : nat) :
  FullRanges p ->
  0 < Full.monthlyRate p ->
  Full.Loop.totalBorrowingCost (Full.simulate p k)
  + (Full.principalAfterDeferral p - Full.principal p)
  <= Full.totalLoanBorrowingCost p.
Proof.
  intros R Hr.
  set (t := Z.to_nat (Full.totalLoanMonths p)).
  pose proof (full_cost_monotone p k t R) as Hm.
  destruct (full_paid_at_term p (t + k) R ltac:(subst t; lia)) as [H1 H2].
  pose proof (full_balance_final p R Hr) as H0. fold t in H0.
  pose proof (full_balance_retired p k R) as H3. fold t in H3.
  rewrite H3, H0 in H2.
  unfold Full.totalLoanBorrowingCost, Full.totalInterest.
  lra.
Qed.

Lemma full_capitalized_interest_pos (p : Full.Inputs) :
  Full.deferralType p = complete ->
  (1 <= Full.deferralMonths p)%Z ->
  0 < Full.principal p ->
  0 < Full.monthlyRate p ->
  Full.principal p < Full.principalAfterDeferral p.
Proof.
  intros Htype Hd HP Hr.
  unfold Full.principalAfterDeferral, repeat_for. rewrite Htype.
  destruct (Z.to_nat (Full.deferralMonths p)) as [|j] eqn:Ej; [lia|].
  apply grow_iter_increasing; assumption.
Qed.

(** * The projection scripts on arbitrary numbers *)

Lemma Qleb_inject_Z (a b : Z) : Qleb (inject_Z a) (inject_Z b) = (a <=? b)%Z.
Proof.
  unfold Qleb. destruct (Z.leb_spec a b) as [H|H].
  - apply Qle_bool_iff. rewrite <- Zle_Qle. exact H.
  - destruct (Qle_bool (inject_Z a) (inject_Z b)) eqn:E; [|reflexivity].
    apply Qle_bool_iff in E. rewrite <- Zle_Qle in E. lia.
Qed.

Lemma Qleb_ext (x x' y y' : Q) : x == x' -> y == y' -> Qleb x y = Qleb x' y'.
Proof. intros Hx Hy. unfold Qleb. rewrite Hx, Hy. reflexivity. Qed.

Lemma whole_is_integer (x : Q) :
  Fractional.whole x -> x == inject_Z (Qfloor x).
Proof. intro H. symmetry. exact H. Qed.

(** With no deferral and a term of [z] whole years, the months of year
    [m + 1] are repayment months exactly when that year is within the
    term. *)
Lemma fractional_month_flags (p : Fractional.Deferral.Inputs) (z : Z) (m j : nat) :
  Fractional.Deferral.deferralMonths p == 0 ->
  Fractional.Deferral.loanTermYears p == inject_Z z ->
  (j < 12)%nat ->
  let t := (12 * Z.of_nat m + Z.of_nat j + 1)%Z in
  let c := Qleb (inject_Z (Z.of_nat (S m))) (Fractional.Deferral.loanTermYears p) in
  Qleb (inject_Z t) (Fractional.Deferral.deferralMonths p) = false
  /\ Qltb (Fractional.Deferral.deferralMonths p) (inject_Z t) = true
  /\ Qleb (inject_Z t) (Fractional.Deferral.totalLoanMonths p) = c.
Proof.
  intros Hd HL Hj t c.
  assert (Ht : Fractional.Deferral.totalLoanMonths p == inject_Z (z * 12)).
  { unfold Fractional.Deferral.totalLoanMonths, Fractional.Deferral.numberOfPayments.
    rewrite Hd, HL, inject_Z_mult. change (inject_Z 12) with 12. ring. }
  split; [|split].
  - rewrite (Qleb_ext _ (inject_Z t) _ (inject_Z 0));
      [| reflexivity | exact Hd].
    rewrite Qleb_inject_Z. apply Z.leb_gt. lia.
  - unfold Qltb. fold (Qleb (inject_Z t) (Fractional.Deferral.deferralMonths p)).
    rewrite (Qleb_ext _ (inject_Z t) _ (inject_Z 0));
      [| reflexivity | exact Hd].
    rewrite Qleb_inject_Z.
    replace (t <=? 0)%Z with false by (symmetry; apply Z.leb_gt; lia).
    reflexivity.
  - subst c.
    rewrite (Qleb_ext _ (inject_Z t) _ (inject_Z (z * 12)));
      [| reflexivity | exact Ht].
    rewrite (Qleb_ext (inject_Z (Z.of_nat (S m))) (inject_Z (Z.of_nat (S m)))
               _ (inject_Z z)); [| reflexivity | exact HL].
    rewrite !Qleb_inject_Z.
    destruct (Z.leb_spec (Z.of_nat (S m)) z).
    + apply Z.leb_le. lia.
    + apply Z.leb_gt. lia.
Qed.

Section FractionalEngine.

Variable pow : Q -> Q -> Q.

Lemma fractional_payment_without_deferral (p : Fractional.Deferral.Inputs) :
  Fractional.Deferral.deferralMonths p == 0 ->
  Fractional.Deferral.monthlyPayment pow p
  = Fractional.Simple.monthlyPayment pow (Fractional.withoutDeferralFields p).
Proof.
  intro Hd.
  assert (E : Fractional.Deferral.principalAfterDeferral p
              = Fractional.Simple.principal (Fractional.withoutDeferralFields p)).
  { unfold Fractional.Deferral.principalAfterDeferral, Fractional.count_below.
    rewrite (Qceiling_comp _ _ Hd).
    destruct (Fractional.Deferral.deferralType p); reflexivity. }
  unfold Fractional.Deferral.monthlyPayment. rewrite E. reflexivity.
Qed.

Lemma fractional_step_elapsed (p : Fractional.Deferral.Inputs)
      (s : Fractional.Deferral.Loop.t) :
  Fractional.Deferral.Loop.totalMonthsElapsed (Fractional.Deferral.monthStep pow p s)
  = (Fractional.Deferral.Loop.totalMonthsElapsed s + 1)%Z.
Proof.
  unfold Fractional.Deferral.monthStep; cbv zeta.
  destruct (Qleb _ _); [destruct (Fractional.Deferral.deferralType p) | destruct (_ && _)];
    reflexivity.
Qed.

(** One month of the script with deferral, read without the month counter,
    given what its two tests evaluate to. *)
Lemma fractional_step_without_deferral (p : Fractional.Deferral.Inputs)
      (s : Fractional.Deferral.Loop.t) (c : bool) :
  let t := (Fractional.Deferral.Loop.totalMonthsElapsed s + 1)%Z in
  Fractional.Deferral.deferralMonths p == 0 ->
  Qleb (inject_Z t) (Fractional.Deferral.deferralMonths p) = false ->
  Qltb (Fractional.Deferral.deferralMonths p) (inject_Z t) = true ->
  Qleb (inject_Z t) (Fractional.Deferral.totalLoanMonths p) = c ->
  Fractional.withoutElapsedMonths (Fractional.Deferral.monthStep pow p s)
  = Fractional.Simple.monthStep pow (Fractional.withoutDeferralFields p) c
      (Fractional.withoutElapsedMonths s).
Proof.
  intros t Hd H1 H2 H3. subst t.
  unfold Fractional.Deferral.monthStep, Fractional.Simple.monthStep; cbv zeta.
  rewrite H1, H2, H3, (fractional_payment_without_deferral p Hd).
  cbn [andb]. destruct c; reflexivity.
Qed.

Lemma fractional_year_without_deferral (p : Fractional.Deferral.Inputs) (z : Z)
      (m j : nat) (s : Fractional.Deferral.Loop.t) :
  Fractional.Deferral.deferralMonths p == 0 ->
  Fractional.Deferral.loanTermYears p == inject_Z z ->
  Fractional.Deferral.Loop.totalMonthsElapsed s = (12 * Z.of_nat m)%Z ->
  (j <= 12)%nat ->
  Fractional.withoutElapsedMonths (Nat.iter j (Fractional.Deferral.monthStep pow p) s)
  = Nat.iter j
      (Fractional.Simple.monthStep pow (Fractional.withoutDeferralFields p)
         (Qleb (inject_Z (Z.of_nat (S m))) (Fractional.Deferral.loanTermYears p)))
      (Fractional.withoutElapsedMonths s)
  /\ Fractional.Deferral.Loop.totalMonthsElapsed
       (Nat.iter j (Fractional.Deferral.monthStep pow p) s)
     = (12 * Z.of_nat m + Z.of_nat j)%Z.
Proof.
  intros Hd HL Hs. induction j as [|j IH]; intro Hj.
  - split; [reflexivity | cbn [Nat.iter nat_rect]; lia].
  - destruct (IH ltac:(lia)) as [IH1 IH2].
    rewrite !Nat.iter_succ, <- IH1.
    set (X := Nat.iter j (Fractional.Deferral.monthStep pow p) s) in *.
    destruct (fractional_month_flags p z m j Hd HL ltac:(lia)) as (F1 & F2 & F3).
    cbv zeta in F1, F2, F3. rewrite <- IH2 in F1, F2, F3.
    split.
    + apply fractional_step_without_deferral; assumption.
    + rewrite fractional_step_elapsed, IH2. lia.
Qed.

Lemma fractional_simple_yearLoop_succ (q : Fractional.Simple.Inputs) (n : nat)
      (y : Z) (s : Fractional.Simple.Loop.t) :
  Fractional.Simple.yearLoop pow q (S n) y s
  = let isLoanActive := Qleb (inject_Z y) (Fractional.Simple.loanTermYears q) in
    let s' := Nat.iter 12 (Fractional.Simple.monthStep pow q isLoanActive) s in
    {| Fractional.Simple.year := y;
       Fractional.Simple.investmentValue := Fractional.Simple.Loop.investmentValue s';
       Fractional.Simple.loanBalance :=
         if isLoanActive then Fractional.Simple.Loop.loanBalance s' else 0;
       Fractional.Simple.totalPaid := Fractional.Simple.Loop.totalPaid s';
       Fractional.Simple.netPosition :=
         Fractional.Simple.Loop.investmentValue s' - Fractional.Simple.Loop.totalPaid s';
       Fractional.Simple.isLoanActive := isLoanActive |}
    :: Fractional.Simple.yearLoop pow q n (y + 1) s'.
Proof. reflexivity. Qed.

Lemma fractional_deferral_yearLoop_succ (p : Fractional.Deferral.Inputs) (n : nat)
      (y : Z) (s : Fractional.Deferral.Loop.t) :
  Fractional.Deferral.yearLoop pow p (S n) y s
  = let s' := Nat.iter 12 (Fractional.Deferral.monthStep pow p) s in
    Fractional.Deferral.snapshot p y s'
    :: Fractional.Deferral.yearLoop pow p n (y + 1) s'.
Proof. reflexivity. Qed.

Lemma fractional_snapshot_without_flag (p : Fractional.Deferral.Inputs) (y : Z)
      (s : Fractional.Deferral.Loop.t) (c : bool) :
  Qleb (inject_Z (Fractional.Deferral.Loop.totalMonthsElapsed s))
    (Fractional.Deferral.totalLoanMonths p) = c ->
  Fractional.withoutDeferralFlag (Fractional.Deferral.snapshot p y s)
  = let s' := Fractional.withoutElapsedMonths s in
    {| Fractional.Simple.year := y;
       Fractional.Simple.investmentValue := Fractional.Simple.Loop.investmentValue s';
       Fractional.Simple.loanBalance :=
         if c then Fractional.Simple.Loop.loanBalance s' else 0;
       Fractional.Simple.totalPaid := Fractional.Simple.Loop.totalPaid s';
       Fractional.Simple.netPosition :=
         Fractional.Simple.Loop.investmentValue s' - Fractional.Simple.Loop.totalPaid s';
       Fractional.Simple.isLoanActive := c |}.
Proof. intros <-. reflexivity. Qed.

Lemma fractional_yearLoop_without_deferral (p : Fractional.Deferral.Inputs) (z : Z)
      (n m : nat) (s : Fractional.Deferral.Loop.t) :
  Fractional.Deferral.deferralMonths p == 0 ->
  Fractional.Deferral.loanTermYears p == inject_Z z ->
  Fractional.Deferral.Loop.totalMonthsElapsed s = (12 * Z.of_nat m)%Z ->
  map Fractional.withoutDeferralFlag
    (Fractional.Deferral.yearLoop pow p n (Z.of_nat (S m)) s)
  = Fractional.Simple.yearLoop pow (Fractional.withoutDeferralFields p) n
      (Z.of_nat (S m)) (Fractional.withoutElapsedMonths s).
Proof.
  intros Hd HL. revert m s. induction n as [|n IH]; intros m s Hs; [reflexivity|].
  rewrite fractional_deferral_yearLoop_succ, fractional_simple_yearLoop_succ;
    cbv zeta.
  destruct (fractional_year_without_deferral p z m 12 s Hd HL Hs (le_n 12))
    as [E1 E2].
  change (Fractional.Simple.loanTermYears (Fractional.withoutDeferralFields p))
    with (Fractional.Deferral.loanTermYears p).
  rewrite <- E1, map_cons.
  rewrite (fractional_snapshot_without_flag p _ _
             (Qleb (inject_Z (Z.of_nat (S m))) (Fractional.Deferral.loanTermYears p)));
    cbv zeta.
  - apply (f_equal2 cons); [reflexivity|].
    replace (Z.of_nat (S m) + 1)%Z with (Z.of_nat (S (S m))) by lia.
    apply IH. rewrite E2. lia.
  - rewrite E2.
    destruct (fractional_month_flags p z m 11 Hd HL ltac:(lia)) as (_ & _ & F3).
    cbv zeta in F3.
    replace (12 * Z.of_nat m + Z.of_nat 12)%Z
      with (12 * Z.of_nat m + Z.of_nat 11 + 1)%Z by lia.
    exact F3.
Qed.

Lemma fractional_yearlyData_without_deferral (p : Fractional.Deferral.Inputs) :
  Fractional.Deferral.deferralMonths p == 0 ->
  Fractional.whole (Fractional.Deferral.loanTermYears p) ->
  map Fractional.withoutDeferralFlag (Fractional.Deferral.yearlyData pow p)
  = Fractional.Simple.yearlyData pow (Fractional.withoutDeferralFields p).
Proof.
  intros Hd HL. apply whole_is_integer in HL.
  unfold Fractional.Deferral.yearlyData, Fractional.Simple.yearlyData.
  apply (fractional_yearLoop_without_deferral p _ _ 0 (Fractional.Deferral.start p)
           Hd HL).
  reflexivity.
Qed.

(** The expected scenario of the script with deferral and the investment
    value of the earlier script are driven by the same year test. *)
Lemma fractional_scenario_year (p : Fractional.Deferral.Inputs) (y : Z) (j : nat)
      (v : Fractional.Deferral.Values.t) (s : Fractional.Simple.Loop.t) :
  Fractional.Deferral.deferralMonths p == 0 ->
  Fractional.Deferral.Values.expectedValue v = Fractional.Simple.Loop.investmentValue s ->
  Fractional.Deferral.Values.expectedValue
    (Nat.iter j (Fractional.Deferral.scenarioMonthStep pow p y) v)
  = Fractional.Simple.Loop.investmentValue
      (Nat.iter j
         (Fractional.Simple.monthStep pow (Fractional.withoutDeferralFields p)
            (Qleb (inject_Z y) (Fractional.Deferral.loanTermYears p))) s).
Proof.
  intros Hd Hv. induction j as [|j IH]; [exact Hv|].
  rewrite !Nat.iter_succ.
  set (V := Nat.iter j (Fractional.Deferral.scenarioMonthStep pow p y) v) in *.
  set (S' := Nat.iter j _ s) in *.
  unfold Fractional.Deferral.scenarioMonthStep, Fractional.Simple.monthStep;
    cbv zeta.
  rewrite (fractional_payment_without_deferral p Hd).
  destruct (Qleb (inject_Z y) (Fractional.Deferral.loanTermYears p));
    cbn [Fractional.Deferral.Values.expectedValue
         Fractional.Simple.Loop.investmentValue];
    rewrite IH; reflexivity.
Qed.

Lemma fractional_scenarioYearLoop_succ (p : Fractional.Deferral.Inputs) (n : nat)
      (y : Z) (v : Fractional.Deferral.Values.t) :
  Fractional.Deferral.scenarioYearLoop pow p (S n) y v
  = let v' := Nat.iter 12 (Fractional.Deferral.scenarioMonthStep pow p y) v in
    {| Fractional.Deferral.Scenario.year := y;
       Fractional.Deferral.Scenario.worst := Fractional.Deferral.Values.worstValue v';
       Fractional.Deferral.Scenario.expected :=
         Fractional.Deferral.Values.expectedValue v';
       Fractional.Deferral.Scenario.best := Fractional.Deferral.Values.bestValue v' |}
    :: Fractional.Deferral.scenarioYearLoop pow p n (y + 1) v'.
Proof. reflexivity. Qed.

Lemma fractional_scenario_is_simple (p : Fractional.Deferral.Inputs) (n : nat)
      (y : Z) (v : Fractional.Deferral.Values.t) (s : Fractional.Simple.Loop.t) :
  Fractional.Deferral.deferralMonths p == 0 ->
  Fractional.Deferral.Values.expectedValue v = Fractional.Simple.Loop.investmentValue s ->
  map Fractional.Deferral.Scenario.expected
    (Fractional.Deferral.scenarioYearLoop pow p n y v)
  = map Fractional.Simple.investmentValue
      (Fractional.Simple.yearLoop pow (Fractional.withoutDeferralFields p) n y s).
Proof.
  intro Hd. revert y v s. induction n as [|n IH]; intros y v s Hv; [reflexivity|].
  rewrite fractional_scenarioYearLoop_succ, fractional_simple_yearLoop_succ;
    cbv zeta.
  change (Fractional.Simple.loanTermYears (Fractional.withoutDeferralFields p))
    with (Fractional.Deferral.loanTermYears p).
  pose proof (fractional_scenario_year p y 12 v s Hd Hv) as E.
  rewrite !map_cons.
  cbn [Fractional.Deferral.Scenario.expected Fractional.Simple.investmentValue].
  apply (f_equal2 cons); [exact E|].
  apply IH. exact E.
Qed.

End FractionalEngine.

(** * The stated properties *)

(** ** Monthly payment at a zero rate *)

(** C1 (as stated, refuted): at a zero interest rate and a positive
    principal the monthly payment is not [principal / numberOfPayments];
    shown on the 160000 loan over 360 months in each of the three scripts. *)
Lemma C1_zero_rate_payment_not_principal_over_n :
  ~ (Basic.monthlyPayment interestFreeLoan
       == Basic.principal interestFreeLoan
          / inject_Z (Basic.numberOfPayments interestFreeLoan))
  /\ ~ (let p := Deferral.clamp (interestFreeDeferral 0) in
        Deferral.monthlyPayment p
          == Deferral.principal p / inject_Z (Deferral.numberOfPayments p))
  /\ ~ (let p := Full.clamp (interestFreeFull 0 30) in
        Full.monthlyPayment p
          == Full.principal p / inject_Z (Full.numberOfPayments p)).
Proof.
  repeat split; vm_compute; discriminate.
Qed.

(** C1 (amended): whenever the monthly rate is zero the monthly payment is
    the sentinel [0], whatever the principal: the guard [monthlyRate > 0]
    of the payment expression sends the zero-rate case to its [: 0] branch. *)
Theorem C1_zero_rate_payment_is_zero :
  (forall i : Basic.Inputs,
      Basic.monthlyRate i == 0 -> Basic.monthlyPayment i == 0)
  /\ (forall raw : Deferral.Inputs,
         let p := Deferral.clamp raw in
         Deferral.monthlyRate p == 0 -> Deferral.monthlyPayment p == 0)
  /\ (forall raw : Full.Inputs,
         let p := Full.clamp raw in
         Full.monthlyRate p == 0 -> Full.monthlyPayment p == 0).
Proof.
  repeat split; intros; cbv zeta in *.
  - unfold Basic.monthlyPayment. rewrite annuity_no_rate; [reflexivity | lra].
  - unfold Deferral.monthlyPayment. rewrite annuity_no_rate; [reflexivity | lra].
  - unfold Full.monthlyPayment. rewrite annuity_no_rate; [reflexivity | lra].
Qed.

Lemma C1_zero_rate_payment_is_zero_witness :
  Basic.monthlyPayment interestFreeLoan == 0
  /\ Deferral.monthlyPayment (Deferral.clamp (interestFreeDeferral 0)) == 0
  /\ Full.monthlyPayment (Full.clamp (interestFreeFull 0 30)) == 0.
Proof.
  destruct C1_zero_rate_payment_is_zero as [HB [HD HF]].
  split; [|split].
  - apply HB. vm_compute. reflexivity.
  - apply (HD (interestFreeDeferral 0)). vm_compute. reflexivity.
  - apply (HF (interestFreeFull 0 30)). vm_compute. reflexivity.
Defined.

(** ** The worked example *)

(** C8: for 200000 borrowed, 40000 down, 4.5 % a year over 30 years and no
    deferral, the principal is 160000, the monthly rate 0.00375, there are
    360 payments, and the monthly payment lies within half a cent of
    810.70; in each of the three scripts. *)
Theorem C8_worked_example :
  (Basic.principal exampleLoan == 160000
   /\ Basic.monthlyRate exampleLoan == 0.00375
   /\ Basic.numberOfPayments exampleLoan = 360%Z
   /\ 810.695 <= Basic.monthlyPayment exampleLoan < 810.705)
  /\ (let p := Deferral.clamp exampleDeferral in
      Deferral.principal p == 160000
      /\ Deferral.monthlyRate p == 0.00375
      /\ Deferral.numberOfPayments p = 360%Z
      /\ 810.695 <= Deferral.monthlyPayment p < 810.705)
  /\ (let p := Full.clamp exampleFull in
      Full.principal p == 160000
      /\ Full.monthlyRate p == 0.00375
      /\ Full.numberOfPayments p = 360%Z
      /\ 810.695 <= Full.monthlyPayment p < 810.705).
Proof.
  split; [|split]; cbv zeta.
  - assert (HP : Basic.principal exampleLoan == 160000) by reflexivity.
    assert (HR : Basic.monthlyRate exampleLoan == 0.00375) by reflexivity.
    split; [exact HP|]. split; [exact HR|]. split; [reflexivity|].
    apply payment_of_worked_example; assumption.
  - set (p := Deferral.clamp exampleDeferral).
    assert (HP : Deferral.principal p == 160000) by reflexivity.
    assert (HB : Deferral.principalAfterDeferral p == 160000) by reflexivity.
    assert (HR : Deferral.monthlyRate p == 0.00375) by reflexivity.
    split; [exact HP|]. split; [exact HR|]. split; [reflexivity|].
    apply payment_of_worked_example; assumption.
  - set (p := Full.clamp exampleFull).
    assert (HP : Full.principal p == 160000) by reflexivity.
    assert (HB : Full.principalAfterDeferral p == 160000) by reflexivity.
    assert (HR : Full.monthlyRate p == 0.00375) by reflexivity.
    split; [exact HP|]. split; [exact HR|]. split; [reflexivity|].
    apply payment_of_worked_example; assumption.
Qed.

(** ** Analysis horizon *)


(** ** The loan balance month by month *)




(** ** Capitalizing deferral *)

(** C5 (as stated, refuted): on the interest-free 160000 loan a 12-month
    capitalizing deferral leaves the amortization base at 160000 and the
    monthly payment at 0, exactly as without deferral. *)
Lemma C5_zero_rate_deferral_changes_nothing :
  let p := Deferral.clamp (interestFreeDeferral 12) in
  let p0 := Deferral.clamp (deferralWithout (interestFreeDeferral 12)) in
  0 < Deferral.principal p
  /\ (1 <= Deferral.deferralMonths p)%Z
  /\ Deferral.deferralType p = complete
  /\ ~ (Deferral.principalAfterDeferral p0 < Deferral.principalAfterDeferral p)
  /\ ~ (Deferral.monthlyPayment p0 < Deferral.monthlyPayment p).
Proof.
  vm_compute. repeat split; discriminate.
Qed.

(** C5 (amended): for every clamped parameter set with a capitalizing
    (complete) deferral, the amortization base and the monthly payment are
    never smaller than for the same parameters with zero deferral; they are
    strictly larger when there is at least one deferral month, the
    principal is at least one currency unit and the interest rate at least
    0.1 % a year (one step of the rate field); and at an interest rate of 0
    the deferral changes neither: the base is the same and both payments
    are 0. In both scripts. *)
Theorem C5_capitalizing_deferral_raises_base_and_payment :
  (forall raw : Deferral.Inputs,
      let p := Deferral.clamp raw in
      let p0 := Deferral.clamp (deferralWithout raw) in
      Deferral.deferralType p = complete ->
      (Deferral.principalAfterDeferral p0 <= Deferral.principalAfterDeferral p
       /\ Deferral.monthlyPayment p0 <= Deferral.monthlyPayment p)
      /\ ((1 <= Deferral.deferralMonths p)%Z ->
          1 <= Deferral.principal p ->
          0.1 <= Deferral.interestRate p ->
          Deferral.principalAfterDeferral p0 < Deferral.principalAfterDeferral p
          /\ Deferral.monthlyPayment p0 < Deferral.monthlyPayment p)
      /\ (Deferral.interestRate p == 0 ->
          Deferral.principalAfterDeferral p == Deferral.principalAfterDeferral p0
          /\ Deferral.monthlyPayment p == 0
          /\ Deferral.monthlyPayment p0 == 0))
  /\ (forall raw : Full.Inputs,
         let p := Full.clamp raw in
         let p0 := Full.clamp (fullWithout raw) in
         Full.deferralType p = complete ->
         (Full.principalAfterDeferral p0 <= Full.principalAfterDeferral p
          /\ Full.monthlyPayment p0 <= Full.monthlyPayment p)
         /\ ((1 <= Full.deferralMonths p)%Z ->
             1 <= Full.principal p ->
             0.1 <= Full.interestRate p ->
             Full.principalAfterDeferral p0 < Full.principalAfterDeferral p
             /\ Full.monthlyPayment p0 < Full.monthlyPayment p)
         /\ (Full.interestRate p == 0 ->
             Full.principalAfterDeferral p == Full.principalAfterDeferral p0
             /\ Full.monthlyPayment p == 0
             /\ Full.monthlyPayment p0 == 0)).
Proof.
  split; intros raw p p0 Htype.
  - pose proof (deferral_clamp_ranges raw) as R. fold p in R.
    pose proof (deferral_principal_nonneg p R) as HP0.
    pose proof (deferral_rate_nonneg p R) as Hr0.
    pose proof (deferral_payments_pos p R) as Hn.
    assert (E0 : Deferral.principalAfterDeferral p0 = Deferral.principal p).
    { unfold Deferral.principalAfterDeferral.
      destruct (Deferral.deferralType p0); reflexivity. }
    assert (EP : Deferral.monthlyPayment p0
                 = annuity (Deferral.principal p) (Deferral.monthlyRate p)
                     (Deferral.numberOfPayments p)).
    { unfold Deferral.monthlyPayment. rewrite E0. reflexivity. }
    assert (EB : Deferral.principalAfterDeferral p
                 = Nat.iter (Z.to_nat (Deferral.deferralMonths p))
                     (fun b => b * (1 + Deferral.monthlyRate p))
                     (Deferral.principal p)).
    { unfold Deferral.principalAfterDeferral, repeat_for. rewrite Htype.
      reflexivity. }
    split; [|split].
    + assert (Hbase : Deferral.principal p <= Deferral.principalAfterDeferral p)
        by (rewrite EB; apply grow_iter_ge; assumption).
      split; [rewrite E0; exact Hbase|].
      rewrite EP. unfold Deferral.monthlyPayment.
      apply annuity_monotone; [lia | exact Hbase].
    + intros Hd HP Hrate.
      assert (Hr : 0 < Deferral.monthlyRate p)
        by (apply monthly_rate_pos; lra).
      assert (Hbase : Deferral.principal p < Deferral.principalAfterDeferral p).
      { rewrite EB.
        destruct (Z.to_nat (Deferral.deferralMonths p)) as [|k] eqn:Ek; [lia|].
        apply grow_iter_increasing; [assumption | lra]. }
      split; [rewrite E0; exact Hbase|].
      rewrite EP. unfold Deferral.monthlyPayment.
      apply annuity_increasing; try assumption; [lia | lra].
    + intro Hrate.
      assert (Hr : Deferral.monthlyRate p == 0)
        by (apply monthly_rate_zero, Hrate).
      split; [|split].
      * rewrite E0, EB. apply grow_iter_no_rate, Hr.
      * unfold Deferral.monthlyPayment. rewrite annuity_no_rate; [reflexivity|].
        rewrite Hr. apply Qle_refl.
      * rewrite EP. rewrite annuity_no_rate; [reflexivity|].
        rewrite Hr. apply Qle_refl.
  - pose proof (full_clamp_ranges raw) as R. fold p in R.
    pose proof (full_principal_nonneg p R) as HP0.
    pose proof (full_rate_nonneg p R) as Hr0.
    pose proof (full_payments_pos p) as Hn.
    pose proof (full_months_range p R) as Hm.
    assert (Ed : Full.deferralMonths p0 = 0%Z)
      by (subst p0; cbn [Full.clamp Full.deferralMonths fullWithout]; lia).
    assert (E0 : Full.principalAfterDeferral p0 = Full.principal p).
    { unfold Full.principalAfterDeferral. rewrite Ed.
      destruct (Full.deferralType p0); reflexivity. }
    assert (En : (1 <= Full.numberOfPayments p <= Full.numberOfPayments p0)%Z).
    { split; [assumption|]. unfold Full.numberOfPayments.
      change (Full.totalLoanMonths p0) with (Full.totalLoanMonths p).
      rewrite Ed. lia. }
    assert (EP : Full.monthlyPayment p0
                 = annuity (Full.principal p) (Full.monthlyRate p)
                     (Full.numberOfPayments p0)).
    { unfold Full.monthlyPayment. rewrite E0. reflexivity. }
    assert (EB : Full.principalAfterDeferral p
                 = Nat.iter (Z.to_nat (Full.deferralMonths p))
                     (fun b => b * (1 + Full.monthlyRate p))
                     (Full.principal p)).
    { unfold Full.principalAfterDeferral, repeat_for. rewrite Htype.
      reflexivity. }
    split; [|split].
    + assert (Hbase : Full.principal p <= Full.principalAfterDeferral p)
        by (rewrite EB; apply grow_iter_ge; assumption).
      split; [rewrite E0; exact Hbase|].
      rewrite EP. unfold Full.monthlyPayment.
      apply annuity_monotone; [exact En | exact Hbase].
    + intros Hd HP Hrate.
      assert (Hr : 0 < Full.monthlyRate p)
        by (apply monthly_rate_pos; lra).
      assert (Hbase : Full.principal p < Full.principalAfterDeferral p).
      { rewrite EB.
        destruct (Z.to_nat (Full.deferralMonths p)) as [|k] eqn:Ek; [lia|].
        apply grow_iter_increasing; [assumption | lra]. }
      split; [rewrite E0; exact Hbase|].
      rewrite EP. unfold Full.monthlyPayment.
      apply annuity_increasing; try assumption. lra.
    + intro Hrate.
      assert (Hr : Full.monthlyRate p == 0)
        by (apply monthly_rate_zero, Hrate).
      split; [|split].
      * rewrite E0, EB. apply grow_iter_no_rate, Hr.
      * unfold Full.monthlyPayment. rewrite annuity_no_rate; [reflexivity|].
        rewrite Hr. apply Qle_refl.
      * rewrite EP. rewrite annuity_no_rate; [reflexivity|].
        rewrite Hr. apply Qle_refl.
Qed.

Lemma C5_capitalizing_deferral_raises_base_and_payment_witness :
  (let p := Deferral.clamp Deferral.DEFAULTS in
   let p0 := Deferral.clamp (deferralWithout Deferral.DEFAULTS) in
   Deferral.principalAfterDeferral p0 < Deferral.principalAfterDeferral p
   /\ Deferral.monthlyPayment p0 < Deferral.monthlyPayment p)
  /\ (let p := Full.clamp Full.DEFAULTS in
      let p0 := Full.clamp (fullWithout Full.DEFAULTS) in
      Full.principalAfterDeferral p0 < Full.principalAfterDeferral p
      /\ Full.monthlyPayment p0 < Full.monthlyPayment p)
  /\ (let p := Full.clamp (interestFreeFull 12 30) in
      let p0 := Full.clamp (fullWithout (interestFreeFull 12 30)) in
      Full.principalAfterDeferral p == Full.principalAfterDeferral p0
      /\ Full.monthlyPayment p == 0).
Proof.
  destruct C5_capitalizing_deferral_raises_base_and_payment as [HD HF].
  split; [|split].
  - destruct (HD Deferral.DEFAULTS eq_refl) as (_ & Hstrict & _).
    apply Hstrict; vm_compute; discriminate.
  - destruct (HF Full.DEFAULTS eq_refl) as (_ & Hstrict & _).
    apply Hstrict; vm_compute; discriminate.
  - destruct (HF (interestFreeFull 12 30) eq_refl) as (_ & _ & Hzero).
    destruct Hzero as (H1 & H2 & _); [reflexivity|].
    split; assumption.
Defined.

(** ** Nothing borrowed *)

(** C6: whenever the principal is 0 (the down payment equals the loan
    amount), the monthly payment is 0 and every yearly record carries a loan
    balance of 0; the functions are total, so there is nothing to raise.
    Both projection scripts. *)
Theorem C6_no_principal_no_payment_no_balance :
  (forall p : Deferral.Inputs,
      Deferral.principal p == 0 ->
      Deferral.monthlyPayment p == 0
      /\ Forall (fun d => Deferral.loanBalance d == 0) (Deferral.yearlyData p))
  /\ (forall p : Full.Inputs,
         Full.principal p == 0 ->
         Full.monthlyPayment p == 0
         /\ Forall (fun d => Full.loanBalance d == 0) (Full.yearlyData p)).
Proof.
  split; intros p HP; split.
  - rewrite deferral_no_principal_payment by exact HP. reflexivity.
  - rewrite deferral_yearlyData_spec. apply Forall_forall.
    intros d Hd. apply in_map_iff in Hd. destruct Hd as (i & <- & _).
    unfold Deferral.snapshot; cbv zeta; cbn [Deferral.loanBalance].
    destruct (_ <=? _)%Z; [apply deferral_no_principal_balance, HP | reflexivity].
  - rewrite full_no_principal_payment by exact HP. reflexivity.
  - rewrite full_yearlyData_spec. apply Forall_cons; [exact HP|].
    apply Forall_forall.
    intros d Hd. apply in_map_iff in Hd. destruct Hd as (i & <- & _).
    unfold Full.snapshot; cbv zeta; cbn [Full.loanBalance].
    destruct (_ <=? _)%Z; [apply full_no_principal_balance, HP | reflexivity].
Qed.

Lemma C6_no_principal_no_payment_no_balance_witness :
  (let p := Deferral.clamp paidInFullDeferral in
   Deferral.monthlyPayment p == 0
   /\ Forall (fun d => Deferral.loanBalance d == 0) (Deferral.yearlyData p))
  /\ (let p := Full.clamp paidInFullFull in
      Full.monthlyPayment p == 0
      /\ Forall (fun d => Full.loanBalance d == 0) (Full.yearlyData p)).
Proof.
  destruct C6_no_principal_no_payment_no_balance as [HD HF].
  split.
  - apply (HD (Deferral.clamp paidInFullDeferral)). reflexivity.
  - apply (HF (Full.clamp paidInFullFull)). reflexivity.
Defined.

(** ** Monotone yearly figures *)

(** C7: for every clamped parameter set, along the yearly sequence
    [totalPaid] never decreases and (the clamped investment rate being
    non-negative) neither does [investmentValue]; both projection scripts,
    the year-0 record of the full script included. *)
Theorem C7_totalPaid_and_investmentValue_nondecreasing :
  (forall raw : Deferral.Inputs,
      let data := Deferral.yearlyData (Deferral.clamp raw) in
      Sorted (fun d d' => Deferral.totalPaid d <= Deferral.totalPaid d') data
      /\ Sorted (fun d d' => Deferral.investmentValue d <= Deferral.investmentValue d')
           data)
  /\ (forall raw : Full.Inputs,
         let data := Full.yearlyData (Full.clamp raw) in
         Sorted (fun d d' => Full.totalPaid d <= Full.totalPaid d') data
         /\ Sorted (fun d d' => Full.investmentValue d <= Full.investmentValue d') data).
Proof.
  split; intros raw data; subst data.
  - pose proof (deferral_clamp_ranges raw) as R.
    rewrite deferral_yearlyData_spec.
    split; apply Sorted_map_seq; intro i;
      cbn [Deferral.snapshot Deferral.totalPaid Deferral.investmentValue];
      replace (12 * S (S i))%nat with (12 + 12 * S i)%nat by lia;
      apply (deferral_year_monotone _ (12 * S i) 12 R).
  - pose proof (full_clamp_ranges raw) as R.
    rewrite full_yearlyData_spec.
    split; (constructor;
      [ apply Sorted_map_seq; intro i;
        cbn [Full.snapshot Full.totalPaid Full.investmentValue];
        replace (12 * S (S i))%nat with (12 + 12 * S i)%nat by lia;
        apply (full_year_monotone _ (12 * S i) 12 R)
      | destruct (Z.to_nat _); cbn [seq map]; constructor;
        cbn [Full.snapshot Full.yearZero Full.totalPaid Full.investmentValue];
        apply (full_year_monotone _ 0 12 R) ]).
Qed.

(** ** Break-even *)

(** C2: in both projection scripts, for every parameter set, the
    break-even year is either the year of a record that satisfies the
    script's profitability test, no record with a smaller year satisfying
    it, or the absent value [null] ([None]), and then no record of the
    sequence satisfies the test. *)
Theorem C2_breakEvenYear_first_profitable_year_or_null :
  (forall p : Deferral.Inputs,
      match Deferral.breakEvenYear p with
      | Some y =>
          exists d, In d (Deferral.yearlyData p)
                    /\ Deferral.year d = y
                    /\ Deferral.profitable p d = true
                    /\ forall d', In d' (Deferral.yearlyData p) ->
                                  Deferral.profitable p d' = true ->
                                  (y <= Deferral.year d')%Z
      | None =>
          forall d, In d (Deferral.yearlyData p) -> Deferral.profitable p d = false
      end)
  /\ (forall p : Full.Inputs,
         match Full.breakEvenYear p with
         | Some y =>
             exists d, In d (Full.yearlyData p)
                       /\ Full.year d = y
                       /\ Full.profitable p d = true
                       /\ forall d', In d' (Full.yearlyData p) ->
                                     Full.profitable p d' = true ->
                                     (y <= Full.year d')%Z
         | None =>
             forall d, In d (Full.yearlyData p) -> Full.profitable p d = false
         end).
Proof.
  split; intro p.
  - unfold Deferral.breakEvenYear.
    destruct (first_match (Deferral.profitable p) (Deferral.yearlyData p))
      as [(_ & Hi & Hall) | (k & d & Hk & Ht & _ & Hi & Hmin)]; rewrite Hi.
    + exact Hall.
    + unfold or_null.
      replace (Z.of_nat k + 1 =? 0)%Z with false by (symmetry; apply Z.eqb_neq; lia).
      exists d. repeat split.
      * eapply nth_error_In, Hk.
      * rewrite (deferral_year_of_record p k d Hk). lia.
      * exact Ht.
      * intros d' Hd' Ht'.
        apply In_nth_error in Hd'. destruct Hd' as [j Hj].
        rewrite (deferral_year_of_record p j d' Hj).
        destruct (le_lt_dec k j) as [L|L]; [lia|].
        rewrite (Hmin j d' L Hj) in Ht'. discriminate.
  - unfold Full.breakEvenYear; cbv zeta.
    destruct (first_match (Full.profitable p) (Full.yearlyData p))
      as [(Hf & _ & Hall) | (k & d & Hk & Ht & Hf & _ & Hmin)]; rewrite Hf.
    + exact Hall.
    + exists d. repeat split.
      * eapply nth_error_In, Hk.
      * exact Ht.
      * intros d' Hd' Ht'.
        apply In_nth_error in Hd'. destruct Hd' as [j Hj].
        rewrite (full_year_of_record p j d' Hj), (full_year_of_record p k d Hk).
        destruct (le_lt_dec k j) as [L|L]; [lia|].
        rewrite (Hmin j d' L Hj) in Ht'. discriminate.
Qed.

(** C10: in the full script the scan starts at the year-0 record, whose
    [interestEarned] is 0.  So whenever the total borrowing cost is not
    positive the break-even year is the number 0, which a truthiness test
    cannot tell from [null]; and an interest rate of 0 with an insurance
    cost of 0 makes the total borrowing cost non-positive (it is minus the
    principal). *)
Theorem C10_breakEvenYear_zero_is_falsy :
  forall raw : Full.Inputs,
    let p := Full.clamp raw in
    (Full.totalLoanBorrowingCost p <= 0 ->
     Full.breakEvenYear p = Some 0%Z
     /\ Full.breakEvenYear p <> None
     /\ truthy (Full.breakEvenYear p) = truthy None)
    /\ (Full.interestRate p == 0 -> Full.insuranceCost p == 0 ->
        Full.totalLoanBorrowingCost p <= 0).
Proof.
  intros raw p. split.
  - intro Hc.
    assert (E : Full.breakEvenYear p = Some 0%Z).
    { unfold Full.breakEvenYear, Full.yearlyData; cbv zeta. cbn [find].
      replace (Full.profitable p (Full.yearZero p)) with true; [reflexivity|].
      symmetry. apply Qleb_le. exact Hc. }
    rewrite E. repeat split. discriminate.
  - intros Hr Hi.
    rewrite full_no_rate_borrowing_cost;
      [| apply monthly_rate_zero; exact Hr | exact Hi].
    pose proof (full_principal_nonneg p (full_clamp_ranges raw)). lra.
Qed.

Lemma C10_breakEvenYear_zero_is_falsy_witness :
  let p := Full.clamp (interestFreeFull 0 0) in
  Full.breakEvenYear p = Some 0%Z
  /\ Full.breakEvenYear p <> None
  /\ truthy (Full.breakEvenYear p) = truthy None.
Proof.
  intro p.
  destruct (C10_breakEvenYear_zero_is_falsy (interestFreeFull 0 0)) as [Hzero Hcost].
  apply Hzero, Hcost; reflexivity.
Defined.

(** ** Scenarios *)

(** C9: in the full script, for every parameter set, the scenario value at
    the expected rate is the final [investmentValue] of the yearly
    projection: the two loops start from the principal and perform the same
    [12 * analysisYears] multiplications by
    [1 + investmentRate / 100 / 12], so the results are identical and not
    merely equal as numbers. *)
Theorem C9_expected_scenario_is_final_investmentValue :
  forall p : Full.Inputs,
    Full.scenarioCalculation p (Full.investmentRate p) = Full.finalInvestmentValue p.
Proof.
  intro p.
  unfold Full.scenarioCalculation, Full.finalInvestmentValue, repeat_for; cbv zeta.
  rewrite iter_years_months, full_yearlyData_spec.
  destruct (Z.to_nat (Full.analysisYears p)) as [|n]; [reflexivity|].
  cbn [seq map]. rewrite last_item_cons.
  change (?x :: map ?f (seq 1 n)) with (map f (seq 0 (S n))).
  rewrite last_item_map_seq.
  cbn [Full.snapshot Full.investmentValue].
  rewrite full_investment_at. reflexivity.
Qed.

(** * Further properties of the scripts *)

(** ** Clamping *)

(** X1: after the reactive clamps every input lies in the range its
    statement names: the down payment between 0 and the clamped loan
    amount, the analysis horizon between the clamped loan term and 60
    years, and, in the full script, the deferral strictly inside the loan
    term, so that the [Math.max(1, ...)] of [numberOfPayments] never
    applies and deferral and repayment months add up to the loan term. *)
Theorem clamp_puts_inputs_in_range :
  (forall raw : Deferral.Inputs,
      let p := Deferral.clamp raw in
      0 <= Deferral.loanAmount p <= 10000000
      /\ 0 <= Deferral.downPayment p <= Deferral.loanAmount p
      /\ 0 <= Deferral.interestRate p <= 20
      /\ (1 <= Deferral.loanTermYears p <= 40)%Z
      /\ (0 <= Deferral.deferralMonths p <= 60)%Z
      /\ 0 <= Deferral.investmentRate p <= 30
      /\ 0 <= Deferral.investmentVolatility p <= 100
      /\ (Deferral.loanTermYears p <= Deferral.analysisYears p <= 60)%Z)
  /\ (forall raw : Full.Inputs,
         let p := Full.clamp raw in
         0 <= Full.loanAmount p <= 10000000
         /\ 0 <= Full.downPayment p <= Full.loanAmount p
         /\ 0 <= Full.interestRate p <= 20
         /\ (1 <= Full.loanTermYears p <= 40)%Z
         /\ (0 <= Full.deferralMonths p <= Full.loanTermYears p * 12 - 1)%Z
         /\ 0 <= Full.insuranceCost p <= 10000
         /\ 0 <= Full.investmentRate p <= 30
         /\ 0 <= Full.investmentVolatility p <= 100
         /\ (0 <= Full.additionalYears p <= 30)%Z
         /\ 0 <= Full.inflationRate p <= 20
         /\ (Full.loanTermYears p <= Full.analysisYears p <= 70)%Z
         /\ (Full.deferralMonths p + Full.numberOfPayments p
             = Full.totalLoanMonths p)%Z).
Proof.
  split; intros raw p; subst p.
  - pose proof (clamped_between 0 10000000 (Deferral.loanAmount raw) ltac:(lra)) as HA.
    cbn [Deferral.clamp Deferral.loanAmount Deferral.downPayment Deferral.interestRate
         Deferral.loanTermYears Deferral.deferralMonths Deferral.investmentRate
         Deferral.investmentVolatility Deferral.analysisYears].
    repeat match goal with
      | |- _ /\ _ => split
      | |- _ <= Qmax _ _ => apply Q.le_max_l
      | |- Qmax ?lo (Qmin ?hi _) <= ?hi => apply clamped_between
      end; try lra; try lia.
  - pose proof (clamped_between 0 10000000 (Full.loanAmount raw) ltac:(lra)) as HA.
    unfold Full.analysisYears, Full.numberOfPayments, Full.totalLoanMonths.
    cbn [Full.clamp Full.loanAmount Full.downPayment Full.interestRate
         Full.loanTermYears Full.deferralMonths Full.investmentRate
         Full.investmentVolatility Full.additionalYears Full.insuranceCost
         Full.inflationRate].
    repeat match goal with
      | |- _ /\ _ => split
      | |- _ <= Qmax _ _ => apply Q.le_max_l
      | |- Qmax ?lo (Qmin ?hi _) <= ?hi => apply clamped_between
      end; try lra; try lia.
Qed.

(** X2: the clamps are idempotent: re-running the reactive statements on
    clamped inputs changes nothing (each field is returned unchanged, not
    merely as an equal number). *)
Theorem clamp_idempotent :
  (forall i : Deferral.Inputs, Deferral.clamp (Deferral.clamp i) = Deferral.clamp i)
  /\ (forall i : Full.Inputs, Full.clamp (Full.clamp i) = Full.clamp i).
Proof.
  split; intro i.
  - pose proof (clamped_between 0 10000000 (Deferral.loanAmount i) ltac:(lra)) as HA.
    unfold Deferral.clamp at 1 3.
    cbn [Deferral.clamp Deferral.loanAmount Deferral.downPayment Deferral.interestRate
         Deferral.loanTermYears Deferral.deferralMonths Deferral.investmentRate
         Deferral.investmentVolatility Deferral.analysisYears Deferral.deferralType].
    rewrite !clamp_number_idempotent by lra.
    f_equal; lia.
  - pose proof (clamped_between 0 10000000 (Full.loanAmount i) ltac:(lra)) as HA.
    unfold Full.clamp at 1 3.
    cbn [Full.clamp Full.loanAmount Full.downPayment Full.interestRate
         Full.loanTermYears Full.deferralMonths Full.investmentRate
         Full.investmentVolatility Full.additionalYears Full.insuranceCost
         Full.inflationRate Full.deferralType].
    rewrite !clamp_number_idempotent by lra.
    f_equal; lia.
Qed.

(** ** The shape of the yearly sequence *)

(** X3: in the script with a deferral period the projection has one
    record per analysis year, numbered 1, 2, ... in order; a record's flags
    say whether its year-end month [12 * year] is still within the loan,
    respectively within the deferral; a record past the loan reports a
    balance of 0; and the net position is investment value minus total
    paid. *)
Theorem deferral_yearlyData_shape :
  forall p : Deferral.Inputs,
    map Deferral.year (Deferral.yearlyData p)
    = map (fun i => Z.of_nat (S i)) (seq 0 (Z.to_nat (Deferral.analysisYears p)))
    /\ Forall
         (fun d =>
            Deferral.isLoanActive d
            = (12 * Deferral.year d <=? Deferral.totalLoanMonths p)%Z
            /\ Deferral.isDeferralPeriod d
               = (12 * Deferral.year d <=? Deferral.deferralMonths p)%Z
            /\ (Deferral.isLoanActive d = false -> Deferral.loanBalance d = 0)
            /\ Deferral.netPosition d
               = Deferral.investmentValue d - Deferral.totalPaid d)
         (Deferral.yearlyData p).
Proof.
  intro p. rewrite deferral_yearlyData_spec. split.
  - rewrite map_map. reflexivity.
  - apply Forall_forall. intros d Hd.
    apply in_map_iff in Hd. destruct Hd as (i & <- & _).
    unfold Deferral.snapshot; cbv zeta.
    cbn [Deferral.isLoanActive Deferral.isDeferralPeriod Deferral.loanBalance
         Deferral.netPosition Deferral.investmentValue Deferral.totalPaid Deferral.year].
    rewrite deferral_elapsed.
    replace (Z.of_nat (12 * S i)) with (12 * Z.of_nat (S i))%Z by lia.
    repeat split.
    intros ->. reflexivity.
Qed.

(** X4: in the full script, for clamped inputs, the projection has a
    record for every year from 0 to [analysisYears], in order; a record is
    flagged active exactly when its year is at most the loan term, and a
    record past the loan term reports a balance of 0; the deferral flag of
    year 0 says whether there is any deferral, that of a later year whether
    its year-end month is within the deferral. *)
Theorem full_yearlyData_shape :
  forall raw : Full.Inputs,
    let p := Full.clamp raw in
    map Full.year (Full.yearlyData p)
    = map Z.of_nat (seq 0 (S (Z.to_nat (Full.analysisYears p))))
    /\ Forall
         (fun d =>
            Full.isLoanActive d = (Full.year d <=? Full.loanTermYears p)%Z
            /\ Full.isDeferralPeriod d
               = (if (Full.year d =? 0)%Z then (0 <? Full.deferralMonths p)%Z
                  else (12 * Full.year d <=? Full.deferralMonths p)%Z)
            /\ (Full.isLoanActive d = false -> Full.loanBalance d = 0)
            /\ Full.interestEarned d == Full.investmentValue d - Full.principal p
            /\ Full.netPosition d == Full.investmentValue d - Full.totalPaid d)
         (Full.yearlyData p).
Proof.
  intros raw p. pose proof (full_term_pos p (full_clamp_ranges raw)) as HL.
  rewrite full_yearlyData_spec. split.
  - cbn [map seq]. f_equal. rewrite <- seq_shift, !map_map. reflexivity.
  - apply Forall_cons.
    + cbn [Full.yearZero Full.isLoanActive Full.isDeferralPeriod Full.loanBalance
           Full.netPosition Full.investmentValue Full.totalPaid Full.year
           Full.interestEarned].
      repeat split; try discriminate; try ring.
      symmetry. apply Z.leb_le. lia.
    + apply Forall_forall. intros d Hd.
      apply in_map_iff in Hd. destruct Hd as (i & <- & _).
      unfold Full.snapshot; cbv zeta.
      cbn [Full.isLoanActive Full.isDeferralPeriod Full.loanBalance
           Full.netPosition Full.investmentValue Full.totalPaid Full.year
           Full.interestEarned].
      rewrite full_elapsed. unfold Full.totalLoanMonths.
      replace (Z.of_nat (12 * S i)) with (12 * Z.of_nat (S i))%Z by lia.
      replace (Z.of_nat (S i) =? 0)%Z with false by (symmetry; apply Z.eqb_neq; lia).
      repeat split; try reflexivity.
      * destruct (Z.leb_spec (12 * Z.of_nat (S i)) (Full.loanTermYears p * 12));
          symmetry; [apply Z.leb_le | apply Z.leb_gt]; lia.
      * intros ->. reflexivity.
Qed.

(** ** Scenario series *)

(** X5: in the full script the scenario series has the same years as the
    yearly projection and its [expected] column is the projection's
    [investmentValue] column, entry for entry (the same multiplications in
    the same order). *)
Theorem full_expected_series_is_investmentValue :
  forall p : Full.Inputs,
    map Full.Scenario.year (Full.scenarioYearlyData p)
    = map Full.year (Full.yearlyData p)
    /\ map Full.Scenario.expected (Full.scenarioYearlyData p)
       = map Full.investmentValue (Full.yearlyData p).
Proof.
  intro p.
  rewrite full_scenarioYearlyData_spec, full_yearlyData_spec.
  cbn [seq map]. rewrite <- seq_shift, !map_map.
  cbn [Full.Scenario.year Full.Scenario.expected Full.yearZero Full.year
       Full.investmentValue].
  split; f_equal.
  apply map_ext. intro i.
  cbn [Full.snapshot Full.investmentValue]. rewrite full_investment_at. reflexivity.
Qed.

(** X6: in the full script the last record of the scenario series carries
    the three headline figures: its [worst] and [best] are
    [worstCaseValue] and [bestCaseValue] (the values of
    [scenarioCalculation] at the shifted rates) and its [expected] is
    [finalInvestmentValue]. *)
Theorem full_last_scenario_is_headline :
  forall p : Full.Inputs,
    exists d,
      last_item (Full.scenarioYearlyData p) = Some d
      /\ Full.Scenario.worst d = Full.worstCaseValue p
      /\ Full.Scenario.best d = Full.bestCaseValue p
      /\ Full.Scenario.expected d = Full.finalInvestmentValue p.
Proof.
  intro p. rewrite full_scenarioYearlyData_spec, last_item_map_seq.
  eexists. split; [reflexivity|].
  cbn [Full.Scenario.worst Full.Scenario.best Full.Scenario.expected].
  unfold Full.worstCaseValue, Full.bestCaseValue, Full.scenarioCalculation,
    repeat_for; cbv zeta.
  rewrite !iter_years_months.
  repeat split.
  unfold Full.finalInvestmentValue.
  rewrite full_yearlyData_spec.
  destruct (Z.to_nat (Full.analysisYears p)) as [|n]; [reflexivity|].
  cbn [seq map]. rewrite last_item_cons.
  change (?x :: map ?f (seq 1 n)) with (map f (seq 0 (S n))).
  rewrite last_item_map_seq.
  cbn [Full.snapshot Full.investmentValue].
  rewrite full_investment_at. reflexivity.
Qed.

(** X7: in the full script, for clamped inputs, every record of the
    scenario series is ordered: [0 <= worst <= expected <= best] (the worst
    rate may be negative, down to -100 %, but [1 + rate / 1200] stays
    positive). *)
Theorem full_scenarios_ordered :
  forall raw : Full.Inputs,
    let p := Full.clamp raw in
    Forall
      (fun d =>
         0 <= Full.Scenario.worst d
         /\ Full.Scenario.worst d <= Full.Scenario.expected d
         /\ Full.Scenario.expected d <= Full.Scenario.best d)
      (Full.scenarioYearlyData p).
Proof.
  intros raw p.
  destruct (full_clamp_return_range raw) as [HI HV].
  fold p in HI, HV.
  pose proof (full_principal_nonneg p (full_clamp_ranges raw)) as HP.
  rewrite full_scenarioYearlyData_spec.
  apply Forall_forall. intros d Hd.
  apply in_map_iff in Hd. destruct Hd as (i & <- & _).
  cbn [Full.Scenario.worst Full.Scenario.best Full.Scenario.expected].
  unfold Full.worstCaseReturn, Full.bestCaseReturn.
  set (w := (Full.investmentRate p - Full.investmentVolatility p) / 100 / 12).
  set (e := Full.investmentRate p / 100 / 12).
  set (b := (Full.investmentRate p + Full.investmentVolatility p) / 100 / 12).
  assert (Hw : 0 <= 1 + w) by (unfold w; rewrite monthly_rate_scaled; lra).
  assert (Hwe : w <= e) by (unfold w, e; rewrite !monthly_rate_scaled; lra).
  assert (Heb : e <= b) by (unfold e, b; rewrite !monthly_rate_scaled; lra).
  destruct (grow_iter_monotone w e _ _ (12 * i) Hw Hwe HP (Qle_refl _)) as [H0 H1].
  destruct (grow_iter_monotone e b _ _ (12 * i) ltac:(lra) Heb HP (Qle_refl _))
    as [_ H2].
  repeat split; assumption.
Qed.


(** X9: in the script with a deferral period, for clamped inputs, every
    record of the scenario series is ordered:
    [0 <= worst <= expected <= best]. *)
Theorem deferral_scenarios_ordered :
  forall raw : Deferral.Inputs,
    let p := Deferral.clamp raw in
    Forall
      (fun d =>
         0 <= Deferral.Scenario.worst d
         /\ Deferral.Scenario.worst d <= Deferral.Scenario.expected d
         /\ Deferral.Scenario.expected d <= Deferral.Scenario.best d)
      (Deferral.scenarioYearlyData p).
Proof.
  intros raw p.
  destruct (deferral_clamp_return_range raw) as [HI HV].
  fold p in HI, HV.
  pose proof (deferral_clamp_ranges raw) as R. fold p in R.
  pose proof (deferral_downPayment_nonneg p R) as HD.
  pose proof (deferral_payment_nonneg p R) as HM.
  rewrite deferral_scenarioYearlyData_spec.
  apply Forall_forall. intros d Hd.
  apply in_map_iff in Hd. destruct Hd as (i & <- & _).
  cbn [Deferral.Scenario.worst Deferral.Scenario.best Deferral.Scenario.expected].
  unfold Deferral.worstCaseReturn, Deferral.bestCaseReturn.
  set (w := Qmax 0 (Deferral.investmentRate p - Deferral.investmentVolatility p)
            / 100 / 12).
  set (e := Deferral.investmentRate p / 100 / 12).
  set (b := (Deferral.investmentRate p + Deferral.investmentVolatility p) / 100 / 12).
  assert (Hw0 : 0 <= w) by (apply monthly_rate_nonneg, Q.le_max_l).
  assert (Hwe : w <= e).
  { unfold w, e. rewrite !monthly_rate_scaled.
    assert (Qmax 0 (Deferral.investmentRate p - Deferral.investmentVolatility p)
            <= Deferral.investmentRate p) by (apply Q.max_lub; lra).
    lra. }
  assert (Heb : e <= b) by (unfold e, b; rewrite !monthly_rate_scaled; lra).
  destruct (deferral_scenarioLoop_monotone p w e (S i) 1 _ _ HM ltac:(lra) Hwe HD
              (Qle_refl _)) as [H0 H1].
  destruct (deferral_scenarioLoop_monotone p e b (S i) 1 _ _ HM ltac:(lra) Heb HD
              (Qle_refl _)) as [_ H2].
  repeat split; assumption.
Qed.

(** X10: in the script with a deferral period, with every field a plain
    number and whatever [Math.pow] returns: when there is no deferral
    ([deferralMonths = 0]) and the loan term is a whole number of years,
    the [expected] column of the scenario series is the [investmentValue]
    column of the yearly projection, entry for entry.  The scenarios add
    the monthly payment in the years up to [loanTermYears], the projection
    in the months up to [loanTermYears * 12]; for a whole number of years
    these are the same months (for a term of 1.5 years they are 12 and 18
    months). *)
Theorem fractional_expected_series_is_investmentValue :
  forall (pow : Q -> Q -> Q) (p : Fractional.Deferral.Inputs),
    Fractional.Deferral.deferralMonths p == 0 ->
    Fractional.whole (Fractional.Deferral.loanTermYears p) ->
    map Fractional.Deferral.Scenario.expected
      (Fractional.Deferral.scenarioYearlyData pow p)
    = map Fractional.Deferral.investmentValue
        (Fractional.Deferral.yearlyData pow p).
Proof.
  intros pow p Hd HL.
  assert (E : map Fractional.Deferral.investmentValue
                (Fractional.Deferral.yearlyData pow p)
              = map Fractional.Simple.investmentValue
                  (map Fractional.withoutDeferralFlag
                     (Fractional.Deferral.yearlyData pow p))).
  { rewrite map_map. reflexivity. }
  rewrite E, (fractional_yearlyData_without_deferral pow p Hd HL).
  unfold Fractional.Deferral.scenarioYearlyData, Fractional.Simple.yearlyData.
  apply (fractional_scenario_is_simple pow p); [exact Hd | reflexivity].
Qed.

Lemma fractional_expected_series_is_investmentValue_witness :
  let pow := fun b e => b ^ Qfloor e in
  map Fractional.Deferral.Scenario.expected
    (Fractional.Deferral.scenarioYearlyData pow Fractional.exampleWholeYears)
  = map Fractional.Deferral.investmentValue
      (Fractional.Deferral.yearlyData pow Fractional.exampleWholeYears).
Proof.
  intro pow.
  apply fractional_expected_series_is_investmentValue; reflexivity.
Defined.

(** ** The earlier script *)

(** X11: in the earlier script (no deferral, no clamping), whenever at
    least one year is analysed, the value of [scenarioCalculation] at the
    expected rate is [finalInvestmentValue]: both loops compound the down
    payment monthly and add the monthly payment in the years up to
    [loanTermYears]. *)
Theorem simple_expected_scenario_is_final_investmentValue :
  forall p : Simple.Inputs,
    (1 <= Simple.analysisYears p)%Z ->
    Simple.scenarioCalculation p (Simple.investmentRate p)
    = Simple.finalInvestmentValue p.
Proof.
  intros p HN.
  unfold Simple.finalInvestmentValue, Simple.scenarioCalculation; cbv zeta.
  pose proof (last_item_map Simple.investmentValue (Simple.yearlyData p)) as H.
  unfold Simple.yearlyData in *. rewrite simple_investment_is_scenario in H.
  destruct (Z.to_nat (Simple.analysisYears p)) as [|n] eqn:EN; [lia|].
  rewrite last_item_map_seq in H.
  destruct (last_item _) as [d|]; cbn [option_map] in H; [|discriminate].
  injection H as H. rewrite <- H. reflexivity.
Qed.

Lemma simple_expected_scenario_is_final_investmentValue_witness :
  Simple.scenarioCalculation exampleSimple (Simple.investmentRate exampleSimple)
  = Simple.finalInvestmentValue exampleSimple.
Proof.
  apply simple_expected_scenario_is_final_investmentValue.
  vm_compute. discriminate.
Defined.

(** X12: the script with a deferral period extends the earlier one.  With
    every field a plain number and whatever [Math.pow] returns: on inputs
    that the clamps leave unchanged, with no deferral
    ([deferralMonths = 0]) and a loan term that is a whole number of
    years, it computes the same monthly payment, the same yearly records
    (the deferral flag apart) and the same break-even year as the earlier
    script, which does not clamp, on the same inputs. *)
Theorem fractional_deferral_without_deferral_is_simple :
  forall (pow : Q -> Q -> Q) (raw : Fractional.Deferral.Inputs),
    Fractional.Deferral.clamp raw = raw ->
    Fractional.Deferral.deferralMonths raw == 0 ->
    Fractional.whole (Fractional.Deferral.loanTermYears raw) ->
    let p := Fractional.Deferral.clamp raw in
    let q := Fractional.withoutDeferralFields raw in
    Fractional.Deferral.monthlyPayment pow p = Fractional.Simple.monthlyPayment pow q
    /\ map Fractional.withoutDeferralFlag (Fractional.Deferral.yearlyData pow p)
       = Fractional.Simple.yearlyData pow q
    /\ Fractional.Deferral.breakEvenYear pow p = Fractional.Simple.breakEvenYear pow q.
Proof.
  intros pow raw Hclamp Hd HL p q. subst p. rewrite Hclamp.
  pose proof (fractional_payment_without_deferral pow raw Hd) as HM. fold q in HM.
  pose proof (fractional_yearlyData_without_deferral pow raw Hd HL) as HY.
  fold q in HY.
  split; [exact HM|]. split; [exact HY|].
  unfold Fractional.Deferral.breakEvenYear, Fractional.Simple.breakEvenYear.
  rewrite <- HY, findIndex_map.
  f_equal. f_equal. apply findIndex_ext. intro d.
  unfold Fractional.Deferral.profitable, Fractional.Simple.profitable,
    Fractional.Deferral.totalInterest, Fractional.Simple.totalInterest,
    Fractional.Deferral.totalPayment, Fractional.Simple.totalPayment; cbv zeta.
  rewrite HM. reflexivity.
Qed.

Lemma fractional_deferral_without_deferral_is_simple_witness :
  let pow := fun b e => b ^ Qfloor e in
  let p := Fractional.Deferral.clamp Fractional.exampleWholeYears in
  let q := Fractional.withoutDeferralFields Fractional.exampleWholeYears in
  Fractional.Deferral.monthlyPayment pow p = Fractional.Simple.monthlyPayment pow q
  /\ map Fractional.withoutDeferralFlag (Fractional.Deferral.yearlyData pow p)
     = Fractional.Simple.yearlyData pow q
  /\ Fractional.Deferral.breakEvenYear pow p = Fractional.Simple.breakEvenYear pow q.
Proof.
  intro pow.
  apply fractional_deferral_without_deferral_is_simple; reflexivity.
Defined.

(** ** Payments and costs in the full script *)

(** X13: in the full script, for clamped inputs, nothing is paid after the
    loan has ended: all yearly records from the year the loan ends
    ([loanTermYears]) onward report one and the same cumulative
    [totalPaid] and one and the same cumulative [totalBorrowingCost]. *)
Theorem full_totals_frozen_after_term :
  forall raw : Full.Inputs,
    let p := Full.clamp raw in
    Forall
      (fun d1 =>
         Forall
           (fun d2 =>
              (Full.loanTermYears p <= Full.year d1)%Z ->
              (Full.loanTermYears p <= Full.year d2)%Z ->
              Full.totalPaid d1 = Full.totalPaid d2
              /\ Full.totalBorrowingCost d1 = Full.totalBorrowingCost d2)
           (Full.yearlyData p))
      (Full.yearlyData p).
Proof.
  intros raw p. pose proof (full_clamp_ranges raw) as R. fold p in R.
  pose proof (full_term_pos p R) as HL.
  set (t := Z.to_nat (Full.totalLoanMonths p)).
  assert (H : forall d, In d (Full.yearlyData p) ->
                        (Full.loanTermYears p <= Full.year d)%Z ->
                        Full.totalPaid d = Full.Loop.totalPaid (Full.simulate p t)
                        /\ Full.totalBorrowingCost d
                           = Full.Loop.totalBorrowingCost (Full.simulate p t)).
  { intros d Hd Hy. rewrite full_yearlyData_spec in Hd.
    destruct Hd as [<- | Hd]; [cbn [Full.yearZero Full.year] in Hy; lia|].
    apply in_map_iff in Hd. destruct Hd as (i & <- & _).
    cbn [Full.snapshot Full.year Full.totalPaid Full.totalBorrowingCost] in *.
    replace (12 * S i)%nat with (t + (12 * S i - t))%nat
      by (subst t; unfold Full.totalLoanMonths; lia).
    apply (full_paid_retired p (12 * S i - t) R). }
  apply Forall_forall. intros d1 Hd1.
  apply Forall_forall. intros d2 Hd2 Hy1 Hy2.
  destruct (H d1 Hd1 Hy1) as [E1 E2]. destruct (H d2 Hd2 Hy2) as [E3 E4].
  split; congruence.
Qed.

(** X14: in the full script, for clamped inputs, the cumulative cost of
    borrowing never exceeds what has been paid: during the deferral
    everything paid is a cost of borrowing
    ([totalPaid = totalBorrowingCost]), and in every month
    [0 <= totalBorrowingCost <= totalPaid]. *)
Theorem full_borrowing_cost_within_totalPaid :
  forall (raw : Full.Inputs) (k : nat),
    let p := Full.clamp raw in
    let s := Full.simulate p k in
    ((Z.of_nat k <= Full.deferralMonths p)%Z ->
     Full.Loop.totalPaid s == Full.Loop.totalBorrowingCost s)
    /\ 0 <= Full.Loop.totalBorrowingCost s
    /\ Full.Loop.totalBorrowingCost s <= Full.Loop.totalPaid s.
Proof.
  intros raw k p s. pose proof (full_clamp_ranges raw) as R. fold p in R.
  subst s. split; [|split].
  - intro Hk. destruct (full_paid_deferred p k R Hk) as [H1 H2].
    cbv zeta in H1, H2. rewrite H1, H2. reflexivity.
  - apply full_cost_nonneg_at, R.
  - apply full_cost_within_paid, R.
Qed.

Lemma full_borrowing_cost_within_totalPaid_witness :
  let s := Full.simulate (Full.clamp Full.DEFAULTS) 6 in
  Full.Loop.totalPaid s == Full.Loop.totalBorrowingCost s.
Proof.
  intro s. apply (full_borrowing_cost_within_totalPaid Full.DEFAULTS 6).
  vm_compute. discriminate.
Defined.

(** X15: in the full script, for clamped inputs with a capitalizing
    deferral of at least one month, a principal of at least one currency
    unit and an interest rate of at least 0.1 % a year, the cumulative
    [totalBorrowingCost] of every yearly record stays strictly below the
    headline [totalLoanBorrowingCost]: the projection never counts the
    interest capitalized during the deferral as a cost, the headline
    figure does. *)
Theorem full_capitalized_interest_missing_from_cost :
  forall raw : Full.Inputs,
    let p := Full.clamp raw in
    Full.deferralType p = complete ->
    (1 <= Full.deferralMonths p)%Z ->
    1 <= Full.principal p ->
    0.1 <= Full.interestRate p ->
    Forall
      (fun d => Full.totalBorrowingCost d < Full.totalLoanBorrowingCost p)
      (Full.yearlyData p).
Proof.
  intros raw p Htype Hd HP Hrate.
  pose proof (full_clamp_ranges raw) as R. fold p in R.
  assert (Hr : 0 < Full.monthlyRate p) by (apply monthly_rate_pos; lra).
  pose proof (full_capitalized_interest_pos p Htype Hd ltac:(lra) Hr) as Hgap.
  rewrite full_yearlyData_spec. apply Forall_cons.
  - cbn [Full.yearZero Full.totalBorrowingCost].
    pose proof (full_cost_below_headline p 0 R Hr) as H.
    change (Full.Loop.totalBorrowingCost (Full.simulate p 0)) with 0 in H.
    lra.
  - apply Forall_forall. intros d Hin.
    apply in_map_iff in Hin. destruct Hin as (i & <- & _).
    cbn [Full.snapshot Full.totalBorrowingCost].
    pose proof (full_cost_below_headline p (12 * S i) R Hr) as H.
    lra.
Qed.

Lemma full_capitalized_interest_missing_from_cost_witness :
  let p := Full.clamp Full.DEFAULTS in
  Forall
    (fun d => Full.totalBorrowingCost d < Full.totalLoanBorrowingCost p)
    (Full.yearlyData p).
Proof.
  intro p. apply (full_capitalized_interest_missing_from_cost Full.DEFAULTS);
    [reflexivity | | | ]; vm_compute; discriminate.
Defined.

(** ** Break-even as a threshold *)

(** X16: in the full script, for clamped inputs, a break-even year is a
    genuine threshold: it lies between 0 and [analysisYears], and every
    record of that year or a later one passes the profitability test
    (the gains never decrease); when there is no break-even year the
    return on investment is not positive. *)
Theorem full_breakEvenYear_is_threshold :
  forall raw : Full.Inputs,
    let p := Full.clamp raw in
    match Full.breakEvenYear p with
    | Some y =>
        (0 <= y <= Full.analysisYears p)%Z
        /\ Forall
             (fun d => (y <= Full.year d)%Z -> Full.profitable p d = true)
             (Full.yearlyData p)
    | None => Full.isPositiveROI p = false
    end.
Proof.
  intros raw p. pose proof (full_clamp_ranges raw) as R. fold p in R.
  unfold Full.breakEvenYear; cbv zeta.
  destruct (first_match (Full.profitable p) (Full.yearlyData p))
    as [(Hf & _ & Hall) | (k & d & Hk & Ht & Hf & _ & _)]; rewrite Hf.
  - unfold Full.isPositiveROI, Full.finalInterestEarned.
    destruct (last_item (Full.yearlyData p)) as [d|] eqn:El.
    + apply nth_error_In in El. specialize (Hall d El).
      unfold Full.profitable in Hall.
      apply Qltb_ge.
      destruct (Qlt_le_dec (Full.interestEarned d) (Full.totalLoanBorrowingCost p))
        as [H|H]; [lra|].
      apply Qleb_le in H. congruence.
    + unfold last_item in El. apply nth_error_None in El.
      rewrite full_yearlyData_length in El. lia.
  - rewrite (full_year_of_record p k d Hk). split.
    + assert (k < length (Full.yearlyData p))%nat
        by (apply nth_error_Some; congruence).
      rewrite full_yearlyData_length in H.
      pose proof (full_term_pos p R). pose proof (full_additional_nonneg p R).
      unfold Full.analysisYears in *. lia.
    + apply Forall_forall. intros d' Hd' Hy.
      apply In_nth_error in Hd'. destruct Hd' as [j Hj].
      rewrite (full_year_of_record p j d' Hj) in Hy.
      pose proof (full_interestEarned_monotone p k j d d' R ltac:(lia) Hk Hj) as Hm.
      unfold Full.profitable in *. apply Qleb_le. apply Qleb_le in Ht. lra.
Qed.

(** X17: in the script with a deferral period (and its [findIndex + 1 ||
    null]), a break-even year is never 0: it lies between 1 and
    [analysisYears]. *)
Theorem deferral_breakEvenYear_within_horizon :
  forall p : Deferral.Inputs,
    match Deferral.breakEvenYear p with
    | Some y => (1 <= y <= Deferral.analysisYears p)%Z
    | None => True
    end.
Proof.
  intro p. unfold Deferral.breakEvenYear.
  destruct (first_match (Deferral.profitable p) (Deferral.yearlyData p))
    as [(_ & Hi & _) | (k & d & Hk & _ & _ & Hi & _)]; rewrite Hi.
  - exact I.
  - unfold or_null.
    replace (Z.of_nat k + 1 =? 0)%Z with false by (symmetry; apply Z.eqb_neq; lia).
    assert (k < length (Deferral.yearlyData p))%nat
      by (apply nth_error_Some; congruence).
    rewrite deferral_yearlyData_length in H. lia.
Qed.

(** X18: the inflation-adjusted break-even year of the full script is, like
    the nominal one, the year of the first record passing its test (gains
    in real terms at least the final real borrowing cost), or [null] when
    no record passes. *)
Theorem full_breakEvenYearReal_first_year_or_null :
  forall p : Full.Inputs,
    match Full.breakEvenYearReal p with
    | Some y =>
        exists d, In d (Full.yearlyData p)
                  /\ Full.year d = y
                  /\ Full.profitableReal p d = true
                  /\ forall d', In d' (Full.yearlyData p) ->
                                Full.profitableReal p d' = true ->
                                (y <= Full.year d')%Z
    | None =>
        forall d, In d (Full.yearlyData p) -> Full.profitableReal p d = false
    end.
Proof.
  intro p. unfold Full.breakEvenYearReal; cbv zeta.
  destruct (first_match (Full.profitableReal p) (Full.yearlyData p))
    as [(Hf & _ & Hall) | (k & d & Hk & Ht & Hf & _ & Hmin)]; rewrite Hf.
  - exact Hall.
  - exists d. repeat split.
    + eapply nth_error_In, Hk.
    + exact Ht.
    + intros d' Hd' Ht'.
      apply In_nth_error in Hd'. destruct Hd' as [j Hj].
      rewrite (full_year_of_record p j d' Hj), (full_year_of_record p k d Hk).
      destruct (le_lt_dec k j) as [L|L]; [lia|].
      rewrite (Hmin j d' L Hj) in Ht'. discriminate.
Qed.

(** ** Nominal and real figures *)

(** X19: in the full script, for clamped inputs, deflating never inflates:
    in every yearly record the real investment value, total paid and
    total borrowing cost are at most the nominal ones; and with an
    inflation rate of 0 the real figures equal the nominal ones (net
    position and gains included). *)
Theorem full_real_figures_bounded_by_nominal :
  forall raw : Full.Inputs,
    let p := Full.clamp raw in
    Forall
      (fun d =>
         Full.investmentValueReal d <= Full.investmentValue d
         /\ Full.totalPaidReal d <= Full.totalPaid d
         /\ Full.totalBorrowingCostReal d <= Full.totalBorrowingCost d)
      (Full.yearlyData p)
    /\ (Full.inflationRate p == 0 ->
        Forall
          (fun d =>
             Full.investmentValueReal d == Full.investmentValue d
             /\ Full.totalPaidReal d == Full.totalPaid d
             /\ Full.totalBorrowingCostReal d == Full.totalBorrowingCost d
             /\ Full.interestEarnedReal d == Full.interestEarned d
             /\ Full.netPositionReal d == Full.netPosition d)
          (Full.yearlyData p)).
Proof.
  intros raw p. pose proof (full_clamp_ranges raw) as R. fold p in R.
  rewrite full_yearlyData_spec. split.
  - apply Forall_cons.
    + cbn [Full.yearZero Full.investmentValueReal Full.investmentValue
           Full.totalPaidReal Full.totalPaid Full.totalBorrowingCostReal
           Full.totalBorrowingCost].
      repeat split; apply Qle_refl.
    + apply Forall_forall. intros d Hd.
      apply in_map_iff in Hd. destruct Hd as (i & <- & _).
      unfold Full.snapshot; cbv zeta.
      cbn [Full.investmentValueReal Full.investmentValue Full.totalPaidReal
           Full.totalPaid Full.totalBorrowingCostReal Full.totalBorrowingCost].
      pose proof (full_inflation_factor_ge_1 p (12 * S i) R).
      repeat split; apply Qdiv_le_self; try assumption.
      * apply full_investment_nonneg_at, R.
      * apply full_paid_nonneg_at, R.
      * apply full_cost_nonneg_at, R.
  - intro Hinf.
    assert (Hm : Full.monthlyInflationRate p == 0)
      by (apply monthly_rate_zero, Hinf).
    apply Forall_cons.
    + cbn [Full.yearZero Full.investmentValueReal Full.investmentValue
           Full.totalPaidReal Full.totalPaid Full.totalBorrowingCostReal
           Full.totalBorrowingCost Full.interestEarnedReal Full.interestEarned
           Full.netPositionReal Full.netPosition].
      repeat split; reflexivity.
    + apply Forall_forall. intros d Hd.
      apply in_map_iff in Hd. destruct Hd as (i & <- & _).
      unfold Full.snapshot; cbv zeta.
      cbn [Full.investmentValueReal Full.investmentValue Full.totalPaidReal
           Full.totalPaid Full.totalBorrowingCostReal Full.totalBorrowingCost
           Full.interestEarnedReal Full.interestEarned Full.netPositionReal
           Full.netPosition].
      pose proof (full_inflation_factor_no_inflation p (12 * S i) Hm) as Hf.
      rewrite !(Qdiv_by_1 _ _ Hf).
      repeat split; reflexivity.
Qed.

Lemma full_real_figures_bounded_by_nominal_witness :
  let p := Full.clamp exampleFullNoInflation in
  Forall
    (fun d =>
       Full.investmentValueReal d == Full.investmentValue d
       /\ Full.totalPaidReal d == Full.totalPaid d
       /\ Full.totalBorrowingCostReal d == Full.totalBorrowingCost d
       /\ Full.interestEarnedReal d == Full.interestEarned d
       /\ Full.netPositionReal d == Full.netPosition d)
    (Full.yearlyData p).
Proof.
  intro p.
  apply (full_real_figures_bounded_by_nominal exampleFullNoInflation).
  reflexivity.
Defined.

(** ** Totals of the loan calculator *)

(** X20: in the loan calculator, a loan with a principal of at least one
    currency unit, an interest rate of at least 0.1 % a year (one step of
    the rate field) and a term of at least one year costs more than it
    lends: the total interest is strictly positive and the monthly payment
    exceeds [principal / numberOfPayments]. *)
Theorem basic_interest_is_positive :
  forall i : Basic.Inputs,
    1 <= Basic.principal i ->
    0.1 <= Basic.interestRate i ->
    (1 <= Basic.loanTermYears i)%Z ->
    0 < Basic.totalInterest i
    /\ Basic.principal i / inject_Z (Basic.numberOfPayments i) < Basic.monthlyPayment i.
Proof.
  intros i HP Hrate HL.
  assert (HP' : 0 < Basic.principal i) by lra.
  assert (Hr : 0 < Basic.monthlyRate i) by (apply monthly_rate_pos; lra).
  assert (Hn : (1 <= Basic.numberOfPayments i)%Z)
    by (unfold Basic.numberOfPayments; lia).
  pose proof (annuity_total_exceeds_base _ _ _ HP' Hr Hn) as H.
  fold (Basic.monthlyPayment i) in H.
  assert (Hn' : 0 < inject_Z (Basic.numberOfPayments i))
    by (change 0 with (inject_Z 0); rewrite <- Zlt_Qlt; lia).
  split.
  - unfold Basic.totalInterest, Basic.totalPayment. lra.
  - apply Qlt_shift_div_r; [exact Hn' | exact H].
Qed.

Lemma basic_interest_is_positive_witness :
  0 < Basic.totalInterest exampleLoan
  /\ Basic.principal exampleLoan / inject_Z (Basic.numberOfPayments exampleLoan)
     < Basic.monthlyPayment exampleLoan.
Proof.
  apply basic_interest_is_positive; vm_compute; discriminate.
Defined.

(** X21: in the loan calculator, at an interest rate of 0 the totals
    follow the zero payment: nothing is ever paid, the "total interest"
    shown is minus the principal and the total cost is the down payment
    alone. *)
Theorem basic_totals_at_zero_rate :
  forall i : Basic.Inputs,
    Basic.interestRate i == 0 ->
    Basic.totalPayment i == 0
    /\ Basic.totalInterest i == - Basic.principal i
    /\ Basic.totalCost i == Basic.downPayment i.
Proof.
  intros i Hrate.
  assert (HM : Basic.monthlyPayment i = 0).
  { apply annuity_no_rate.
    assert (Basic.monthlyRate i == 0) by (apply monthly_rate_zero, Hrate).
    lra. }
  unfold Basic.totalCost, Basic.totalInterest, Basic.totalPayment.
  rewrite HM. repeat split; ring.
Qed.

Lemma basic_totals_at_zero_rate_witness :
  Basic.totalPayment interestFreeLoan == 0
  /\ Basic.totalInterest interestFreeLoan == - Basic.principal interestFreeLoan
  /\ Basic.totalCost interestFreeLoan == Basic.downPayment interestFreeLoan.
Proof.
  apply basic_totals_at_zero_rate. reflexivity.
Defined.

(** ** Risk level *)

(** X22: in the three scripts that classify risk, the level and its colour
    are computed by two separate expressions and always agree: below 10
    the level is Low and green, from 10 to below 20 Medium and yellow, from
    20 on High and red. *)
Theorem riskLevel_and_riskColor_agree :
  (forall p : Simple.Inputs,
      (Simple.investmentVolatility p < 10
       /\ Simple.riskLevel p = "Low"%string
       /\ Simple.riskColor p = "text-green-600"%string)
      \/ (10 <= Simple.investmentVolatility p < 20
          /\ Simple.riskLevel p = "Medium"%string
          /\ Simple.riskColor p = "text-yellow-600"%string)
      \/ (20 <= Simple.investmentVolatility p
          /\ Simple.riskLevel p = "High"%string
          /\ Simple.riskColor p = "text-red-600"%string))
  /\ (forall p : Deferral.Inputs,
         (Deferral.investmentVolatility p < 10
          /\ Deferral.riskLevel p = "Low"%string
          /\ Deferral.riskColor p = "text-green-600"%string)
         \/ (10 <= Deferral.investmentVolatility p < 20
             /\ Deferral.riskLevel p = "Medium"%string
             /\ Deferral.riskColor p = "text-yellow-600"%string)
         \/ (20 <= Deferral.investmentVolatility p
             /\ Deferral.riskLevel p = "High"%string
             /\ Deferral.riskColor p = "text-red-600"%string))
  /\ (forall p : Full.Inputs,
         (Full.investmentVolatility p < 10
          /\ Full.riskLevel p = "Low"%string
          /\ Full.riskColor p = "text-green-600"%string)
         \/ (10 <= Full.investmentVolatility p < 20
             /\ Full.riskLevel p = "Medium"%string
             /\ Full.riskColor p = "text-yellow-600"%string)
         \/ (20 <= Full.investmentVolatility p
             /\ Full.riskLevel p = "High"%string
             /\ Full.riskColor p = "text-red-600"%string)).
Proof.
  split; [|split]; intro p.
  - unfold Simple.riskLevel, Simple.riskColor.
    destruct (Qltb (Simple.investmentVolatility p) 10) eqn:E1;
      [left; apply Qltb_lt in E1; auto|].
    apply Qltb_ge in E1.
    destruct (Qltb (Simple.investmentVolatility p) 20) eqn:E2;
      [right; left; apply Qltb_lt in E2; auto|].
    apply Qltb_ge in E2. right; right; auto.
  - unfold Deferral.riskLevel, Deferral.riskColor.
    destruct (Qltb (Deferral.investmentVolatility p) 10) eqn:E1;
      [left; apply Qltb_lt in E1; auto|].
    apply Qltb_ge in E1.
    destruct (Qltb (Deferral.investmentVolatility p) 20) eqn:E2;
      [right; left; apply Qltb_lt in E2; auto|].
    apply Qltb_ge in E2. right; right; auto.
  - unfold Full.riskLevel, Full.riskColor.
    destruct (Qltb (Full.investmentVolatility p) 10) eqn:E1;
      [left; apply Qltb_lt in E1; auto|].
    apply Qltb_ge in E1.
    destruct (Qltb (Full.investmentVolatility p) 20) eqn:E2;
      [right; left; apply Qltb_lt in E2; auto|].
    apply Qltb_ge in E2. right; right; auto.
Qed.

(** ** The hand-drawn chart *)

(** X23: in the script with a hand-drawn chart, for inputs inside the
    sliders' ranges and at least one analysed year, the value range of the
    chart is defined and not negative; it is positive as soon as there is
    a down payment; and whenever it is positive (so that [scaleY] does not
    divide by zero) every plotted point lies inside the drawing: the
    investment value, the total paid and the net position of every yearly
    record, and the zero line, are mapped by [scaleY] between 0 and
    [chartHeight], and the record's year is mapped by [scaleX] into
    (0, chartWidth]. *)
Theorem deferral_chart_points_inside :
  forall p : Deferral.Inputs,
    DeferralRanges p ->
    (1 <= Deferral.analysisYears p)%Z ->
    let inside (y : option Q) :=
      match y with
      | Some y => 0 <= y <= Deferral.chartHeight
      | None => False
      end in
    exists range,
      Deferral.chartValueRange p = Some range
      /\ 0 <= range
      /\ (0 < Deferral.downPayment p -> 0 < range)
      /\ (0 < range ->
          inside (Deferral.scaleY p 0)
          /\ Forall
               (fun d =>
                  inside (Deferral.scaleY p (Deferral.investmentValue d))
                  /\ inside (Deferral.scaleY p (Deferral.totalPaid d))
                  /\ inside (Deferral.scaleY p (Deferral.netPosition d))
                  /\ 0 < Deferral.scaleX p (Deferral.year d) <= Deferral.chartWidth)
               (Deferral.yearlyData p)).
Proof.
  intros p R HN inside.
  unfold Deferral.chartValueRange, Deferral.scaleY, Deferral.chartValueRange.
  destruct (Deferral.chartMaxValue p) as [M|] eqn:EM.
  2: { unfold Deferral.chartMaxValue in EM.
       rewrite deferral_yearlyData_spec in EM.
       destruct (Z.to_nat (Deferral.analysisYears p)) eqn:EN; [lia|].
       cbn [seq map spread_max] in EM. discriminate. }
  pose proof (spread_max_ge _ _ EM) as Hmax.
  destruct (spread_min_le (map (fun d => Deferral.netPosition d) (Deferral.yearlyData p)) 0)
    as [Hmin0 Hmin].
  fold (Deferral.chartMinValue p) in Hmin0, Hmin.
  set (m := Deferral.chartMinValue p) in *.
  assert (Hrec : forall d, In d (Deferral.yearlyData p) ->
            Deferral.downPayment p <= Deferral.investmentValue d <= M
            /\ 0 <= Deferral.totalPaid d <= M
            /\ m <= Deferral.netPosition d
            /\ Deferral.netPosition d = Deferral.investmentValue d - Deferral.totalPaid d
            /\ (1 <= Deferral.year d <= Deferral.analysisYears p)%Z).
  { intros d Hd.
    assert (Hm1 : Qmax (Deferral.investmentValue d) (Deferral.totalPaid d) <= M)
      by (apply Hmax, (in_map (fun d => Qmax (Deferral.investmentValue d)
                                          (Deferral.totalPaid d))), Hd).
    assert (Hm2 : m <= Deferral.netPosition d)
      by (apply Hmin, (in_map (fun d => Deferral.netPosition d)), Hd).
    pose proof (Q.le_max_l (Deferral.investmentValue d) (Deferral.totalPaid d)).
    pose proof (Q.le_max_r (Deferral.investmentValue d) (Deferral.totalPaid d)).
    rewrite deferral_yearlyData_spec in Hd.
    apply in_map_iff in Hd. destruct Hd as (i & <- & Hi). apply in_seq in Hi.
    cbn [Deferral.snapshot Deferral.investmentValue Deferral.totalPaid
         Deferral.netPosition Deferral.year] in *.
    destruct (deferral_year_monotone p 0 (12 * S i) R) as [_ Hinv].
    rewrite Nat.add_0_r in Hinv.
    change (Deferral.Loop.investmentValue (Deferral.simulate p 0))
      with (Deferral.downPayment p) in Hinv.
    pose proof (deferral_paid_nonneg_at p (12 * S i) R).
    repeat split; try lra; try lia. }
  pose proof (deferral_downPayment_nonneg p R) as HD.
  assert (HM0 : Deferral.downPayment p <= M).
  { rewrite deferral_yearlyData_spec in Hrec.
    destruct (Z.to_nat (Deferral.analysisYears p)) eqn:EN; [lia|].
    destruct (Hrec _ (or_introl eq_refl)) as ([? ?] & _). lra. }
  assert (Hrange : 0 <= M - m) by lra.
  exists (M - m). cbn [option_map].
  split; [reflexivity|]. split; [exact Hrange|].
  split; [intro; lra|]. intro Hpos.
  split; [apply scaled_inside; unfold Deferral.chartHeight; lra|].
  apply Forall_forall. intros d Hd.
  destruct (Hrec d Hd) as ([? ?] & [? ?] & ? & Enet & Hy).
    assert (HA : 0 < inject_Z (Deferral.analysisYears p))
      by (change 0 with (inject_Z 0); rewrite <- Zlt_Qlt; lia).
    assert (HY : 0 < inject_Z (Deferral.year d) <= inject_Z (Deferral.analysisYears p)).
    { split; [change 0 with (inject_Z 0); rewrite <- Zlt_Qlt
             | rewrite <- Zle_Qle]; lia. }
    split; [apply scaled_inside; unfold Deferral.chartHeight; lra|].
    split; [apply scaled_inside; unfold Deferral.chartHeight; lra|].
    split; [rewrite Enet in *; apply scaled_inside;
            unfold Deferral.chartHeight; lra|].
    split.
    + unfold Deferral.scaleX, Deferral.chartWidth.
      assert (0 < inject_Z (Deferral.year d) / inject_Z (Deferral.analysisYears p))
        by (apply Qlt_shift_div_l; lra).
      lra.
    + unfold Deferral.scaleX, Deferral.chartWidth.
      assert (inject_Z (Deferral.year d) / inject_Z (Deferral.analysisYears p) <= 1)
        by (apply Qle_shift_div_r; lra).
      lra.
Qed.

Lemma deferral_chart_points_inside_witness :
  exists range,
    Deferral.chartValueRange exampleDeferral = Some range /\ 0 < range.
Proof.
  assert (R : DeferralRanges exampleDeferral)
    by (constructor; vm_compute; intro H; discriminate H).
  assert (HN : (1 <= Deferral.analysisYears exampleDeferral)%Z)
    by (vm_compute; intro H; discriminate H).
  destruct (deferral_chart_points_inside exampleDeferral R HN)
    as (range & H1 & _ & H2 & _).
  exists range. split; [exact H1 | apply H2; reflexivity].
Defined.

(** ** Investment presets *)

(** X24: [applyPreset] touches nothing but the investment return and
    volatility; it changes nothing for the id 'custom' and for an id that
    is not in the table; and for every other preset of the table it
    installs that preset's return and volatility, which the input clamps
    then leave as they are (every preset lies inside the clamped
    ranges). *)
Theorem applyPreset_installs_preset_rates :
  forall (presetId : string) (i : Full.Inputs),
    let i' := Full.applyPreset presetId i in
    (Full.loanAmount i' = Full.loanAmount i
     /\ Full.interestRate i' = Full.interestRate i
     /\ Full.loanTermYears i' = Full.loanTermYears i
     /\ Full.downPayment i' = Full.downPayment i
     /\ Full.deferralMonths i' = Full.deferralMonths i
     /\ Full.deferralType i' = Full.deferralType i
     /\ Full.insuranceCost i' = Full.insuranceCost i
     /\ Full.additionalYears i' = Full.additionalYears i
     /\ Full.inflationRate i' = Full.inflationRate i)
    /\ (presetId = "custom"%string
        \/ ~ In presetId (map Full.id Full.investmentPresets) ->
        i' = i)
    /\ (forall preset,
           In preset Full.investmentPresets ->
           Full.id preset = presetId ->
           presetId <> "custom"%string ->
           Full.investmentRate i' = Full.returnRate preset
           /\ Full.investmentVolatility i' = Full.volatility preset
           /\ Full.investmentRate (Full.clamp i') == Full.returnRate preset
           /\ Full.investmentVolatility (Full.clamp i') == Full.volatility preset).
Proof.
  intros presetId i i'. split; [|split].
  - subst i'. unfold Full.applyPreset; cbv zeta.
    destruct (find _ Full.investmentPresets); [|repeat split].
    destruct (negb _); repeat split.
  - intros [-> | Hnot]; [reflexivity|].
    subst i'. unfold Full.applyPreset; cbv zeta.
    destruct (find _ Full.investmentPresets) as [pr|] eqn:E; [|reflexivity].
    apply find_some in E. destruct E as [Hin Heq].
    apply String.eqb_eq in Heq. exfalso. apply Hnot. rewrite <- Heq.
    apply in_map, Hin.
  - intros preset Hin Hid Hcustom. subst i' presetId.
    unfold Full.investmentPresets in Hin. cbn [In] in Hin.
    destruct Hin as [<- | Hin]; [exfalso; apply Hcustom; reflexivity|].
    repeat (destruct Hin as [<- | Hin];
            [split; [reflexivity|]; split; [reflexivity|];
             split; vm_compute; reflexivity|]).
    destruct Hin.
Qed.

Lemma applyPreset_installs_preset_rates_witness :
  Full.investmentRate (Full.clamp (Full.applyPreset "crypto" exampleFull)) == 30.
Proof.
  destruct (applyPreset_installs_preset_rates "crypto" exampleFull) as (_ & _ & H).
  apply (H {| Full.id := "crypto"; Full.name := "Crypto (BTC/ETH)";
              Full.returnRate := 30; Full.volatility := 80;
              Full.description := "Extremely volatile, speculative" |});
    [cbn; tauto | reflexivity | discriminate].
Defined.
